(** * rust-green web client: a shallow embedding of the front-end logic

    The repository's executable code is three browser scripts:
    - the analysis page ([RustGreenApp]: submission, status polling,
      code statistics, HTML escaping),
    - the session detail page ([SessionDetailApp]: loading one session,
      polling it while it runs, the error banner),
    - the sessions browser ([SessionsApp]: filtering, sorting, paging).

    JavaScript strings are sequences of UTF-16 code units, event handlers
    are functions from a state (and the data the event carries) to a new
    state and the list of effects they perform, and an [await] splits a
    function into the part that runs when it is called and the part that
    runs when the response arrives. *)

From Stdlib Require Import String Ascii.
From Stdlib Require Import List ZArith NArith Lia Bool Permutation Sorted.
From Stdlib Require Import DecimalString.
Import ListNotations.

(* ================================================================== *)
(** * Part I: the embedding *)
(* ================================================================== *)

(** ** JavaScript strings *)

Module JsString.

(** A string is a list of UTF-16 code units. *)
Definition code_unit := N.
Definition jsstring := list code_unit.

(** Literals of the source are written as Rocq strings. *)
Definition of_string (s : string) : jsstring :=
  map N_of_ascii (list_ascii_of_string s).

Definition eqb (a b : jsstring) : bool :=
  if list_eq_dec N.eq_dec a b then true else false.

(** ECMAScript WhiteSpace and LineTerminator code points: the set that
    [String.prototype.trim] strips and that [\s] matches. *)
Definition is_white_space (c : code_unit) : bool :=
  ((c =? 9) || (c =? 10) || (c =? 11) || (c =? 12) || (c =? 13)
   || (c =? 32) || (c =? 160) || (c =? 5760)
   || ((8192 <=? c) && (c <=? 8202))
   || (c =? 8232) || (c =? 8233) || (c =? 8239) || (c =? 8287)
   || (c =? 12288) || (c =? 65279))%N.

(** The word characters of [\b] and [\w]: [A-Za-z0-9_]. *)
Definition is_word_char (c : code_unit) : bool :=
  (((48 <=? c) && (c <=? 57)) || ((65 <=? c) && (c <=? 90))
   || (c =? 95) || ((97 <=? c) && (c <=? 122)))%N.

Fixpoint dropWhile (p : code_unit -> bool) (s : jsstring) : jsstring :=
  match s with
  | [] => []
  | c :: s' => if p c then dropWhile p s' else s
  end.

Fixpoint takeWhile (p : code_unit -> bool) (s : jsstring) : jsstring :=
  match s with
  | [] => []
  | c :: s' => if p c then c :: takeWhile p s' else []
  end.

(** [String.prototype.trim] *)
Definition trimStart (s : jsstring) : jsstring := dropWhile is_white_space s.
Definition trimEnd (s : jsstring) : jsstring := rev (trimStart (rev s)).
Definition trim (s : jsstring) : jsstring := trimEnd (trimStart s).

(** ToBoolean of a string: the empty string is the only falsy one. *)
Definition truthy (s : jsstring) : bool :=
  match s with [] => false | _ :: _ => true end.

(** [String.prototype.split] with a one-character separator.  The
    result is never empty: the empty string splits into one empty piece. *)
Fixpoint split (sep : code_unit) (s : jsstring) : list jsstring :=
  match s with
  | [] => [[]]
  | c :: s' =>
      if (c =? sep)%N then [] :: split sep s'
      else match split sep s' with
           | seg :: segs => (c :: seg) :: segs
           | [] => [[c]]
           end
  end.

Fixpoint prefix_eqb (w s : jsstring) : bool :=
  match w, s with
  | [], _ => true
  | a :: w', c :: s' => (a =? c)%N && prefix_eqb w' s'
  | _ :: _, [] => false
  end.

(** A non-negative integer in a template literal: its decimal digits. *)
Definition number_text (n : nat) : jsstring :=
  of_string (NilZero.string_of_uint (Nat.to_uint n)).

Definition LF : code_unit := 10%N.
Definition AMP : code_unit := 38%N.
Definition LT : code_unit := 60%N.
Definition GT : code_unit := 62%N.
Definition NBSP : code_unit := 160%N.
Definition LBRACE : code_unit := 123%N.

End JsString.

Import JsString.

(** ** Regular expressions

    The fragment of ECMAScript patterns that the source uses: a sequence
    of one-character matchers, greedy stars of one-character matchers and
    the word-boundary assertion, run by the backtracking matcher of the
    language definition. *)

Module Regex.

Inductive item :=
| One (p : code_unit -> bool)      (* a character or a class escape *)
| Star (p : code_unit -> bool)     (* greedy [p*] *)
| WordBoundary.                    (* [\b] *)

Definition regex := list item.

Definition lit (c : code_unit) : item := One (N.eqb c).
Definition lits (w : jsstring) : regex := map lit w.

Definition is_word_opt (c : option code_unit) : bool :=
  match c with Some x => is_word_char x | None => false end.

(** [match_items r prev s]: match [r] at the start of [s], [prev] being
    the character before it (for [\b]); the number of characters the
    match consumed.  A star first tries one more repetition and falls
    back to the rest of the pattern when that fails. *)
Fixpoint match_items (r : regex) : option code_unit -> jsstring -> option nat :=
  match r with
  | [] => fun _ _ => Some 0
  | WordBoundary :: r' => fun prev s =>
      if xorb (is_word_opt prev) (is_word_opt (hd_error s))
      then match_items r' prev s else None
  | One p :: r' => fun _ s =>
      match s with
      | c :: s' => if p c then option_map S (match_items r' (Some c) s') else None
      | [] => None
      end
  | Star p :: r' =>
      fix star (prev : option code_unit) (s : jsstring) : option nat :=
        match s with
        | c :: s' =>
            if p c then
              match star (Some c) s' with
              | Some n => Some (S n)
              | None => match_items r' prev s
              end
            else match_items r' prev s
        | [] => match_items r' prev s
        end
  end.

(** The matches that [String.prototype.match] collects for a global
    pattern: the pattern is tried at [lastIndex]; a failure moves on by
    one character, a match sets [lastIndex] to its end (an empty match
    moves on by one).  [skip] is [lastIndex] minus the current position. *)
Fixpoint match_all (r : regex) (prev : option code_unit) (s : jsstring)
         (skip : nat) : list jsstring :=
  match s with
  | [] =>
      match skip with
      | 0 => match match_items r prev [] with
             | Some n => [firstn n []]
             | None => []
             end
      | S _ => []
      end
  | c :: s' =>
      match skip with
      | S k => match_all r (Some c) s' k
      | 0 => match match_items r prev s with
             | Some n => firstn n s :: match_all r (Some c) s' (pred n)
             | None => match_all r (Some c) s' 0
             end
      end
  end.

(** [str.match(/.../g)]: [null] when nothing matches. *)
Definition string_match (r : regex) (s : jsstring) : option (list jsstring) :=
  match match_all r None s 0 with
  | [] => None
  | m :: ms => Some (m :: ms)
  end.

End Regex.

(** ** The DOM operations behind [escapeHtml] *)

Module Dom.

(** The children of a freshly created element. *)
Inductive node := Text (data : jsstring).

(** The [textContent] setter replaces the children by one text node,
    or by nothing when the string is empty. *)
Definition set_textContent (text : jsstring) : list node :=
  match text with
  | [] => []
  | _ :: _ => [Text text]
  end.

(** Replace every occurrence of one character by a string. *)
Definition replace_all (c : code_unit) (by_ : jsstring) (s : jsstring) : jsstring :=
  flat_map (fun x => if (x =? c)%N then by_ else [x]) s.

(** "Escaping a string" of the HTML fragment serialisation algorithm,
    outside attribute mode: four replacements, one after the other. *)
Definition escape_string (s : jsstring) : jsstring :=
  let s1 := replace_all AMP (of_string "&amp;") s in
  let s2 := replace_all NBSP (of_string "&nbsp;") s1 in
  let s3 := replace_all LT (of_string "&lt;") s2 in
  replace_all GT (of_string "&gt;") s3.

(** The [innerHTML] getter of a [div]: the serialisation of its children. *)
Definition serialize_node (n : node) : jsstring :=
  match n with Text data => escape_string data end.

Definition get_innerHTML (children : list node) : jsstring :=
  flat_map serialize_node children.

End Dom.

(** ** HTTP requests and the [apiRequest] helper *)

Module Http.

Definition headers := list (jsstring * jsstring).

(** The object whose [JSON.stringify] is sent as a body. *)
Definition json_object := list (jsstring * jsstring).

(** The [options] argument of [apiRequest] and the [init] argument of
    [fetch]: every property may be absent. *)
Record options := {
  opt_method : option jsstring;
  opt_body : option json_object;
  opt_headers : option headers
}.

Definition no_options : options :=
  {| opt_method := None; opt_body := None; opt_headers := None |}.

(** What [fetch] puts on the wire. *)
Record request := {
  req_method : jsstring;
  req_url : jsstring;
  req_body : option json_object;
  req_headers : headers
}.

Definition or_else {A} (a b : option A) : option A :=
  match a with Some _ => a | None => b end.

(** Object spread [{ ...a, ...b }]: the properties of [b] win. *)
Definition spread (a b : options) : options :=
  {| opt_method := or_else (opt_method b) (opt_method a);
     opt_body := or_else (opt_body b) (opt_body a);
     opt_headers := or_else (opt_headers b) (opt_headers a) |}.

(** [fetch(url, init)]: the method defaults to GET. *)
Definition fetch (url : jsstring) (init : options) : request :=
  {| req_method := match opt_method init with
                   | Some m => m
                   | None => of_string "GET"
                   end;
     req_url := url;
     req_body := opt_body init;
     req_headers := match opt_headers init with Some h => h | None => [] end |}.

Definition API_BASE_URL : jsstring := of_string "http://localhost:8000/api/v1".

Definition defaultOptions : options :=
  {| opt_method := None;
     opt_body := None;
     opt_headers :=
       Some [(of_string "Content-Type", of_string "application/json")] |}.

(** The request that [apiRequest(endpoint, options)] sends. *)
Definition apiRequest (endpoint : jsstring) (opts : options) : request :=
  fetch (API_BASE_URL ++ endpoint) (spread defaultOptions opts).

(** What the caller of [apiRequest] gets when the promise settles: the
    parsed body, or a thrown error with its message. *)
Inductive response (A : Type) :=
| Ok (v : A)
| Err (message : jsstring).
Arguments Ok {A} v.
Arguments Err {A} message.

(** The body of [GET /sessions/{id}/status]. *)
Record status_response := {
  sr_status : jsstring;
  sr_progress : Z
}.

End Http.

Import Http.

(** ** Values shared by the pages *)

Definition MAX_POLLING_TIME : Z := 10 * 60 * 1000.
Definition POLLING_INTERVAL : Z := 2000.

Definition timer_id := positive.

(** ToBoolean of a property that holds a string or [null]. *)
Definition truthy_opt (v : option jsstring) : bool :=
  match v with Some s => truthy s | None => false end.

(** ToNumber of a property that holds a number or [null]. *)
Definition to_number (v : option Z) : Z :=
  match v with Some z => z | None => 0 end.

Definition s_pending : jsstring := of_string "pending".
Definition s_processing : jsstring := of_string "processing".
Definition s_completed : jsstring := of_string "completed".
Definition s_failed : jsstring := of_string "failed".

(** ** The analysis page *)

Module RustGreenApp.

Record state := {
  currentSessionId : option jsstring;
  pollingInterval : option timer_id;
  pollingStartTime : option Z;
  timeElapsedInterval : option timer_id;
  next_timer : timer_id          (* the browser's next interval handle *)
}.

Definition initial : state :=
  {| currentSessionId := None; pollingInterval := None;
     pollingStartTime := None; timeElapsedInterval := None;
     next_timer := 1%positive |}.

(** The code that runs when a request settles. *)
Inductive continuation :=
| ThenCreated        (* the rest of [startAnalysis] *)
| ThenStatus         (* the rest of [pollSessionStatus] *)
| ThenResults.       (* the rest of [fetchAndDisplayResults] *)

Inductive effect :=
| Fetch (r : request) (k : continuation)
| ShowMessage (message type : jsstring)
| SetInterval (id : timer_id) (period : Z)
| ClearInterval (id : timer_id)
| ShowProgressDisplay (sessionId : jsstring)
| HideProgressDisplay
| UpdateProgress (progress : Z) (status : jsstring)
| ShowLoadingButtons
| RestoreAnalysisButtons
| DisplayResults (count : nat)
| ConsoleError.

Definition createSession (code : jsstring) : request :=
  apiRequest (of_string "/sessions")
    {| opt_method := Some (of_string "POST");
       opt_body := Some [(of_string "code", code)];
       opt_headers := None |}.

Definition getSessionStatus (sessionId : jsstring) : request :=
  apiRequest (of_string "/sessions/" ++ sessionId ++ of_string "/status") no_options.

Definition getSession (sessionId : jsstring) : request :=
  apiRequest (of_string "/sessions/" ++ sessionId) no_options.

Definition stopTimeElapsedCounter (st : state) : state * list effect :=
  match timeElapsedInterval st with
  | Some id =>
      ({| currentSessionId := currentSessionId st;
          pollingInterval := pollingInterval st;
          pollingStartTime := pollingStartTime st;
          timeElapsedInterval := None;
          next_timer := next_timer st |}, [ClearInterval id])
  | None => (st, [])
  end.

Definition startTimeElapsedCounter (st : state) : state * list effect :=
  let cleared := match timeElapsedInterval st with
                 | Some id => [ClearInterval id]
                 | None => []
                 end in
  ({| currentSessionId := currentSessionId st;
      pollingInterval := pollingInterval st;
      pollingStartTime := pollingStartTime st;
      timeElapsedInterval := Some (next_timer st);
      next_timer := Pos.succ (next_timer st) |},
   cleared ++ [SetInterval (next_timer st) 1000]).

Definition stopPolling (st : state) : state * list effect :=
  let cleared := match pollingInterval st with
                 | Some id => [ClearInterval id]
                 | None => []
                 end in
  let st1 := {| currentSessionId := None;
                pollingInterval := None;
                pollingStartTime := None;
                timeElapsedInterval := timeElapsedInterval st;
                next_timer := next_timer st |} in
  let (st2, e2) := stopTimeElapsedCounter st1 in
  (st2, cleared ++ [HideProgressDisplay] ++ e2).

Definition msg_timeout : jsstring :=
  of_string "Analysis timed out after 10 minutes. Please try again.".
Definition msg_failed : jsstring :=
  of_string "Analysis failed. Please try again.".
Definition msg_empty : jsstring :=
  of_string "Please enter some Rust code to analyze.".
Definition msg_invalid_id : jsstring :=
  of_string "Cannot fetch results: invalid session ID".

(** [pollSessionStatus] up to its [await]; [now] is [Date.now()]. *)
Definition pollSessionStatus (now : Z) (st : state) : state * list effect :=
  match currentSessionId st with
  | None => (st, [])
  | Some sessionId =>
      if negb (truthy sessionId) then (st, [])
      else if (now - to_number (pollingStartTime st) >? MAX_POLLING_TIME)%Z then
        let (st1, e1) := stopPolling st in
        (st1, ShowMessage msg_timeout (of_string "error") :: e1
              ++ [RestoreAnalysisButtons])
      else (st, [Fetch (getSessionStatus sessionId) ThenStatus])
  end.

(** [fetchAndDisplayResults] up to its [await]. *)
Definition fetchAndDisplayResults (sessionId : option jsstring) : list effect :=
  if truthy_opt sessionId then
    match sessionId with
    | Some id => [Fetch (getSession id) ThenResults]
    | None => []
    end
  else [ShowMessage msg_invalid_id (of_string "error"); RestoreAnalysisButtons].

(** [pollSessionStatus] from its [await] on: the status arrived, or the
    request failed and the [catch] only logs. *)
Definition pollSessionStatus_resume (r : response status_response) (st : state)
  : state * list effect :=
  match r with
  | Err _ => (st, [ConsoleError])
  | Ok status =>
      let shown := UpdateProgress (sr_progress status) (sr_status status) in
      if JsString.eqb (sr_status status) s_completed then
        let sessionId := currentSessionId st in
        let (st1, e1) := stopPolling st in
        (st1, shown :: e1 ++ fetchAndDisplayResults sessionId)
      else if JsString.eqb (sr_status status) s_failed then
        let (st1, e1) := stopPolling st in
        (st1, shown :: e1 ++ [ShowMessage msg_failed (of_string "error");
                              RestoreAnalysisButtons])
      else (st, [shown])
  end.

(** [fetchAndDisplayResults] from its [await] on. *)
Definition fetchAndDisplayResults_resume (r : response nat) : list effect :=
  match r with
  | Ok count =>
      [DisplayResults count;
       ShowMessage (of_string "Analysis complete! Found " ++ number_text count
                    ++ of_string " safety issue"
                    ++ (if negb (Nat.eqb count 1) then of_string "s" else [])
                    ++ of_string ".")
                   (of_string "success");
       RestoreAnalysisButtons]
  | Err m =>
      [ShowMessage (of_string "Failed to fetch results: " ++ m) (of_string "error");
       RestoreAnalysisButtons]
  end.

(** [startPolling(sessionId)].  The clock is read once for the start
    time and once in the first poll; both reads are [now]. *)
Definition startPolling (now : Z) (sessionId : jsstring) (st : state)
  : state * list effect :=
  let (st1, e1) := stopPolling st in
  let st2 := {| currentSessionId := Some sessionId;
                pollingInterval := pollingInterval st1;
                pollingStartTime := Some now;
                timeElapsedInterval := timeElapsedInterval st1;
                next_timer := next_timer st1 |} in
  let (st3, e3) := pollSessionStatus now st2 in
  let st4 := {| currentSessionId := currentSessionId st3;
                pollingInterval := Some (next_timer st3);
                pollingStartTime := pollingStartTime st3;
                timeElapsedInterval := timeElapsedInterval st3;
                next_timer := Pos.succ (next_timer st3) |} in
  let (st5, e5) := startTimeElapsedCounter st4 in
  (st5, e1 ++ [ShowProgressDisplay sessionId] ++ e3
        ++ [SetInterval (next_timer st3) POLLING_INTERVAL] ++ e5).

(** [startAnalysis] up to its [await]; [value] is the text of the
    code input. *)
Definition startAnalysis (value : jsstring) (st : state) : state * list effect :=
  let code := trim value in
  if negb (truthy code) then
    (st, [ShowMessage msg_empty (of_string "warning")])
  else (st, [ShowLoadingButtons; Fetch (createSession code) ThenCreated]).

(** [startAnalysis] from its [await] on; the response carries the id of
    the new session. *)
Definition startAnalysis_resume (now : Z) (r : response jsstring) (st : state)
  : state * list effect :=
  match r with
  | Ok id =>
      let st1 := {| currentSessionId := Some id;
                    pollingInterval := pollingInterval st;
                    pollingStartTime := pollingStartTime st;
                    timeElapsedInterval := timeElapsedInterval st;
                    next_timer := next_timer st |} in
      let (st2, e2) := startPolling now id st1 in
      (st2, ShowMessage (of_string "Analysis started! Session ID: "
                         ++ firstn 8 id ++ of_string "...")
                        (of_string "success") :: e2)
  | Err m =>
      (st, [ShowMessage (of_string "Failed to start analysis: " ++ m)
                        (of_string "error");
            RestoreAnalysisButtons])
  end.

(** What the page reacts to while a session is polled. *)
Inductive event :=
| PollTick (now : Z)                          (* the interval fires *)
| StatusArrived (r : response status_response). (* a status request settles *)

(** The interval callback only runs while the interval is registered. *)
Definition handle (ev : event) (st : state) : state * list effect :=
  match ev with
  | PollTick now =>
      match pollingInterval st with
      | Some _ => pollSessionStatus now st
      | None => (st, [])
      end
  | StatusArrived r => pollSessionStatus_resume r st
  end.

Fixpoint run (evs : list event) (st : state) : state * list effect :=
  match evs with
  | [] => (st, [])
  | ev :: evs' =>
      let (st1, e1) := handle ev st in
      let (st2, e2) := run evs' st1 in
      (st2, e1 ++ e2)
  end.

(** *** What the claims about polling speak of *)

(** The requests among the effects. *)
Definition fetches (es : list effect) : list request :=
  flat_map (fun e => match e with Fetch r _ => [r] | _ => [] end) es.

(** The interval of the polling loop is registered. *)
Definition polling (st : state) : bool :=
  match pollingInterval st with Some _ => true | None => false end.

Definition timed_out (now : Z) (st : state) : bool :=
  (now - to_number (pollingStartTime st) >? MAX_POLLING_TIME)%Z.

Definition is_terminal (s : jsstring) : bool :=
  JsString.eqb s s_completed || JsString.eqb s s_failed.

(** The events at which the loop is to stop: a tick after the timeout, a
    status that is terminal. *)
Definition stops (st : state) (ev : event) : bool :=
  match ev with
  | PollTick now => timed_out now st
  | StatusArrived (Ok r) => is_terminal (sr_status r)
  | StatusArrived (Err _) => false
  end.

(** *** Code statistics and escaping *)

Definition countLines (code : jsstring) : nat :=
  length (split LF code).

(** [/\bunsafe\s*\{/g] *)
Definition unsafeRegex : Regex.regex :=
  Regex.WordBoundary :: Regex.lits (of_string "unsafe")
    ++ [Regex.Star is_white_space; Regex.lit LBRACE].

Definition countUnsafeBlocks (code : jsstring) : nat :=
  match Regex.string_match unsafeRegex code with
  | Some matches => length matches
  | None => 0
  end.

Definition escapeHtml (text : jsstring) : jsstring :=
  Dom.get_innerHTML (Dom.set_textContent text).

End RustGreenApp.

(** ** The session detail page *)

Module SessionDetailApp.

(** The body of [GET /sessions/{id}], as far as the page reads it. *)
Record session := {
  id : jsstring;
  status : jsstring;
  progress : Z;
  error_message : option jsstring;    (* [null] is [None] *)
  analyses : nat                      (* [analyses.length] *)
}.

(** The elements of the error banner; [getElementById] gives [null]
    for an element the document does not have. *)
Record element := {
  display : jsstring;
  textContent : jsstring
}.

Record page := {
  error_message_el : option element;  (* #error-message *)
  error_text_el : option element;     (* #error-text *)
  progress_display : bool             (* the four progress elements exist *)
}.

Record state := {
  sessionId : option jsstring;
  sessionData : option session;
  pollingInterval : option timer_id;
  pollingStartTime : option Z;
  timeElapsedInterval : option timer_id;
  next_timer : timer_id;
  dom : page
}.

(** The code that runs when a request settles. *)
Inductive continuation :=
| ThenStatus         (* the rest of [pollSessionStatus] *)
| ThenSession.       (* the callbacks of [loadSessionData] *)

Inductive effect :=
| Fetch (r : request) (k : continuation)
| ShowMessage (message type : jsstring)
| ShowError (message : jsstring)
| SetInterval (id : timer_id) (period : Z)
| ClearInterval (id : timer_id)
| ShowLoadingState
| UpdateMetadata (s : session)
| UpdateResultsSummary (count : nat)
| ShowProgress (s : session)
| HideProgress
| RenderFindings (count : nat)
| UpdateActionButtons (s : session)
| UpdateProgressBar (r : status_response)
| ConsoleError.

Definition set_display (d : jsstring) (e : element) : element :=
  {| display := d; textContent := textContent e |}.

Definition set_textContent (t : jsstring) (e : element) : element :=
  {| display := display e; textContent := t |}.

Definition updateErrorMessage (s : session) (pg : page) : page :=
  match error_message_el pg, error_text_el pg with
  | Some errorMessageEl, Some errorTextEl =>
      match error_message s with
      | Some message =>
          if truthy message && JsString.eqb (status s) s_failed then
            {| error_message_el := Some (set_display (of_string "block") errorMessageEl);
               error_text_el := Some (set_textContent message errorTextEl);
               progress_display := progress_display pg |}
          else
            {| error_message_el := Some (set_display (of_string "none") errorMessageEl);
               error_text_el := Some errorTextEl;
               progress_display := progress_display pg |}
      | None =>
          {| error_message_el := Some (set_display (of_string "none") errorMessageEl);
             error_text_el := Some errorTextEl;
             progress_display := progress_display pg |}
      end
  | _, _ => pg
  end.

Definition with_timer (t : option timer_id) (n : timer_id) (st : state) : state :=
  {| sessionId := sessionId st; sessionData := sessionData st;
     pollingInterval := pollingInterval st;
     pollingStartTime := pollingStartTime st;
     timeElapsedInterval := t; next_timer := n; dom := dom st |}.

Definition with_polling (i : option timer_id) (t : option Z) (n : timer_id)
           (st : state) : state :=
  {| sessionId := sessionId st; sessionData := sessionData st;
     pollingInterval := i; pollingStartTime := t;
     timeElapsedInterval := timeElapsedInterval st;
     next_timer := n; dom := dom st |}.

Definition startTimeElapsedCounter (st : state) : state * list effect :=
  let cleared := match timeElapsedInterval st with
                 | Some t => [ClearInterval t]
                 | None => []
                 end in
  (with_timer (Some (next_timer st)) (Pos.succ (next_timer st)) st,
   cleared ++ [SetInterval (next_timer st) 1000]).

Definition stopTimeElapsedCounter (st : state) : state * list effect :=
  match timeElapsedInterval st with
  | Some t => (with_timer None (next_timer st) st, [ClearInterval t])
  | None => (st, [])
  end.

Definition in_progress (s : jsstring) : bool :=
  JsString.eqb s s_processing || JsString.eqb s s_pending.

Definition updateProgressDisplay (s : session) (st : state) : state * list effect :=
  if progress_display (dom st) then
    if in_progress (status s) then
      match timeElapsedInterval st with
      | None =>
          let (st1, e1) := startTimeElapsedCounter st in
          (st1, ShowProgress s :: e1)
      | Some _ => (st, [ShowProgress s])
      end
    else
      let (st1, e1) := stopTimeElapsedCounter st in
      (st1, HideProgress :: e1)
  else (st, []).

Definition renderSessionData (st : state) : state * list effect :=
  match sessionData st with
  | None => (st, [])
  | Some s =>
      let st1 := {| sessionId := sessionId st; sessionData := sessionData st;
                    pollingInterval := pollingInterval st;
                    pollingStartTime := pollingStartTime st;
                    timeElapsedInterval := timeElapsedInterval st;
                    next_timer := next_timer st;
                    dom := updateErrorMessage s (dom st) |} in
      let (st2, e2) := updateProgressDisplay s st1 in
      (st2, [UpdateMetadata s; UpdateResultsSummary (analyses s)] ++ e2
            ++ [RenderFindings (analyses s); UpdateActionButtons s])
  end.

(** A [null] in a template literal prints as "null". *)
Definition id_text (v : option jsstring) : jsstring :=
  match v with Some s => s | None => of_string "null" end.

Definition session_request (st : state) : request :=
  apiRequest (of_string "/sessions/" ++ id_text (sessionId st)) no_options.

Definition status_request (st : state) : request :=
  apiRequest (of_string "/sessions/" ++ id_text (sessionId st)
              ++ of_string "/status") no_options.

Definition delete_request (st : state) : request :=
  apiRequest (of_string "/sessions/" ++ id_text (sessionId st))
    {| opt_method := Some (of_string "DELETE"); opt_body := None;
       opt_headers := None |}.

(** [loadSessionData] up to the settling of its request. *)
Definition loadSessionData (st : state) : state * list effect :=
  (st, [ShowLoadingState; Fetch (session_request st) ThenSession]).

Definition stopPolling (st : state) : state * list effect :=
  (with_polling None None (next_timer st) st,
   match pollingInterval st with
   | Some i => [ClearInterval i]
   | None => []
   end).

Definition msg_timeout : jsstring :=
  of_string "Session polling timed out after 10 minutes.".

(** [pollSessionStatus] up to its [await]. *)
Definition pollSessionStatus (now : Z) (st : state) : state * list effect :=
  if negb (truthy_opt (sessionId st)) then (st, [])
  else if (now - to_number (pollingStartTime st) >? MAX_POLLING_TIME)%Z then
    let (st1, e1) := stopPolling st in
    (st1, ShowMessage msg_timeout (of_string "error") :: e1)
  else (st, [Fetch (status_request st) ThenStatus]).

Definition startPolling (now : Z) (st : state) : state * list effect :=
  let (st1, e1) := stopPolling st in
  let st2 := with_polling (pollingInterval st1) (Some now) (next_timer st1) st1 in
  let (st3, e3) := pollSessionStatus now st2 in
  (with_polling (Some (next_timer st3)) (pollingStartTime st3)
                (Pos.succ (next_timer st3)) st3,
   e1 ++ e3 ++ [SetInterval (next_timer st3) POLLING_INTERVAL]).

(** The [then] and [catch] callbacks of [loadSessionData]. *)
Definition loadSessionData_resume (now : Z) (r : response session) (st : state)
  : state * list effect :=
  match r with
  | Ok s =>
      let st1 := {| sessionId := sessionId st; sessionData := Some s;
                    pollingInterval := pollingInterval st;
                    pollingStartTime := pollingStartTime st;
                    timeElapsedInterval := timeElapsedInterval st;
                    next_timer := next_timer st; dom := dom st |} in
      let (st2, e2) := renderSessionData st1 in
      if in_progress (status s) then
        let (st3, e3) := startPolling now st2 in
        (st3, e2 ++ e3)
      else (st2, e2)
  | Err m =>
      (st, [ConsoleError;
            ShowError (of_string "Failed to load session data: " ++ m)])
  end.

Definition updateProgressFromStatus (r : status_response) (st : state)
  : state * list effect :=
  match sessionData st with
  | Some s =>
      let s' := {| id := id s; status := sr_status r; progress := sr_progress r;
                   error_message := error_message s; analyses := analyses s |} in
      ({| sessionId := sessionId st; sessionData := Some s';
          pollingInterval := pollingInterval st;
          pollingStartTime := pollingStartTime st;
          timeElapsedInterval := timeElapsedInterval st;
          next_timer := next_timer st; dom := dom st |},
       [UpdateProgressBar r; UpdateMetadata s'])
  | None => (st, [UpdateProgressBar r])
  end.

Definition is_terminal (s : jsstring) : bool :=
  JsString.eqb s s_completed || JsString.eqb s s_failed.

(** [pollSessionStatus] from its [await] on. *)
Definition pollSessionStatus_resume (r : response status_response) (st : state)
  : state * list effect :=
  match r with
  | Ok status =>
      let (st1, e1) := updateProgressFromStatus status st in
      if is_terminal (sr_status status) then
        let (st2, e2) := stopPolling st1 in
        let (st3, e3) := loadSessionData st2 in
        (st3, e1 ++ e2 ++ e3)
      else (st1, e1)
  | Err _ => (st, [ConsoleError])
  end.

(** [init]: [id] is the [id] parameter of the page's URL. *)
Definition init (url_id : option jsstring) (pg : page) : state * list effect :=
  let st := {| sessionId := url_id; sessionData := None;
               pollingInterval := None; pollingStartTime := None;
               timeElapsedInterval := None; next_timer := 1%positive;
               dom := pg |} in
  if negb (truthy_opt url_id) then
    (st, [ShowError (of_string "No session ID provided in URL")])
  else loadSessionData st.

Inductive event :=
| PollTick (now : Z)
| StatusArrived (r : response status_response)
| SessionArrived (now : Z) (r : response session).

Definition handle (ev : event) (st : state) : state * list effect :=
  match ev with
  | PollTick now =>
      match pollingInterval st with
      | Some _ => pollSessionStatus now st
      | None => (st, [])
      end
  | StatusArrived r => pollSessionStatus_resume r st
  | SessionArrived now r => loadSessionData_resume now r st
  end.

Fixpoint run (evs : list event) (st : state) : state * list effect :=
  match evs with
  | [] => (st, [])
  | ev :: evs' =>
      let (st1, e1) := handle ev st in
      let (st2, e2) := run evs' st1 in
      (st2, e1 ++ e2)
  end.

(** *** What the claims about polling speak of *)

Definition fetches (es : list effect) : list request :=
  flat_map (fun e => match e with Fetch r _ => [r] | _ => [] end) es.

Definition polling (st : state) : bool :=
  match pollingInterval st with Some _ => true | None => false end.

Definition timed_out (now : Z) (st : state) : bool :=
  (now - to_number (pollingStartTime st) >? MAX_POLLING_TIME)%Z.

(** The fields that the loop reads. *)
Definition same_loop (st st' : state) : Prop :=
  sessionId st' = sessionId st
  /\ pollingInterval st' = pollingInterval st
  /\ pollingStartTime st' = pollingStartTime st.

(** The events of the polling loop, and those at which it is to stop. *)
Definition loop_event (ev : event) : bool :=
  match ev with
  | SessionArrived _ _ => false
  | _ => true
  end.

Definition stops (st : state) (ev : event) : bool :=
  match ev with
  | PollTick now => timed_out now st
  | StatusArrived (Ok r) => is_terminal (sr_status r)
  | _ => false
  end.

Definition escapeHtml (text : jsstring) : jsstring :=
  Dom.get_innerHTML (Dom.set_textContent text).

End SessionDetailApp.

(** ** The sessions browser *)

Module SessionsApp.

Definition SESSIONS_PER_PAGE : Z := 10.

(** An entry of [GET /sessions].  [created_at] is the time value of
    [new Date(session.created_at)], [None] for an invalid date (NaN). *)
Record session := {
  id : jsstring;
  status : jsstring;
  created_at : option Z;
  progress : Z;
  analysis_count : Z;
  error_message : option jsstring
}.

(** What [#sessions-list] shows. *)
Inductive view :=
| Loading
| Items (sessions : list session)
| NoSessionsFound
| ErrorMessage
| Blank.

Record state := {
  currentPage : Z;
  totalPages : Z;
  totalSessions : Z;
  allSessions : list session;
  filteredSessions : list session;
  currentFilter : jsstring;
  currentSort : jsstring;
  sessionsList : option view      (* [None]: the document has no such element *)
}.

(** The object literal of the source; the element is looked up on use. *)
Definition initial (list_element : bool) : state :=
  {| currentPage := 1; totalPages := 1; totalSessions := 0;
     allSessions := []; filteredSessions := [];
     currentFilter := of_string "all"; currentSort := of_string "newest";
     sessionsList := if list_element then Some Blank else None |}.

(** [Array.prototype.slice(start, end)] *)
Definition relative_index (len i : Z) : Z :=
  if (i <? 0)%Z then Z.max (len + i) 0 else Z.min i len.

Definition slice {A} (l : list A) (start stop : Z) : list A :=
  let len := Z.of_nat (length l) in
  let k := relative_index len start in
  let final := relative_index len stop in
  firstn (Z.to_nat (final - k)) (skipn (Z.to_nat k) l).

(** [Math.ceil(n / d)] for integers [n] and [d > 0]. *)
Definition ceil_div (n d : Z) : Z := (- ((- n) / d))%Z.

(** [Array.prototype.sort(comparefn)].  For a comparator that is
    consistent on the list the result is the one stable sorted
    arrangement, which an insertion sort computes.  For a comparator that
    returns NaN on some pair ECMAScript leaves the order to the engine:
    there the model fixes the order of an insertion sort that reads NaN
    as [0], and only what does not depend on the order (the elements, the
    length) is to be read off it. *)
Section Sort.
Variable comparefn : session -> session -> option Z.

Definition sort_compare (a b : session) : Z :=
  match comparefn a b with Some v => v | None => 0%Z end.

Fixpoint insert (x : session) (l : list session) : list session :=
  match l with
  | [] => [x]
  | y :: l' =>
      if (sort_compare x y <=? 0)%Z then x :: l else y :: insert x l'
  end.

Definition sort (l : list session) : list session := fold_right insert [] l.
End Sort.

(** Subtraction of two numbers either of which may be NaN. *)
Definition minus (a b : option Z) : option Z :=
  match a, b with
  | Some x, Some y => Some (x - y)%Z
  | _, _ => None
  end.

(** The [statusOrder] table; a missing key is [undefined]. *)
Definition statusOrder (s : jsstring) : option Z :=
  if JsString.eqb s s_processing then Some 0%Z
  else if JsString.eqb s s_pending then Some 1%Z
  else if JsString.eqb s s_completed then Some 2%Z
  else if JsString.eqb s s_failed then Some 3%Z
  else None.

Section App.

(** [String.prototype.toLowerCase]: the Unicode case mapping of the
    platform, which the page applies to the status of a session. *)
Variable toLowerCase : jsstring -> jsstring.

Definition pageSessions (st : state) : list session :=
  let startIndex := ((currentPage st - 1) * SESSIONS_PER_PAGE)%Z in
  let endIndex := Z.min (startIndex + SESSIONS_PER_PAGE)
                        (Z.of_nat (length (filteredSessions st))) in
  slice (filteredSessions st) startIndex endIndex.

Definition set_view (v : option view) (st : state) : state :=
  {| currentPage := currentPage st; totalPages := totalPages st;
     totalSessions := totalSessions st; allSessions := allSessions st;
     filteredSessions := filteredSessions st;
     currentFilter := currentFilter st; currentSort := currentSort st;
     sessionsList := v |}.

Definition renderSessions (st : state) : state :=
  match sessionsList st with
  | None => st
  | Some _ =>
      match pageSessions st with
      | [] => set_view (Some NoSessionsFound) st
      | s :: l => set_view (Some (Items (s :: l))) st
      end
  end.

Definition updatePagination (st : state) : state :=
  let total := Z.of_nat (length (filteredSessions st)) in
  let pages := ceil_div total SESSIONS_PER_PAGE in
  {| currentPage := currentPage st;
     totalPages := if (pages =? 0)%Z then 1%Z else pages;
     totalSessions := total; allSessions := allSessions st;
     filteredSessions := filteredSessions st;
     currentFilter := currentFilter st; currentSort := currentSort st;
     sessionsList := sessionsList st |}.

Definition set_filtered (l : list session) (st : state) : state :=
  {| currentPage := currentPage st; totalPages := totalPages st;
     totalSessions := totalSessions st; allSessions := allSessions st;
     filteredSessions := l;
     currentFilter := currentFilter st; currentSort := currentSort st;
     sessionsList := sessionsList st |}.

Definition applySorting (st : state) : state :=
  let sorted :=
    if JsString.eqb (currentSort st) (of_string "newest") then
      sort (fun a b => minus (created_at b) (created_at a)) (filteredSessions st)
    else if JsString.eqb (currentSort st) (of_string "oldest") then
      sort (fun a b => minus (created_at a) (created_at b)) (filteredSessions st)
    else if JsString.eqb (currentSort st) (of_string "status") then
      sort (fun a b => minus (statusOrder (status a)) (statusOrder (status b)))
           (filteredSessions st)
    else filteredSessions st in
  renderSessions (updatePagination (set_filtered sorted st)).

Definition applyFilters (st : state) : state :=
  let filtered :=
    if JsString.eqb (currentFilter st) (of_string "all") then allSessions st
    else filter (fun s => JsString.eqb (toLowerCase (status s)) (currentFilter st))
                (allSessions st) in
  applySorting
    {| currentPage := 1; totalPages := totalPages st;
       totalSessions := totalSessions st; allSessions := allSessions st;
       filteredSessions := filtered;
       currentFilter := currentFilter st; currentSort := currentSort st;
       sessionsList := sessionsList st |}.

(** [loadSessions] up to the settling of its request. *)
Definition loadSessions (st : state) : state :=
  match sessionsList st with
  | Some _ => set_view (Some Loading) st
  | None => st
  end.

(** The [then] and [catch] callbacks of [loadSessions]. *)
Definition loadSessions_resume (r : response (list session)) (st : state) : state :=
  match r with
  | Ok sessions =>
      let st1 := {| currentPage := currentPage st; totalPages := totalPages st;
                    totalSessions := totalSessions st; allSessions := sessions;
                    filteredSessions := sessions;
                    currentFilter := currentFilter st;
                    currentSort := currentSort st;
                    sessionsList := sessionsList st |} in
      let st2 := renderSessions (updatePagination (applySorting (applyFilters st1))) in
      match sessions, sessionsList st2 with
      | [], Some _ => set_view (Some Blank) st2
      | _, _ => st2
      end
  | Err _ =>
      match sessionsList st with
      | Some _ => set_view (Some ErrorMessage) st
      | None => st
      end
  end.

Definition set_page (p : Z) (st : state) : state :=
  {| currentPage := p; totalPages := totalPages st;
     totalSessions := totalSessions st; allSessions := allSessions st;
     filteredSessions := filteredSessions st;
     currentFilter := currentFilter st; currentSort := currentSort st;
     sessionsList := sessionsList st |}.

Definition set_filter (v : jsstring) (st : state) : state :=
  {| currentPage := currentPage st; totalPages := totalPages st;
     totalSessions := totalSessions st; allSessions := allSessions st;
     filteredSessions := filteredSessions st;
     currentFilter := v; currentSort := currentSort st;
     sessionsList := sessionsList st |}.

Definition set_sort (v : jsstring) (st : state) : state :=
  {| currentPage := currentPage st; totalPages := totalPages st;
     totalSessions := totalSessions st; allSessions := allSessions st;
     filteredSessions := filteredSessions st;
     currentFilter := currentFilter st; currentSort := v;
     sessionsList := sessionsList st |}.

(** The listeners of [initEventListeners] and the settling of the
    request of [loadSessions]. *)
Inductive event :=
| FilterChange (value : jsstring)
| SortChange (value : jsstring)
| RefreshClick
| SessionsArrived (r : response (list session))
| PrevPage
| NextPage.

Definition handle (ev : event) (st : state) : state :=
  match ev with
  | FilterChange v => applyFilters (set_filter v st)
  | SortChange v => applySorting (set_sort v st)
  | RefreshClick => loadSessions st
  | SessionsArrived r => loadSessions_resume r st
  | PrevPage =>
      if (currentPage st >? 1)%Z
      then renderSessions (set_page (currentPage st - 1) st) else st
  | NextPage =>
      if (currentPage st <? totalPages st)%Z
      then renderSessions (set_page (currentPage st + 1) st) else st
  end.

(** [init]: the listeners are installed and the first load starts. *)
Definition init (list_element : bool) : state :=
  loadSessions (initial list_element).

Definition run (evs : list event) (st : state) : state :=
  fold_left (fun s ev => handle ev s) evs st.

End App.

Definition escapeHtml (text : jsstring) : jsstring :=
  Dom.get_innerHTML (Dom.set_textContent text).

End SessionsApp.

(** ** The session manager and the worker

    The back end is not part of the sources (they hold its task list
    only); its session state machine and its progress report are taken
    from the design document. *)

Module Server.

(** Modelled from the spec: the status enumeration of a session. *)
Inductive status := PENDING | PROCESSING | COMPLETED | FAILED.

(** Modelled from the spec: the errors of the session manager. *)
Inductive error := ValidationError | NotFoundError | InvalidTransitionError.

(** Modelled from the spec: the Session record of the data model,
    with the worker's count of code blocks. *)
Record session := {
  status_of : status;
  progress : Z;
  error_message : option jsstring;
  totalBlocks : nat;
  blocksCompleted : nat
}.

(** Modelled from the spec: the terminal states. *)
Definition is_terminal (s : status) : bool :=
  match s with COMPLETED | FAILED => true | _ => false end.

(** Modelled from the spec: the state machine that [Transition]
    enforces: PENDING to PROCESSING, PROCESSING to COMPLETED or FAILED,
    nothing else. *)
Definition allowed (from to : status) : bool :=
  match from, to with
  | PENDING, PROCESSING => true
  | PROCESSING, COMPLETED => true
  | PROCESSING, FAILED => true
  | _, _ => false
  end.

(** Modelled from the spec: [Transition(id, newStatus, errorMessage?)];
    the error message is set only on FAILED. *)
Definition Transition (newStatus : status) (errorMessage : option jsstring)
           (s : session) : session + error :=
  if allowed (status_of s) newStatus then
    inl {| status_of := newStatus; progress := progress s;
           error_message := match newStatus with
                            | FAILED => errorMessage
                            | _ => error_message s
                            end;
           totalBlocks := totalBlocks s;
           blocksCompleted := blocksCompleted s |}
  else inr InvalidTransitionError.

(** Modelled from the spec: [UpdateProgress(id, progress)]. *)
Definition UpdateProgress (p : Z) (s : session) : session :=
  {| status_of := status_of s; progress := p;
     error_message := error_message s;
     totalBlocks := totalBlocks s; blocksCompleted := blocksCompleted s |}.

(** Modelled from the spec: a new session is PENDING with progress 0. *)
Definition created : session :=
  {| status_of := PENDING; progress := 0; error_message := None;
     totalBlocks := 0; blocksCompleted := 0 |}.

(** Modelled from the spec: the [round] of the progress formula, to
    the nearest integer, a half going up, for a non-negative quotient. *)
Definition round_div (a b : Z) : Z := ((2 * a + b) / (2 * b))%Z.

(** Modelled from the spec: the progress the worker reports after a
    block, [round(100 * blocksCompleted / totalBlocks)]. *)
Definition progress_after (completed total : nat) : Z :=
  round_div (100 * Z.of_nat completed) (Z.of_nat total).

(** Modelled from the spec: what the worker does to a session. *)
Inductive worker_event :=
| PickUp (blocks : nat)                 (* dequeued; extraction found [blocks] blocks *)
| BlockFinished                          (* the stages of the next block are done *)
| BlockFailed (message : jsstring).      (* a stage ran out of retries *)

(** Modelled from the spec: a failed [Transition] is defensive only. *)
Definition or_unchanged (s : session) (r : session + error) : session :=
  match r with inl s' => s' | inr _ => s end.

(** Modelled from the spec: the worker of section 4.3.  A transition
    that the state machine refuses leaves the session as it was. *)
Definition worker_step (ev : worker_event) (s : session) : session :=
  match ev with
  | PickUp blocks =>
      match Transition PROCESSING None s with
      | inl s1 =>
          let s2 := {| status_of := status_of s1; progress := progress s1;
                       error_message := error_message s1;
                       totalBlocks := blocks; blocksCompleted := 0 |} in
          match blocks with
          | O => or_unchanged s2 (Transition COMPLETED None (UpdateProgress 100 s2))
          | S _ => s2
          end
      | inr _ => s
      end
  | BlockFinished =>
      match status_of s with
      | PROCESSING =>
          if Nat.ltb (blocksCompleted s) (totalBlocks s) then
            let completed := S (blocksCompleted s) in
            let s1 := {| status_of := status_of s;
                         progress := progress_after completed (totalBlocks s);
                         error_message := error_message s;
                         totalBlocks := totalBlocks s;
                         blocksCompleted := completed |} in
            if Nat.eqb completed (totalBlocks s)
            then or_unchanged s1 (Transition COMPLETED None s1)
            else s1
          else s
      | _ => s
      end
  | BlockFailed message => or_unchanged s (Transition FAILED (Some message) s)
  end.

(** Modelled from the spec: the status as the API prints it
    ([status: "pending"] in the answer to a submission). *)
Definition wire (s : status) : jsstring :=
  match s with
  | PENDING => s_pending
  | PROCESSING => s_processing
  | COMPLETED => s_completed
  | FAILED => s_failed
  end.

(** Modelled from the spec: [GET status(id)] and [GET session(id)]
    return what the session holds and change nothing. *)
Definition status_body (s : session) : status_response :=
  {| sr_status := wire (status_of s); sr_progress := progress s |}.

(** Modelled from the spec: the body of [GET session(id)]. *)
Definition session_body (sid : jsstring) (s : session) : SessionDetailApp.session :=
  {| SessionDetailApp.id := sid;
     SessionDetailApp.status := wire (status_of s);
     SessionDetailApp.progress := progress s;
     SessionDetailApp.error_message := error_message s;
     SessionDetailApp.analyses := blocksCompleted s |}.

(** A session's life with the polls of a client in between. *)
Inductive action :=
| Work (ev : worker_event)
| Poll.

(** The progress values that the polls of a schedule return. *)
Fixpoint polled (schedule : list action) (s : session) : list Z :=
  match schedule with
  | [] => []
  | Work ev :: rest => polled rest (worker_step ev s)
  | Poll :: rest => sr_progress (status_body s) :: polled rest s
  end.

(** What the worker keeps true of a session (for the proofs). *)
Definition consistent (s : session) : Prop :=
  (0 <= progress s <= 100)%Z
  /\ match status_of s with
     | PENDING => progress s = 0%Z
     | PROCESSING =>
         blocksCompleted s < totalBlocks s
         /\ progress s = progress_after (blocksCompleted s) (totalBlocks s)
     | COMPLETED => progress s = 100%Z
     | FAILED => True
     end.

End Server.

(** ** The detail page, the server and the requests between them

    One session, the page that shows it, and the requests that are on
    their way: a request is answered with what the session holds at the
    moment the server handles it, answers arrive in any order, and the
    interval fires while it is registered. *)

Module System.

Import SessionDetailApp.

Inductive message :=
| StatusPending
| SessionPending
| StatusSettled (r : response status_response)
| SessionSettled (r : response session).

Record system := {
  server : Server.session;
  client : state;
  network : list message;
  observed_terminal : bool   (* a poll has returned 'completed' or 'failed' *)
}.

Definition sent (e : effect) : list message :=
  match e with
  | Fetch _ ThenStatus => [StatusPending]
  | Fetch _ ThenSession => [SessionPending]
  | _ => []
  end.

Definition outgoing (es : list effect) : list message := flat_map sent es.

Definition start (sid : option jsstring) (pg : page) (s : Server.session) : system :=
  {| server := s;
     client := fst (init sid pg);
     network := outgoing (snd (init sid pg));
     observed_terminal := false |}.

Definition observes (r : response status_response) : bool :=
  match r with
  | Ok status => is_terminal (sr_status status)
  | Err _ => false
  end.

Definition deliver (ev : event) (rest : list message) (seen : bool)
           (sys : system) : system :=
  {| server := server sys;
     client := fst (handle ev (client sys));
     network := rest ++ outgoing (snd (handle ev (client sys)));
     observed_terminal := observed_terminal sys || seen |}.

Definition with_network (l : list message) (sys : system) : system :=
  {| server := server sys; client := client sys; network := l;
     observed_terminal := observed_terminal sys |}.

Inductive step (sid : jsstring) : system -> system -> Prop :=
| step_work : forall ev sys,
    step sid sys {| server := Server.worker_step ev (server sys);
                    client := client sys; network := network sys;
                    observed_terminal := observed_terminal sys |}
| step_answer_status : forall l1 l2 sys,
    network sys = l1 ++ StatusPending :: l2 ->
    step sid sys
      (with_network
         (l1 ++ StatusSettled (Ok (Server.status_body (server sys))) :: l2) sys)
| step_answer_session : forall l1 l2 sys,
    network sys = l1 ++ SessionPending :: l2 ->
    step sid sys
      (with_network
         (l1 ++ SessionSettled (Ok (Server.session_body sid (server sys))) :: l2) sys)
| step_fail_status : forall l1 l2 m sys,
    network sys = l1 ++ StatusPending :: l2 ->
    step sid sys (with_network (l1 ++ StatusSettled (Err m) :: l2) sys)
| step_fail_session : forall l1 l2 m sys,
    network sys = l1 ++ SessionPending :: l2 ->
    step sid sys (with_network (l1 ++ SessionSettled (Err m) :: l2) sys)
| step_deliver_status : forall l1 l2 r sys,
    network sys = l1 ++ StatusSettled r :: l2 ->
    step sid sys (deliver (StatusArrived r) (l1 ++ l2) (observes r) sys)
| step_deliver_session : forall l1 l2 now r sys,
    network sys = l1 ++ SessionSettled r :: l2 ->
    step sid sys (deliver (SessionArrived now r) (l1 ++ l2) false sys)
| step_tick : forall now sys,
    pollingInterval (client sys) <> None ->
    step sid sys (deliver (PollTick now) (network sys) false sys).

Inductive reachable (sid : jsstring) (pg : page) (s0 : Server.session)
  : system -> Prop :=
| reach_start : reachable sid pg s0 (start (Some sid) pg s0)
| reach_step : forall sys sys',
    reachable sid pg s0 sys -> step sid sys sys' -> reachable sid pg s0 sys'.

(** *** What the claim about terminal states speaks of *)

Definition server_terminal (sys : system) : bool :=
  Server.is_terminal (Server.status_of (server sys)).

(** A message that makes [loadSessionData] start the loop when it
    arrives: an answer that says 'processing' or 'pending', or a request
    that the server has yet to answer while the session is running. *)
Definition stale (terminal : bool) (m : message) : bool :=
  match m with
  | SessionPending => negb terminal
  | SessionSettled (Ok s) => in_progress (status s)
  | _ => false
  end.

(** What holds in every state of the system. *)
Definition invariant (sys : system) : Prop :=
  (observed_terminal sys = true -> server_terminal sys = true)
  /\ (observed_terminal sys = true -> pollingInterval (client sys) = None)
  /\ (forall r, In (StatusSettled (Ok r)) (network sys) ->
                is_terminal (sr_status r) = true -> server_terminal sys = true)
  /\ (forall m, In m (network sys) -> stale (server_terminal sys) m = true ->
                network sys = [m]
                /\ pollingInterval (client sys) = None
                /\ observed_terminal sys = false).

End System.

(** ** The statements of the specification, as functions

    These follow the wording of the specification, not the code; the
    theorems of the second part compare the two. *)

Module Spec.

(** [s] with every '&', '<' and '>' replaced by its entity. *)
Definition three_entities (c : code_unit) : jsstring :=
  if (c =? AMP)%N then of_string "&amp;"
  else if (c =? LT)%N then of_string "&lt;"
  else if (c =? GT)%N then of_string "&gt;"
  else [c].

Definition replaced (table : code_unit -> jsstring) (s : jsstring) : jsstring :=
  flat_map table s.

(** The same with the no-break space as a fourth entity. *)
Definition four_entities (c : code_unit) : jsstring :=
  if (c =? NBSP)%N then of_string "&nbsp;" else three_entities c.

(** The word 'unsafe', not preceded by a word character, followed by
    optional whitespace and an opening brace, at the start of [s];
    [prev] is the character before [s]. *)
Definition unsafe_at (prev : option code_unit) (s : jsstring) : bool :=
  negb (Regex.is_word_opt prev)
  && prefix_eqb (of_string "unsafe") s
  && match dropWhile is_white_space (skipn 6 s) with
     | c :: _ => (c =? LBRACE)%N
     | [] => false
     end.

Definition char_before (code : jsstring) (i : nat) : option code_unit :=
  match i with
  | O => None
  | S j => nth_error code j
  end.

(** The pattern occurs in [code] at index [i]. *)
Definition occurs (code : jsstring) (i : nat) : bool :=
  unsafe_at (char_before code i) (skipn i code).

(** The length of the occurrence at [i]: 'unsafe', the whitespace, the brace. *)
Definition occurrence_length (code : jsstring) (i : nat) : nat :=
  7 + length (takeWhile is_white_space (skipn (i + 6) code)).

Definition occurrences (code : jsstring) : list nat :=
  filter (occurs code) (seq 0 (length code)).

(** The character before the position after the literal [w]. *)
Definition after (prev : option code_unit) (w : jsstring) : option code_unit :=
  fold_left (fun _ c => Some c) w prev.

(** The number of positions of [s] at which the pattern occurs. *)
Fixpoint count_pos (prev : option code_unit) (s : jsstring) : nat :=
  match s with
  | [] => 0
  | c :: s' => (if unsafe_at prev s then 1 else 0) + count_pos (Some c) s'
  end.

(** No occurrence at the first [k] positions of [s]. *)
Fixpoint quiet (prev : option code_unit) (s : jsstring) (k : nat) {struct k} : Prop :=
  match k with
  | O => True
  | S k' =>
      unsafe_at prev s = false
      /\ match s with
         | c :: s' => quiet (Some c) s' k'
         | [] => True
         end
  end.

(** One of the four statuses of a session, as the API prints them. *)
Definition session_status (s : jsstring) : Prop :=
  s = s_pending \/ s = s_processing \/ s = s_completed \/ s = s_failed.

Definition terminal (s : jsstring) : Prop :=
  s = s_completed \/ s = s_failed.

(** A read: a GET request without a body. *)
Definition is_read (r : request) : Prop :=
  req_method r = of_string "GET" /\ req_body r = None.

(** The claim about oversized submissions: beyond some maximum length
    the page sends no request. *)
Definition refuses_beyond (max_length : nat) : Prop :=
  forall (value : jsstring) (st : RustGreenApp.state),
    length value > max_length ->
    RustGreenApp.fetches (snd (RustGreenApp.startAnalysis value st)) = [].

(** What the error banner of the detail page shows. *)
Definition banner_display (pg : SessionDetailApp.page) : option jsstring :=
  option_map SessionDetailApp.display (SessionDetailApp.error_message_el pg).

Definition banner_text (pg : SessionDetailApp.page) : option jsstring :=
  option_map SessionDetailApp.textContent (SessionDetailApp.error_text_el pg).

(** The claim about the banner: shown exactly for a failed session with
    an error message that is not [null]. *)
Definition banner_as_claimed (s : SessionDetailApp.session)
           (pg : SessionDetailApp.page) : Prop :=
  banner_display (SessionDetailApp.updateErrorMessage s pg) = Some (of_string "block")
  <-> (SessionDetailApp.status s = s_failed
       /\ SessionDetailApp.error_message s <> None).

(** The number of pages for [n] sessions: max(1, ceil(n / 10)). *)
Definition pages (n : nat) : nat := Nat.max 1 ((n + 9) / 10).

(** The sessions of page [p] (from 1): from index [(p - 1) * 10] up to
    [min (p * 10) (length l)]. *)
Definition page_of {A} (l : list A) (p : nat) : list A :=
  firstn (Nat.min (p * 10) (length l) - (p - 1) * 10) (skipn ((p - 1) * 10) l).

(** The sessions that [#sessions-list] shows. *)
Definition shown (v : option SessionsApp.view) : list SessionsApp.session :=
  match v with
  | Some (SessionsApp.Items l) => l
  | _ => []
  end.

(** The invariant of the paging state of the sessions browser. *)
Definition paged (st : SessionsApp.state) : Prop :=
  SessionsApp.totalPages st
  = Z.of_nat (pages (length (SessionsApp.filteredSessions st)))
  /\ (1 <= SessionsApp.currentPage st <= SessionsApp.totalPages st)%Z.

(** The document has the list element. *)
Definition has_list (st : SessionsApp.state) : bool :=
  match SessionsApp.sessionsList st with Some _ => true | None => false end.

End Spec.

(** ** Sample runs *)

Module Examples.

Definition sid : jsstring := of_string "3f2a9c".

Definition processing (p : Z) : status_response :=
  {| sr_status := s_processing; sr_progress := p |}.
Definition completed : status_response :=
  {| sr_status := s_completed; sr_progress := 100 |}.
Definition failed (p : Z) : status_response :=
  {| sr_status := s_failed; sr_progress := p |}.

(** The analysis page right after [startPolling] at time 1000. *)
Definition analysis_polling : RustGreenApp.state :=
  fst (RustGreenApp.startPolling 1000 sid RustGreenApp.initial).

Definition analysis_events : list RustGreenApp.event :=
  [RustGreenApp.PollTick 3000;
   RustGreenApp.StatusArrived (Ok (processing 50));
   RustGreenApp.PollTick 5000;
   RustGreenApp.StatusArrived (Ok completed);
   RustGreenApp.PollTick 7000].

(** A detail page that has the banner and the progress elements. *)
Definition full_page : SessionDetailApp.page :=
  {| SessionDetailApp.error_message_el :=
       Some {| SessionDetailApp.display := of_string "none";
               SessionDetailApp.textContent := [] |};
     SessionDetailApp.error_text_el :=
       Some {| SessionDetailApp.display := of_string "inline";
               SessionDetailApp.textContent := [] |};
     SessionDetailApp.progress_display := true |}.

Definition running_session : SessionDetailApp.session :=
  {| SessionDetailApp.id := sid;
     SessionDetailApp.status := s_processing;
     SessionDetailApp.progress := 25;
     SessionDetailApp.error_message := None;
     SessionDetailApp.analyses := 1 |}.

Definition detail_loading : SessionDetailApp.state :=
  fst (SessionDetailApp.init (Some sid) full_page).

(** The detail page after its first load found the session running. *)
Definition detail_polling : SessionDetailApp.state :=
  fst (SessionDetailApp.loadSessionData_resume 1000 (Ok running_session) detail_loading).

Definition detail_events : list SessionDetailApp.event :=
  [SessionDetailApp.PollTick 3000;
   SessionDetailApp.StatusArrived (Ok (failed 40));
   SessionDetailApp.PollTick 5000].

(** A failed session whose error message is the empty string. *)
Definition failed_without_text : SessionDetailApp.session :=
  {| SessionDetailApp.id := sid;
     SessionDetailApp.status := s_failed;
     SessionDetailApp.progress := 40;
     SessionDetailApp.error_message := Some [];
     SessionDetailApp.analyses := 0 |}.

Definition failed_with_text : SessionDetailApp.session :=
  {| SessionDetailApp.id := sid;
     SessionDetailApp.status := s_failed;
     SessionDetailApp.progress := 40;
     SessionDetailApp.error_message := Some (of_string "detect: block 2");
     SessionDetailApp.analyses := 0 |}.

(** A session with one code block that the worker has picked up, the
    detail page opened on it, and the run in which the page sees it
    running, polls, and then sees it completed. *)
Definition picked_up : Server.session :=
  Server.worker_step (Server.PickUp 1) Server.created.

Definition sys0 : System.system := System.start (Some sid) full_page picked_up.

Definition sys1 : System.system :=
  System.with_network
    ([] ++ System.SessionSettled
             (Ok (Server.session_body sid (System.server sys0))) :: []) sys0.

Definition sys2 : System.system :=
  System.deliver
    (SessionDetailApp.SessionArrived
       1000 (Ok (Server.session_body sid (System.server sys0))))
    ([] ++ []) false sys1.

Definition sys3 : System.system :=
  {| System.server := Server.worker_step Server.BlockFinished (System.server sys2);
     System.client := System.client sys2;
     System.network := System.network sys2;
     System.observed_terminal := System.observed_terminal sys2 |}.

Definition sys4 : System.system :=
  System.with_network
    ([] ++ System.StatusSettled (Ok (Server.status_body (System.server sys3))) :: [])
    sys3.

Definition sys5 : System.system :=
  System.deliver
    (SessionDetailApp.StatusArrived (Ok (Server.status_body (System.server sys3))))
    ([] ++ [])
    (System.observes (Ok (Server.status_body (System.server sys3)))) sys4.

(** A life of a session with three blocks, polled along the way. *)
Definition schedule : list Server.action :=
  [Server.Poll; Server.Work (Server.PickUp 3); Server.Poll;
   Server.Work Server.BlockFinished; Server.Poll;
   Server.Work Server.BlockFinished; Server.Poll; Server.Poll;
   Server.Work Server.BlockFinished; Server.Poll].

(** Two unsafe blocks on two lines. *)
Definition snippet : jsstring :=
  [117; 110; 115; 97; 102; 101; 123; 125; 10;
   117; 110; 115; 97; 102; 101; 32; 123; 125]%N.

End Examples.

(** ** Interval handles *)

Module Timers.

(** The handles that a page remembers: that of the polling loop and
    that of the counter of elapsed time. *)
Definition remembered (polling elapsed : option timer_id) : list timer_id :=
  match polling with Some i => [i] | None => [] end
  ++ match elapsed with Some t => [t] | None => [] end.

(** The registered intervals [active] are those the page remembers and
    those of the [background], which the page registered for good; the
    next handle of the browser is new. *)
Definition ok (background : list timer_id) (polling elapsed : option timer_id)
           (next : timer_id) (active : list timer_id) : Prop :=
  NoDup active
  /\ NoDup (remembered polling elapsed)
  /\ (forall id, In id active
                 <-> In id (remembered polling elapsed) \/ In id background)
  /\ (forall id, In id (remembered polling elapsed) -> ~ In id background)
  /\ (forall id, In id active -> (id < next)%positive).

End Timers.

(** ** More of the analysis page *)

Module AnalysisMore.

Import RustGreenApp.

(** What [performQuickScan] tells the user: a warning at once for an
    empty text, or after a second the statistics of the trimmed text. *)
Inductive scan_outcome :=
| ScanWarning
| ScanReport (lines unsafeBlocks : nat) (plural : bool).

Definition performQuickScan (value : jsstring) : scan_outcome :=
  let code := trim value in
  if negb (truthy code) then ScanWarning
  else
    let lines := countLines code in
    let unsafeBlocks := countUnsafeBlocks code in
    ScanReport lines unsafeBlocks (negb (Nat.eqb unsafeBlocks 1)).

(** [updateCodeStats]: the numbers written under the input, when the
    document has the [.input-info] element. *)
Definition updateCodeStats (input_info : bool) (code : jsstring)
  : option (nat * nat * bool) :=
  if input_info then
    let lines := countLines code in
    let unsafeBlocks := countUnsafeBlocks code in
    Some (lines, unsafeBlocks, negb (Nat.eqb unsafeBlocks 1))
  else None.

(** [String.prototype.replace] with a one-character search string and a
    one-character replacement: the first occurrence only. *)
Fixpoint replace_first (c d : code_unit) (s : jsstring) : jsstring :=
  match s with
  | [] => []
  | x :: s' => if (x =? c)%N then d :: s' else x :: replace_first c d s'
  end.

Definition UNDERSCORE : code_unit := 95%N.
Definition HYPHEN : code_unit := 45%N.

(** The class of a finding card in [createFindingCard]. *)
Definition typeClass (codeBlockType : jsstring) : jsstring :=
  replace_first UNDERSCORE HYPHEN codeBlockType.

Definition t_replaceable : jsstring := of_string "replaceable".
Definition t_non_replaceable : jsstring := of_string "non_replaceable".
Definition t_conditionally_replaceable : jsstring :=
  of_string "conditionally_replaceable".

(** The counters of [updateResultsSummary]. *)
Record counters := {
  replaceableCount : nat;
  nonReplaceableCount : nat;
  conditionallyReplaceableCount : nat
}.

(** One turn of the [forEach] with its [switch] on [code_block_type]. *)
Definition tally (acc : counters) (code_block_type : jsstring) : counters :=
  if JsString.eqb code_block_type t_replaceable then
    {| replaceableCount := S (replaceableCount acc);
       nonReplaceableCount := nonReplaceableCount acc;
       conditionallyReplaceableCount := conditionallyReplaceableCount acc |}
  else if JsString.eqb code_block_type t_non_replaceable then
    {| replaceableCount := replaceableCount acc;
       nonReplaceableCount := S (nonReplaceableCount acc);
       conditionallyReplaceableCount := conditionallyReplaceableCount acc |}
  else if JsString.eqb code_block_type t_conditionally_replaceable then
    {| replaceableCount := replaceableCount acc;
       nonReplaceableCount := nonReplaceableCount acc;
       conditionallyReplaceableCount := S (conditionallyReplaceableCount acc) |}
  else acc.

(** What [updateResultsSummary] puts in the four summary items, each
    number being written when its item has a [.summary-value] element. *)
Record summary := {
  totalIssues : nat;
  counts : counters;
  has_issues : bool         (* the class toggled on the second item *)
}.

(** [updateResultsSummary]: [items] is the number of [.summary-item]
    elements, the analyses are given by their [code_block_type]. *)
Definition updateResultsSummary (items : nat) (analyses : list jsstring)
  : option summary :=
  if Nat.leb 4 items then
    let c := fold_left tally analyses
               {| replaceableCount := 0; nonReplaceableCount := 0;
                  conditionallyReplaceableCount := 0 |} in
    Some {| totalIssues := length analyses;
            counts := c;
            has_issues := Nat.ltb 0 (replaceableCount c) |}
  else None.

(** The intervals that are registered after the effects [es], [active]
    being those registered before. *)
Fixpoint timers_after (es : list effect) (active : list timer_id) : list timer_id :=
  match es with
  | [] => active
  | SetInterval id _ :: es' => timers_after es' (id :: active)
  | ClearInterval id :: es' => timers_after es' (remove Pos.eq_dec id active)
  | _ :: es' => timers_after es' active
  end.

(** Everything the page reacts to from a click on the analyze button to
    the display of the results. *)
Inductive page_event :=
| AnalyzeClicked (value : jsstring)
| SessionCreated (now : Z) (r : response jsstring)
| Loop (ev : event)
| ResultsArrived (r : response nat).

Definition handle_page (ev : page_event) (st : state) : state * list effect :=
  match ev with
  | AnalyzeClicked value => startAnalysis value st
  | SessionCreated now r => startAnalysis_resume now r st
  | Loop ev' => handle ev' st
  | ResultsArrived r => (st, fetchAndDisplayResults_resume r)
  end.

(** A run of the page: the state and the registered intervals. *)
Fixpoint run_page (evs : list page_event) (st : state) (active : list timer_id)
  : state * list timer_id :=
  match evs with
  | [] => (st, active)
  | ev :: evs' =>
      run_page evs' (fst (handle_page ev st))
               (timers_after (snd (handle_page ev st)) active)
  end.

(** Reading an escaped text back: the four entities give their
    character, everything else stands for itself.  [skip] characters of
    an entity are still to be passed over. *)
Fixpoint decode (skip : nat) (s : jsstring) : jsstring :=
  match s with
  | [] => []
  | c :: s' =>
      match skip with
      | S k => decode k s'
      | O =>
          if prefix_eqb (of_string "&amp;") s then AMP :: decode 4 s'
          else if prefix_eqb (of_string "&nbsp;") s then NBSP :: decode 5 s'
          else if prefix_eqb (of_string "&lt;") s then LT :: decode 3 s'
          else if prefix_eqb (of_string "&gt;") s then GT :: decode 3 s'
          else c :: decode 0 s'
      end
  end.

(** What arrives on the page, a status answer together with the session
    that its request asked about.  The page does not look at that
    session: the rest of [pollSessionStatus] reads [currentSessionId]
    again when the answer is there. *)
Inductive arrival :=
| Happens (ev : page_event)
| Answers (asked : jsstring) (r : response status_response).

Definition arrival_event (a : arrival) : page_event :=
  match a with
  | Happens ev => ev
  | Answers _ r => Loop (StatusArrived r)
  end.

(** A run of the page with its effects. *)
Fixpoint run_arrivals (arrivals : list arrival) (st : state) : state * list effect :=
  match arrivals with
  | [] => (st, [])
  | a :: rest =>
      let (st1, e1) := handle_page (arrival_event a) st in
      let (st2, e2) := run_arrivals rest st1 in
      (st2, e1 ++ e2)
  end.

(** The statuses that the answers of a run report for one session. *)
Definition observed (sessionId : jsstring) (arrivals : list arrival) : list jsstring :=
  flat_map (fun a => match a with
                     | Answers asked (Ok r) =>
                         if JsString.eqb asked sessionId then [sr_status r] else []
                     | _ => []
                     end) arrivals.

(** The status requests among the effects, by their URL. *)
Definition status_urls (es : list effect) : list jsstring :=
  flat_map (fun e => match e with
                     | Fetch r ThenStatus => [req_url r]
                     | _ => []
                     end) es.

Fixpoint remove_one (u : jsstring) (l : list jsstring) : option (list jsstring) :=
  match l with
  | [] => None
  | x :: l' =>
      if JsString.eqb x u then Some l'
      else match remove_one u l' with
           | Some r => Some (x :: r)
           | None => None
           end
  end.

(** Every status answer of the run answers a status request that the
    page sent before for that session and that had no answer yet;
    [pending] are the URLs of the status requests under way. *)
Fixpoint answers_requested (pending : list jsstring) (arrivals : list arrival)
         (st : state) : bool :=
  match arrivals with
  | [] => true
  | a :: rest =>
      let after := handle_page (arrival_event a) st in
      match a with
      | Happens _ =>
          answers_requested (pending ++ status_urls (snd after)) rest (fst after)
      | Answers asked _ =>
          match remove_one (req_url (getSessionStatus asked)) pending with
          | Some pending' =>
              answers_requested (pending' ++ status_urls (snd after)) rest (fst after)
          | None => false
          end
      end
  end.

(** The analyses of one type. *)
Definition of_type (t : jsstring) (analyses : list jsstring) : list jsstring :=
  filter (fun code_block_type => JsString.eqb code_block_type t) analyses.

(** The registered intervals are those that the state remembers. *)
Definition timers_ok (background : list timer_id) (st : state)
           (active : list timer_id) : Prop :=
  Timers.ok background (pollingInterval st) (timeElapsedInterval st)
            (next_timer st) active.

(** [init], as far as intervals go: [setupExampleInteractions] registers
    the update of the sample statuses, [init] itself that of the live
    data; neither handle is kept. *)
Definition init (st : state) : state * list effect :=
  ({| currentSessionId := currentSessionId st;
      pollingInterval := pollingInterval st;
      pollingStartTime := pollingStartTime st;
      timeElapsedInterval := timeElapsedInterval st;
      next_timer := Pos.succ (Pos.succ (next_timer st)) |},
   [SetInterval (next_timer st) 5000;
    SetInterval (Pos.succ (next_timer st)) 30000]).

End AnalysisMore.

(** ** More of the session detail page *)

Module DetailMore.

Import SessionDetailApp.

(** [updateActionButtons]: the [disabled] flag written to the
    re-analyze and to the export button, for a button that exists. *)
Definition updateActionButtons (reanalyzeBtn exportBtn : bool) (s : session)
  : option bool * option bool :=
  ((if reanalyzeBtn
    then Some (JsString.eqb (status s) s_processing
               || JsString.eqb (status s) s_pending)
    else None),
   (if exportBtn
    then Some (negb (JsString.eqb (status s) s_completed)
               || Nat.eqb (analyses s) 0)
    else None)).

Fixpoint timers_after (es : list effect) (active : list timer_id) : list timer_id :=
  match es with
  | [] => active
  | SetInterval id _ :: es' => timers_after es' (id :: active)
  | ClearInterval id :: es' => timers_after es' (remove Pos.eq_dec id active)
  | _ :: es' => timers_after es' active
  end.

(** A run of the page from [init] on: the state and the registered
    intervals. *)
Fixpoint run_page (evs : list event) (st : state) (active : list timer_id)
  : state * list timer_id :=
  match evs with
  | [] => (st, active)
  | ev :: evs' =>
      run_page evs' (fst (handle ev st)) (timers_after (snd (handle ev st)) active)
  end.

(** The registered intervals are those that the state remembers. *)
Definition timers_ok (st : state) (active : list timer_id) : Prop :=
  Timers.ok [] (pollingInterval st) (timeElapsedInterval st) (next_timer st) active.

End DetailMore.

(** ** More of the sessions browser *)

Module SessionsMore.

Import SessionsApp.

(** [updateStats]: the three numbers written, when the document has the
    three elements. *)
Record stats := {
  total_sessions : nat;
  completed_sessions : nat;
  processing_sessions : nat
}.

Definition updateStats (elements : bool) (st : state) : option stats :=
  if elements then
    Some {| total_sessions := length (allSessions st);
            completed_sessions :=
              length (filter (fun s => JsString.eqb (status s) s_completed)
                             (allSessions st));
            processing_sessions :=
              length (filter (fun s => JsString.eqb (status s) s_processing)
                             (allSessions st)) |}
  else None.

(** The text of the error of a list item in [createSessionItem]: the
    first fifty characters, escaped, and dots when there are more. *)
Definition errorText (message : jsstring) : jsstring :=
  escapeHtml (firstn 50 message)
  ++ (if Nat.ltb 50 (length message) then of_string "..." else []).

(** The error block of a list item: left out for [null] and for the
    empty string. *)
Definition errorBlock (error_message : option jsstring) : option jsstring :=
  match error_message with
  | Some message => if truthy message then Some (errorText message) else None
  | None => None
  end.

(** The time of a session whose date is valid. *)
Definition time_of (s : session) : Z :=
  match created_at s with Some t => t | None => 0%Z end.

(** The rank of a session whose status is in the table. *)
Definition rank_of (s : session) : Z :=
  match statusOrder (status s) with Some r => r | None => 0%Z end.

(** The comparator of the current sort key gives a number on all
    filtered sessions: the dates are valid for 'newest' and 'oldest', the
    statuses are in the table for 'status'. *)
Definition comparable (st : state) : Prop :=
  (currentSort st = of_string "newest" \/ currentSort st = of_string "oldest" ->
   Forall (fun s => created_at s <> None) (filteredSessions st))
  /\ (currentSort st = of_string "status" ->
      Forall (fun s => statusOrder (status s) <> None) (filteredSessions st)).

(** A session passes the filter. *)
Definition passes (toLowerCase : jsstring -> jsstring) (currentFilter : jsstring)
           (s : session) : bool :=
  JsString.eqb currentFilter (of_string "all")
  || JsString.eqb (toLowerCase (status s)) currentFilter.

(** The filtered sessions are those of the full list that pass. *)
Definition filtered_ok (toLowerCase : jsstring -> jsstring) (st : state) : Prop :=
  Permutation (filter (passes toLowerCase (currentFilter st)) (allSessions st))
              (filteredSessions st).

(** The list of the last load that succeeded among the events. *)
Fixpoint last_loaded (evs : list event) (loaded : list session) : list session :=
  match evs with
  | [] => loaded
  | SessionsArrived (Ok sessions) :: evs' => last_loaded evs' sessions
  | _ :: evs' => last_loaded evs' loaded
  end.

(** The sessions of all pages, one page after the other. *)
Definition all_pages (st : state) : list session :=
  flat_map (fun p => pageSessions (set_page (Z.of_nat p) st))
           (seq 1 (Z.to_nat (totalPages st))).

End SessionsMore.

(** ** More sample runs *)

Module MoreExamples.

Definition entry (name status : string) (created : option Z) : SessionsApp.session :=
  {| SessionsApp.id := of_string name;
     SessionsApp.status := of_string status;
     SessionsApp.created_at := created;
     SessionsApp.progress := 0;
     SessionsApp.analysis_count := 0;
     SessionsApp.error_message := None |}.

(** A browser with three sessions, to be sorted by date. *)
Definition by_date : SessionsApp.state :=
  {| SessionsApp.currentPage := 1; SessionsApp.totalPages := 1;
     SessionsApp.totalSessions := 3;
     SessionsApp.allSessions :=
       [entry "a" "completed" (Some 20%Z); entry "b" "failed" (Some 30%Z);
        entry "c" "pending" (Some 20%Z)];
     SessionsApp.filteredSessions :=
       [entry "a" "completed" (Some 20%Z); entry "b" "failed" (Some 30%Z);
        entry "c" "pending" (Some 20%Z)];
     SessionsApp.currentFilter := of_string "all";
     SessionsApp.currentSort := of_string "newest";
     SessionsApp.sessionsList := Some SessionsApp.Blank |}.

(** The same browser, to be sorted by status. *)
Definition by_status : SessionsApp.state :=
  SessionsApp.set_sort (of_string "status") by_date.

(** A browser on the first of three pages. *)
Definition three_pages : SessionsApp.state :=
  SessionsApp.updatePagination
    (SessionsApp.set_filtered (repeat (entry "x" "completed" (Some 1%Z)) 25) by_date).

(** Two sessions on the analysis page.  The first is polled twice
    before its first answer, 'completed', arrives; its results are shown
    and the buttons given back. *)
Definition session_a : jsstring := of_string "6a1c".
Definition session_b : jsstring := of_string "b7d2".

Definition first_session : list AnalysisMore.arrival :=
  [AnalysisMore.Happens (AnalysisMore.AnalyzeClicked (of_string "fn a() {}"));
   AnalysisMore.Happens (AnalysisMore.SessionCreated 0 (Ok session_a));
   AnalysisMore.Happens (AnalysisMore.Loop (RustGreenApp.PollTick 2000));
   AnalysisMore.Answers session_a (Ok Examples.completed);
   AnalysisMore.Happens (AnalysisMore.ResultsArrived (Ok 1))].

(** Then the second is created and seen 'processing'. *)
Definition second_session : list AnalysisMore.arrival :=
  [AnalysisMore.Happens (AnalysisMore.AnalyzeClicked (of_string "fn b() {}"));
   AnalysisMore.Happens (AnalysisMore.SessionCreated 5000 (Ok session_b));
   AnalysisMore.Answers session_b (Ok (Examples.processing 10))].

(** The answer to the second status request of the first session. *)
Definition late_answer : AnalysisMore.arrival :=
  AnalysisMore.Answers session_a (Ok Examples.completed).

(** A code block type with two underscores. *)
Definition two_underscores : jsstring := of_string "not_yet_known".

End MoreExamples.

(* ================================================================== *)
(** * Part II: the properties *)
(* ================================================================== *)

(** ** Strings *)

Section StringFacts.

Lemma eqb_eq : forall a b : jsstring, JsString.eqb a b = true <-> a = b.
Proof.
  intros a b. unfold JsString.eqb.
  destruct (list_eq_dec N.eq_dec a b); split; congruence.
Qed.

Lemma eqb_neq : forall a b : jsstring, JsString.eqb a b = false <-> a <> b.
Proof.
  intros a b. unfold JsString.eqb.
  destruct (list_eq_dec N.eq_dec a b); split; congruence.
Qed.

Lemma split_length : forall sep s,
    length (split sep s) = count_occ N.eq_dec s sep + 1.
Proof.
  intros sep s. induction s as [|c s IH]; [reflexivity|].
  cbn [split count_occ].
  destruct (N.eqb_spec c sep) as [->|Hne].
  - destruct (N.eq_dec sep sep); [|congruence]. cbn [length]. lia.
  - destruct (N.eq_dec c sep); [congruence|].
    destruct (split sep s); cbn [length] in *; lia.
Qed.

End StringFacts.

(** ** [escapeHtml] *)

Section EscapeHtml.

Lemma replace_all_app : forall c w a b,
    Dom.replace_all c w (a ++ b) = Dom.replace_all c w a ++ Dom.replace_all c w b.
Proof. intros. unfold Dom.replace_all. apply flat_map_app. Qed.

Lemma escape_string_app : forall a b,
    Dom.escape_string (a ++ b) = Dom.escape_string a ++ Dom.escape_string b.
Proof.
  intros a b. unfold Dom.escape_string.
  now rewrite !replace_all_app.
Qed.

Lemma escape_string_unit : forall c,
    Dom.escape_string [c] = Spec.four_entities c.
Proof.
  intros c. unfold Spec.four_entities, Spec.three_entities.
  destruct (N.eqb_spec c NBSP) as [->|Hn]; [reflexivity|].
  destruct (N.eqb_spec c AMP) as [->|Ha]; [reflexivity|].
  destruct (N.eqb_spec c LT) as [->|Hl]; [reflexivity|].
  destruct (N.eqb_spec c GT) as [->|Hg]; [reflexivity|].
  unfold Dom.escape_string, Dom.replace_all. cbn [flat_map app].
  apply N.eqb_neq in Hn, Ha, Hl, Hg.
  rewrite Ha. cbn [flat_map app]. rewrite Hn. cbn [flat_map app].
  rewrite Hl. cbn [flat_map app]. now rewrite Hg.
Qed.

Lemma escape_string_replaced : forall s,
    Dom.escape_string s = Spec.replaced Spec.four_entities s.
Proof.
  induction s as [|c s IH]; [reflexivity|].
  change (c :: s) with ([c] ++ s).
  rewrite escape_string_app, escape_string_unit, IH. reflexivity.
Qed.

Lemma escapeHtml_escape_string : forall text,
    RustGreenApp.escapeHtml text = Dom.escape_string text.
Proof.
  intros [|c s]; [reflexivity|].
  unfold RustGreenApp.escapeHtml, Dom.set_textContent, Dom.get_innerHTML.
  cbn [flat_map Dom.serialize_node]. apply app_nil_r.
Qed.

Lemma four_entities_no_angle : forall c x,
    In x (Spec.four_entities c) -> x <> LT /\ x <> GT.
Proof.
  intros c x. unfold Spec.four_entities, Spec.three_entities.
  destruct (N.eqb_spec c NBSP); [cbn; intuition (subst; discriminate)|].
  destruct (N.eqb_spec c AMP); [cbn; intuition (subst; discriminate)|].
  destruct (N.eqb_spec c LT); [cbn; intuition (subst; discriminate)|].
  destruct (N.eqb_spec c GT); [cbn; intuition (subst; discriminate)|].
  cbn. intros [<-|[]]. split; assumption.
Qed.

Lemma three_entities_without_nbsp : forall s,
    ~ In NBSP s -> Spec.replaced Spec.four_entities s = Spec.replaced Spec.three_entities s.
Proof.
  induction s as [|c s IH]; [reflexivity|].
  intros Hn. cbn [Spec.replaced flat_map]. unfold Spec.replaced in IH.
  rewrite IH by (intro; apply Hn; now right).
  unfold Spec.four_entities at 1.
  destruct (N.eqb_spec c NBSP) as [->|]; [exfalso; apply Hn; now left|reflexivity].
Qed.

End EscapeHtml.

(** C8, as amended.  For every string, [escapeHtml] of the three pages
    returns the string with every '&' replaced by '&amp;', every no-break
    space (U+00A0) by '&nbsp;', every '<' by '&lt;' and every '>' by
    '&gt;'; the result holds no '<' and no '>'. *)
Theorem C8_escapeHtml_entities : forall text : jsstring,
    RustGreenApp.escapeHtml text = Spec.replaced Spec.four_entities text
    /\ SessionDetailApp.escapeHtml text = RustGreenApp.escapeHtml text
    /\ SessionsApp.escapeHtml text = RustGreenApp.escapeHtml text
    /\ ~ In LT (RustGreenApp.escapeHtml text)
    /\ ~ In GT (RustGreenApp.escapeHtml text).
Proof.
  intros text.
  assert (E : RustGreenApp.escapeHtml text = Spec.replaced Spec.four_entities text).
  { rewrite escapeHtml_escape_string. apply escape_string_replaced. }
  repeat split; try assumption; try reflexivity.
  - rewrite E. unfold Spec.replaced. intros H. apply in_flat_map in H.
    destruct H as [c [_ H]]. now apply four_entities_no_angle in H.
  - rewrite E. unfold Spec.replaced. intros H. apply in_flat_map in H.
    destruct H as [c [_ H]]. now apply four_entities_no_angle in H.
Qed.

(** C8 as stated fails: a no-break space comes out of [escapeHtml] as
    '&nbsp;', while replacing '&', '<' and '>' alone leaves it as it is. *)
Lemma C8_nbsp_counterexample :
  RustGreenApp.escapeHtml [NBSP] = of_string "&nbsp;"
  /\ Spec.replaced Spec.three_entities [NBSP] = [NBSP]
  /\ RustGreenApp.escapeHtml [NBSP] <> Spec.replaced Spec.three_entities [NBSP].
Proof. repeat split. discriminate. Qed.

(** ** The statistics of the code input *)

Section UnsafeBlocks.

Import Regex.
Import Spec.

Lemma match_items_one : forall p r prev c s,
    match_items (One p :: r) prev (c :: s)
    = if p c then option_map S (match_items r (Some c) s) else None.
Proof. reflexivity. Qed.

Lemma match_items_star_cons : forall p r prev c s,
    match_items (Star p :: r) prev (c :: s)
    = if p c then
        match match_items (Star p :: r) (Some c) s with
        | Some n => Some (S n)
        | None => match_items r prev (c :: s)
        end
      else match_items r prev (c :: s).
Proof. reflexivity. Qed.

(** A greedy star followed by one character outside its class: the
    star takes what it can and never has to give anything back. *)
Lemma match_items_star_then_one : forall p q,
    (forall c, p c = true -> q c = false) ->
    forall s prev,
      match_items [Star p; One q] prev s
      = match dropWhile p s with
        | c :: _ => if q c then Some (S (length (takeWhile p s))) else None
        | [] => None
        end.
Proof.
  intros p q Hpq. induction s as [|c s IH]; intros prev.
  - reflexivity.
  - rewrite match_items_star_cons. cbn [dropWhile takeWhile].
    destruct (p c) eqn:Hp.
    + rewrite IH. cbn [length].
      destruct (dropWhile p s) as [|d t]; [|destruct (q d); [reflexivity|]];
        rewrite match_items_one, (Hpq c Hp); reflexivity.
    + rewrite match_items_one. cbn [length]. destruct (q c); reflexivity.
Qed.

Lemma match_items_lits : forall w r prev s,
    match_items (lits w ++ r) prev s
    = if prefix_eqb w s
      then option_map (Nat.add (length w))
                      (match_items r (after prev w) (skipn (length w) s))
      else None.
Proof.
  induction w as [|a w IH]; intros r prev s.
  - cbn. destruct (match_items r prev s); reflexivity.
  - destruct s as [|c s]; [reflexivity|].
    cbn [lits map app]. change (map lit w) with (lits w).
    unfold lit at 1. rewrite match_items_one. cbn [prefix_eqb].
    destruct (N.eqb_spec a c) as [->|Hne]; [|reflexivity].
    rewrite IH. cbn [andb length skipn].
    change (after prev (c :: w)) with (after (Some c) w).
    destruct (prefix_eqb w s); [|reflexivity].
    destruct (match_items r (after (Some c) w) (skipn (length w) s)); reflexivity.
Qed.

Lemma prefix_eqb_head : forall a w s,
    prefix_eqb (a :: w) s = true -> exists t, s = a :: t /\ prefix_eqb w t = true.
Proof.
  intros a w [|c s]; cbn; [discriminate|].
  destruct (N.eqb_spec a c) as [->|]; [|discriminate].
  intros H. now exists s.
Qed.

Lemma white_space_not_brace : forall c, is_white_space c = true -> (LBRACE =? c)%N = false.
Proof.
  intros c H. destruct (N.eqb_spec LBRACE c) as [<-|]; [discriminate H|reflexivity].
Qed.

Lemma brace_eqb_sym : forall c, (LBRACE =? c)%N = (c =? LBRACE)%N.
Proof. intros c. apply N.eqb_sym. Qed.

(** The backtracking matcher on [/\bunsafe\s*\{/] finds exactly the
    occurrences that the specification describes. *)
Lemma match_items_unsafe : forall prev s,
    match_items RustGreenApp.unsafeRegex prev s
    = if Spec.unsafe_at prev s
      then Some (7 + length (takeWhile is_white_space (skipn 6 s)))
      else None.
Proof.
  intros prev s. unfold RustGreenApp.unsafeRegex, Spec.unsafe_at.
  cbn [match_items].
  rewrite match_items_lits.
  destruct (prefix_eqb (of_string "unsafe") s) eqn:Hp.
  - destruct (prefix_eqb_head _ _ _ Hp) as [t [-> _]].
    cbn [hd_error is_word_opt]. change (is_word_char 117%N) with true.
    rewrite xorb_true_r, andb_true_r.
    destruct (negb (is_word_opt prev)); [|reflexivity].
    cbn [andb]. change (length (of_string "unsafe")) with 6.
    unfold lit. rewrite (match_items_star_then_one _ _ white_space_not_brace).
    destruct (dropWhile is_white_space _) as [|d u]; [reflexivity|].
    rewrite brace_eqb_sym. destruct (d =? LBRACE)%N; reflexivity.
  - rewrite andb_false_r. cbn [andb].
    destruct (xorb (is_word_opt prev) (is_word_opt (hd_error s))); reflexivity.
Qed.

Lemma unsafe_at_head : forall prev s,
    Spec.unsafe_at prev s = true -> hd_error s = Some 117%N.
Proof.
  intros prev s H. unfold Spec.unsafe_at in H.
  apply andb_prop in H as [H _]. apply andb_prop in H as [_ H].
  destruct (prefix_eqb_head _ _ _ H) as [t [-> _]]. reflexivity.
Qed.

Lemma unsafe_at_prev : forall prev s,
    Spec.unsafe_at prev s = true -> is_word_opt prev = false.
Proof.
  intros prev s H. unfold Spec.unsafe_at in H.
  apply andb_prop in H as [H _]. apply andb_prop in H as [H _].
  now apply negb_true_iff in H.
Qed.

Lemma not_unsafe_at_head : forall prev s,
    hd_error s <> Some 117%N -> Spec.unsafe_at prev s = false.
Proof.
  intros prev s H. destruct (Spec.unsafe_at prev s) eqn:E; [|reflexivity].
  now apply unsafe_at_head in E.
Qed.

Lemma not_unsafe_at_prev : forall prev s,
    is_word_opt prev = true -> Spec.unsafe_at prev s = false.
Proof.
  intros prev s H. destruct (Spec.unsafe_at prev s) eqn:E; [|reflexivity].
  apply unsafe_at_prev in E. congruence.
Qed.

Lemma quiet_spaces : forall rest prev k d tail,
    dropWhile is_white_space rest = d :: tail -> d = LBRACE ->
    k <= S (length (takeWhile is_white_space rest)) ->
    quiet prev rest k.
Proof.
  induction rest as [|c r IH]; intros prev k d tail Hd Hb Hk.
  - discriminate Hd.
  - destruct k as [|k]; [exact I|]. cbn [quiet]. split.
    + apply not_unsafe_at_head. cbn [hd_error]. intros E. injection E as ->.
      cbn in Hd. injection Hd as <- _. discriminate Hb.
    + cbn [dropWhile takeWhile] in Hd, Hk.
      destruct (is_white_space c) eqn:Hc.
      * apply (IH _ _ d tail); [assumption..|]. cbn [length] in Hk. lia.
      * cbn [length] in Hk. assert (k = 0) as -> by lia.
        destruct r; exact I.
Qed.

(** After an occurrence, none starts before its end. *)
Lemma unsafe_at_quiet : forall prev c s,
    Spec.unsafe_at prev (c :: s) = true ->
    quiet (Some c) s (6 + length (takeWhile is_white_space (skipn 6 (c :: s)))).
Proof.
  intros prev c s H. pose proof H as H0. unfold Spec.unsafe_at in H.
  apply andb_prop in H as [H Hb]. apply andb_prop in H as [_ H].
  destruct (prefix_eqb_head _ _ _ H) as [t1 [E1 H1]]. injection E1 as -> ->.
  destruct (prefix_eqb_head _ _ _ H1) as [t2 [-> H2]].
  destruct (prefix_eqb_head _ _ _ H2) as [t3 [-> H3]].
  destruct (prefix_eqb_head _ _ _ H3) as [t4 [-> H4]].
  destruct (prefix_eqb_head _ _ _ H4) as [t5 [-> H5]].
  destruct (prefix_eqb_head _ _ _ H5) as [t6 [-> _]].
  cbn [skipn] in *.
  destruct (dropWhile is_white_space t6) as [|d tail] eqn:Hd; [discriminate|].
  apply N.eqb_eq in Hb.
  cbn [plus].
  do 5 (split; [apply not_unsafe_at_prev; reflexivity|]).
  apply (quiet_spaces t6 _ _ d tail Hd Hb). lia.
Qed.

Lemma match_all_count : forall s prev k,
    quiet prev s k ->
    length (match_all RustGreenApp.unsafeRegex prev s k) = count_pos prev s.
Proof.
  induction s as [|c s IH]; intros prev k Hq.
  - destruct k; [|reflexivity]. cbn [match_all].
    rewrite match_items_unsafe.
    destruct (unsafe_at prev []) eqn:E; [|reflexivity].
    apply unsafe_at_head in E. discriminate E.
  - destruct k as [|k]; cbn [match_all count_pos].
    + rewrite match_items_unsafe.
      destruct (Spec.unsafe_at prev (c :: s)) eqn:E.
      * cbn [length plus pred]. f_equal. apply IH.
        now apply unsafe_at_quiet with (prev := prev).
      * apply IH. exact I.
    + destruct Hq as [E Hq]. rewrite E. apply IH. exact Hq.
Qed.

Lemma char_before_app : forall pre c s,
    Spec.char_before ((pre ++ [c]) ++ s) (length (pre ++ [c])) = Some c.
Proof.
  intros pre c s. rewrite length_app. cbn [length].
  replace (length pre + 1) with (S (length pre)) by lia.
  cbn [Spec.char_before]. rewrite <- app_assoc.
  rewrite nth_error_app2 by lia. now rewrite Nat.sub_diag.
Qed.

Lemma skipn_app_length : forall (pre s : jsstring), skipn (length pre) (pre ++ s) = s.
Proof. induction pre; intros; cbn; auto. Qed.

Lemma count_pos_occurrences : forall s pre prev,
    prev = Spec.char_before (pre ++ s) (length pre) ->
    count_pos prev s
    = length (filter (Spec.occurs (pre ++ s)) (seq (length pre) (length s))).
Proof.
  induction s as [|c s IH]; intros pre prev Hprev; [reflexivity|].
  cbn [count_pos length seq filter].
  unfold Spec.occurs at 1. rewrite <- Hprev, skipn_app_length.
  specialize (IH (pre ++ [c]) (Some c)).
  rewrite char_before_app, <- app_assoc in IH. cbn [app] in IH.
  rewrite length_app in IH. cbn [length] in IH.
  replace (length pre + 1) with (S (length pre)) in IH by lia.
  rewrite (IH eq_refl).
  destruct (Spec.unsafe_at prev (c :: s)); reflexivity.
Qed.

Lemma countUnsafeBlocks_match_all : forall code,
    RustGreenApp.countUnsafeBlocks code = length (match_all RustGreenApp.unsafeRegex None code 0).
Proof.
  intros code. unfold RustGreenApp.countUnsafeBlocks, string_match.
  destruct (match_all RustGreenApp.unsafeRegex None code 0); reflexivity.
Qed.

Lemma countUnsafeBlocks_occurrences : forall code,
    RustGreenApp.countUnsafeBlocks code = length (Spec.occurrences code).
Proof.
  intros code. rewrite countUnsafeBlocks_match_all.
  rewrite match_all_count by exact I.
  apply (count_pos_occurrences code [] None eq_refl).
Qed.

Lemma quiet_occurs : forall k code i,
    quiet (Spec.char_before code i) (skipn i code) k ->
    forall d, d < k -> Spec.occurs code (i + d) = false.
Proof.
  induction k as [|k IH]; intros code i Hq d Hd; [lia|].
  destruct Hq as [E Hq]. destruct d as [|d].
  - rewrite Nat.add_0_r. exact E.
  - replace (i + S d) with (S i + d) by lia.
    destruct (skipn i code) as [|c t] eqn:Hs.
    + unfold Spec.occurs. apply not_unsafe_at_head.
      replace (skipn (S i + d) code) with (skipn (S d) (skipn i code))
        by (rewrite skipn_skipn; f_equal; lia).
      rewrite Hs, skipn_nil. discriminate.
    + apply IH; [|lia].
      assert (Hn : nth_error code i = Some c).
      { rewrite <- (firstn_skipn i code) at 1. rewrite Hs.
        assert (Hl : length (firstn i code) = i).
        { apply firstn_length_le. destruct (Nat.le_gt_cases i (length code)) as [|Hgt];
            [assumption|]. rewrite skipn_all2 in Hs by lia. discriminate. }
        rewrite nth_error_app2 by lia. rewrite Hl, Nat.sub_diag. reflexivity. }
      cbn [Spec.char_before]. rewrite Hn.
      replace (skipn (S i) code) with (skipn 1 (skipn i code))
        by (rewrite skipn_skipn; f_equal; lia).
      rewrite Hs. exact Hq.
Qed.

(** Two occurrences never overlap. *)
Lemma occurrences_apart : forall code i j,
    Spec.occurs code i = true -> Spec.occurs code j = true -> i < j ->
    i + Spec.occurrence_length code i <= j.
Proof.
  intros code i j Hi Hj Hij.
  destruct (Nat.le_gt_cases (i + Spec.occurrence_length code i) j) as [|Hlt];
    [assumption|exfalso].
  unfold Spec.occurs in Hi.
  destruct (skipn i code) as [|c t] eqn:Hs.
  { apply unsafe_at_head in Hi. discriminate. }
  pose proof (unsafe_at_quiet _ _ _ Hi) as Hq.
  assert (Hn : nth_error code i = Some c).
  { rewrite <- (firstn_skipn i code) at 1. rewrite Hs.
    assert (Hl : length (firstn i code) = i).
    { apply firstn_length_le. destruct (Nat.le_gt_cases i (length code)) as [|Hgt];
        [assumption|]. rewrite skipn_all2 in Hs by lia. discriminate. }
    rewrite nth_error_app2 by lia. rewrite Hl, Nat.sub_diag. reflexivity. }
  assert (Hq' : quiet (Spec.char_before code (S i)) (skipn (S i) code)
                      (6 + length (takeWhile is_white_space (skipn 6 (c :: t))))).
  { cbn [Spec.char_before]. rewrite Hn.
    replace (skipn (S i) code) with (skipn 1 (skipn i code))
      by (rewrite skipn_skipn; f_equal; lia).
    rewrite Hs. exact Hq. }
  assert (Hlen : Spec.occurrence_length code i
                 = 7 + length (takeWhile is_white_space (skipn 6 (c :: t)))).
  { unfold Spec.occurrence_length. rewrite <- Hs, skipn_skipn.
    replace (6 + i) with (i + 6) by lia. reflexivity. }
  pose proof (quiet_occurs _ _ _ Hq' (j - S i)) as Hno.
  replace (S i + (j - S i)) with j in Hno by lia.
  rewrite Hno in Hj by lia. discriminate.
Qed.

End UnsafeBlocks.

(** C9.  [countUnsafeBlocks code] is the number of occurrences of the
    pattern in [code] (the word 'unsafe', optional whitespace, an opening
    brace), which never overlap; it is 0 when there is none and for the
    empty string.  [countLines code] is the number of line feeds plus
    one, so 1 for the empty string. *)
Theorem C9_code_statistics : forall code : jsstring,
    RustGreenApp.countUnsafeBlocks code = length (Spec.occurrences code)
    /\ (forall i j, Spec.occurs code i = true -> Spec.occurs code j = true ->
                    i < j -> i + Spec.occurrence_length code i <= j)
    /\ (Spec.occurrences code = [] -> RustGreenApp.countUnsafeBlocks code = 0)
    /\ RustGreenApp.countUnsafeBlocks [] = 0
    /\ RustGreenApp.countLines code = count_occ N.eq_dec code LF + 1
    /\ RustGreenApp.countLines [] = 1.
Proof.
  intros code. repeat split.
  - apply countUnsafeBlocks_occurrences.
  - apply occurrences_apart.
  - intros H. rewrite countUnsafeBlocks_occurrences, H. reflexivity.
  - apply split_length.
Qed.

(** C9 on a sample: two unsafe blocks on two lines, the second with a
    space before its brace; the occurrences start at 0 and at 9 and the
    first ends before the second starts. *)
Lemma C9_code_statistics_witness :
  RustGreenApp.countUnsafeBlocks Examples.snippet = 2
  /\ RustGreenApp.countLines Examples.snippet = 2
  /\ 0 + Spec.occurrence_length Examples.snippet 0 <= 9.
Proof.
  destruct (C9_code_statistics Examples.snippet) as [C1 [C2 [_ [_ [C5 _]]]]].
  split; [rewrite C1; reflexivity|].
  split; [rewrite C5; reflexivity|].
  apply C2; [reflexivity|reflexivity|].
  apply Nat.lt_0_succ.
Defined.

(** ** Polling on the analysis page *)

Section AnalysisPolling.

Import RustGreenApp.

Lemma is_terminal_spec : forall s,
    RustGreenApp.is_terminal s = true <-> Spec.terminal s.
Proof.
  intros s. unfold RustGreenApp.is_terminal, Spec.terminal.
  rewrite orb_true_iff, !eqb_eq. reflexivity.
Qed.

Lemma session_status_in_progress : forall s,
    Spec.session_status s ->
    (RustGreenApp.is_terminal s = false <-> s = s_pending \/ s = s_processing).
Proof.
  intros s [ -> | [ -> | [ -> | -> ] ] ]; split; intros H; try reflexivity; try discriminate;
    auto; destruct H as [H|H]; discriminate H.
Qed.

Lemma stopPolling_state : forall st,
    pollingInterval (fst (stopPolling st)) = None
    /\ currentSessionId (fst (stopPolling st)) = None
    /\ pollingStartTime (fst (stopPolling st)) = None.
Proof.
  intros st. unfold stopPolling, stopTimeElapsedCounter. cbn.
  destruct (timeElapsedInterval st); cbn; auto.
Qed.

Lemma stopPolling_fetches : forall st, fetches (snd (stopPolling st)) = [].
Proof.
  intros st. unfold stopPolling, stopTimeElapsedCounter. cbn.
  destruct (timeElapsedInterval st), (pollingInterval st); reflexivity.
Qed.

Lemma fetches_app : forall a b, fetches (a ++ b) = fetches a ++ fetches b.
Proof. intros. unfold fetches. apply flat_map_app. Qed.

(** The timeout branch of [pollSessionStatus]. *)
Lemma pollSessionStatus_timeout : forall now st sid,
    currentSessionId st = Some sid -> truthy sid = true ->
    timed_out now st = true ->
    pollSessionStatus now st
    = (fst (stopPolling st),
       ShowMessage msg_timeout (of_string "error") :: snd (stopPolling st)
         ++ [RestoreAnalysisButtons]).
Proof.
  intros now st sid Hid Ht Hto. unfold pollSessionStatus, timed_out in *.
  rewrite Hid, Ht, Hto. cbn [negb].
  destruct (stopPolling st); reflexivity.
Qed.

(** The other branch: one status request, nothing else. *)
Lemma pollSessionStatus_request : forall now st sid,
    currentSessionId st = Some sid -> truthy sid = true ->
    timed_out now st = false ->
    pollSessionStatus now st = (st, [Fetch (getSessionStatus sid) ThenStatus]).
Proof.
  intros now st sid Hid Ht Hto. unfold pollSessionStatus, timed_out in *.
  rewrite Hid, Ht, Hto. reflexivity.
Qed.

Lemma resume_terminal : forall r st,
    RustGreenApp.is_terminal (sr_status r) = true ->
    fst (pollSessionStatus_resume (Ok r) st) = fst (stopPolling st).
Proof.
  intros r st H. unfold pollSessionStatus_resume, RustGreenApp.is_terminal in *.
  destruct (JsString.eqb (sr_status r) s_completed).
  - destruct (stopPolling st); reflexivity.
  - cbn [orb] in H. rewrite H. destruct (stopPolling st); reflexivity.
Qed.

Lemma resume_not_terminal : forall r st,
    RustGreenApp.is_terminal (sr_status r) = false ->
    pollSessionStatus_resume (Ok r) st
    = (st, [UpdateProgress (sr_progress r) (sr_status r)]).
Proof.
  intros r st H. unfold pollSessionStatus_resume, RustGreenApp.is_terminal in *.
  apply orb_false_iff in H as [-> ->]. reflexivity.
Qed.

(** One event of the loop: it stops the loop or leaves the state alone. *)
Lemma handle_stops : forall ev st sid,
    polling st = true -> currentSessionId st = Some sid -> truthy sid = true ->
    if stops st ev
    then polling (fst (handle ev st)) = false
    else fst (handle ev st) = st.
Proof.
  intros ev st sid Hp Hid Ht. destruct ev as [now|[r|m]]; cbn [stops handle].
  - unfold polling in Hp. destruct (pollingInterval st) eqn:Hi; [|discriminate].
    destruct (timed_out now st) eqn:Hto.
    + rewrite (pollSessionStatus_timeout now st sid Hid Ht Hto). cbn [fst].
      unfold polling. now destruct (stopPolling_state st) as [-> _].
    + now rewrite (pollSessionStatus_request now st sid Hid Ht Hto).
  - destruct (RustGreenApp.is_terminal (sr_status r)) eqn:E.
    + rewrite (resume_terminal r st E).
      unfold polling. now destruct (stopPolling_state st) as [-> _].
    + now rewrite (resume_not_terminal r st E).
  - reflexivity.
Qed.

(** Once the interval is cleared no event of the loop registers it again. *)
Lemma handle_stopped : forall ev st,
    polling st = false -> polling (fst (handle ev st)) = false.
Proof.
  intros ev st Hp. destruct ev as [now|[r|m]]; cbn [handle].
  - unfold polling in Hp. destruct (pollingInterval st) eqn:Hi; [discriminate|].
    cbn. unfold polling. now rewrite Hi.
  - destruct (RustGreenApp.is_terminal (sr_status r)) eqn:E.
    + rewrite (resume_terminal r st E).
      unfold polling. now destruct (stopPolling_state st) as [-> _].
    + now rewrite (resume_not_terminal r st E).
  - exact Hp.
Qed.

Lemma run_cons : forall ev evs st,
    run (ev :: evs) st
    = (fst (run evs (fst (handle ev st))),
       snd (handle ev st) ++ snd (run evs (fst (handle ev st)))).
Proof.
  intros ev evs st. cbn [run].
  destruct (handle ev st) as [st1 e1]. cbn [fst snd].
  destruct (run evs st1); reflexivity.
Qed.

Lemma run_stopped : forall evs st,
    polling st = false -> polling (fst (run evs st)) = false.
Proof.
  induction evs as [|ev evs IH]; intros st Hp; [exact Hp|].
  rewrite run_cons. cbn [fst]. apply IH. now apply handle_stopped.
Qed.

(** The loop is alive after a run of events exactly when none of them
    was one at which it is to stop. *)
Lemma run_polling : forall evs st sid,
    polling st = true -> currentSessionId st = Some sid -> truthy sid = true ->
    polling (fst (run evs st)) = forallb (fun ev => negb (stops st ev)) evs.
Proof.
  induction evs as [|ev evs IH]; intros st sid Hp Hid Ht; [exact Hp|].
  rewrite run_cons. cbn [fst forallb].
  pose proof (handle_stops ev st sid Hp Hid Ht) as H.
  destruct (stops st ev); cbn [negb andb].
  - now apply run_stopped.
  - rewrite H. now apply IH with (sid := sid).
Qed.

Lemma tick_fetches : forall now st sid,
    polling st = true -> currentSessionId st = Some sid -> truthy sid = true ->
    fetches (snd (handle (PollTick now) st))
    = if timed_out now st then [] else [getSessionStatus sid].
Proof.
  intros now st sid Hp Hid Ht. cbn [handle].
  unfold polling in Hp. destruct (pollingInterval st); [|discriminate].
  destruct (timed_out now st) eqn:Hto.
  - rewrite (pollSessionStatus_timeout now st sid Hid Ht Hto). cbn [snd].
    change (ShowMessage ?a ?b :: ?l) with ([ShowMessage a b] ++ l).
    rewrite !fetches_app, stopPolling_fetches. reflexivity.
  - now rewrite (pollSessionStatus_request now st sid Hid Ht Hto).
Qed.

Lemma tick_stopped : forall now st,
    polling st = false -> handle (PollTick now) st = (st, []).
Proof.
  intros now st Hp. cbn [handle]. unfold polling in Hp.
  now destruct (pollingInterval st).
Qed.

Lemma startPolling_spec : forall now sid st,
    truthy sid = true ->
    polling (fst (startPolling now sid st)) = true
    /\ currentSessionId (fst (startPolling now sid st)) = Some sid
    /\ pollingStartTime (fst (startPolling now sid st)) = Some now
    /\ fetches (snd (startPolling now sid st)) = [getSessionStatus sid].
Proof.
  intros now sid st Ht. unfold startPolling.
  pose proof (stopPolling_fetches st) as Hf.
  destruct (stopPolling st) as [st1 e1]. cbn [snd] in Hf.
  unfold pollSessionStatus. cbn [currentSessionId pollingStartTime to_number].
  rewrite Ht. cbn [negb]. rewrite Z.sub_diag.
  change (0 >? MAX_POLLING_TIME)%Z with false. cbv iota.
  unfold startTimeElapsedCounter. cbn.
  repeat split.
  rewrite !fetches_app, Hf. cbn.
  destruct (timeElapsedInterval st1); reflexivity.
Qed.

Lemma startPolling_interval : forall now sid st,
    exists id, In (SetInterval id 2000) (snd (startPolling now sid st)).
Proof.
  intros now sid st. unfold startPolling.
  destruct (stopPolling st) as [st1 e1].
  match goal with |- context [pollSessionStatus now ?x] =>
    destruct (pollSessionStatus now x) as [st3 e3] end.
  match goal with |- context [startTimeElapsedCounter ?x] =>
    destruct (startTimeElapsedCounter x) as [st5 e5] end.
  exists (next_timer st3). cbn [snd]. rewrite !in_app_iff. cbn [In].
  right. right. right. left. now left.
Qed.

End AnalysisPolling.

(** ** Polling on the session detail page *)

Section DetailPolling.

Import SessionDetailApp.

Lemma detail_is_terminal_spec : forall s,
    SessionDetailApp.is_terminal s = true <-> Spec.terminal s.
Proof.
  intros s. unfold SessionDetailApp.is_terminal, Spec.terminal.
  rewrite orb_true_iff, !eqb_eq. reflexivity.
Qed.

Lemma detail_in_progress_spec : forall s,
    in_progress s = true <-> s = s_processing \/ s = s_pending.
Proof.
  intros s. unfold in_progress. rewrite orb_true_iff, !eqb_eq. reflexivity.
Qed.

Lemma detail_session_status : forall s,
    Spec.session_status s ->
    (SessionDetailApp.is_terminal s = false <-> s = s_pending \/ s = s_processing).
Proof.
  intros s [ -> | [ -> | [ -> | -> ] ] ]; split; intros H; try reflexivity;
    try discriminate; auto; destruct H as [H|H]; discriminate H.
Qed.

Lemma detail_fetches_app : forall a b,
    SessionDetailApp.fetches (a ++ b)
    = SessionDetailApp.fetches a ++ SessionDetailApp.fetches b.
Proof. intros. unfold SessionDetailApp.fetches. apply flat_map_app. Qed.

Lemma detail_stopPolling_fetches : forall st,
    SessionDetailApp.fetches (snd (stopPolling st)) = [].
Proof. intros st. cbn. destruct (pollingInterval st); reflexivity. Qed.

Lemma updateProgressFromStatus_loop : forall r st,
    same_loop st (fst (updateProgressFromStatus r st))
    /\ SessionDetailApp.fetches (snd (updateProgressFromStatus r st)) = [].
Proof.
  intros r st. unfold updateProgressFromStatus, same_loop.
  destruct (sessionData st); cbn; auto.
Qed.

Lemma detail_timeout : forall now st,
    truthy_opt (sessionId st) = true -> SessionDetailApp.timed_out now st = true ->
    pollSessionStatus now st
    = (fst (stopPolling st),
       ShowMessage msg_timeout (of_string "error") :: snd (stopPolling st)).
Proof.
  intros now st Ht Hto. unfold pollSessionStatus, SessionDetailApp.timed_out in *.
  rewrite Ht, Hto. reflexivity.
Qed.

Lemma detail_request : forall now st,
    truthy_opt (sessionId st) = true -> SessionDetailApp.timed_out now st = false ->
    pollSessionStatus now st = (st, [Fetch (status_request st) ThenStatus]).
Proof.
  intros now st Ht Hto. unfold pollSessionStatus, SessionDetailApp.timed_out in *.
  rewrite Ht, Hto. reflexivity.
Qed.

Lemma detail_resume_terminal : forall r st,
    SessionDetailApp.is_terminal (sr_status r) = true ->
    pollingInterval (fst (pollSessionStatus_resume (Ok r) st)) = None
    /\ sessionId (fst (pollSessionStatus_resume (Ok r) st)) = sessionId st
    /\ SessionDetailApp.fetches (snd (pollSessionStatus_resume (Ok r) st))
       = [session_request st].
Proof.
  intros r st H. unfold pollSessionStatus_resume. rewrite H.
  destruct (updateProgressFromStatus_loop r st) as [[Hs _] Hf].
  destruct (updateProgressFromStatus r st) as [st1 e1]. cbn [fst snd] in *.
  cbn [stopPolling loadSessionData fst snd with_polling pollingInterval sessionId].
  repeat split; [assumption|].
  rewrite !detail_fetches_app, Hf. cbn [app].
  destruct (pollingInterval st1); cbn; unfold session_request; cbn; now rewrite Hs.
Qed.

Lemma detail_resume_not_terminal : forall r st,
    SessionDetailApp.is_terminal (sr_status r) = false ->
    same_loop st (fst (pollSessionStatus_resume (Ok r) st))
    /\ SessionDetailApp.fetches (snd (pollSessionStatus_resume (Ok r) st)) = [].
Proof.
  intros r st H. unfold pollSessionStatus_resume. rewrite H.
  destruct (updateProgressFromStatus_loop r st) as [Hs Hf].
  destruct (updateProgressFromStatus r st) as [st1 e1]. now split.
Qed.

Lemma detail_handle_stops : forall ev st,
    loop_event ev = true ->
    SessionDetailApp.polling st = true -> truthy_opt (sessionId st) = true ->
    if SessionDetailApp.stops st ev
    then SessionDetailApp.polling (fst (handle ev st)) = false
    else same_loop st (fst (handle ev st)).
Proof.
  intros ev st Hl Hp Ht. destruct ev as [now|[r|m]|now r]; [| | |discriminate Hl];
    cbn [SessionDetailApp.stops handle].
  - unfold SessionDetailApp.polling in Hp.
    destruct (pollingInterval st) eqn:Hi; [|discriminate].
    destruct (SessionDetailApp.timed_out now st) eqn:Hto.
    + rewrite (detail_timeout now st Ht Hto). reflexivity.
    + rewrite (detail_request now st Ht Hto). repeat split.
  - destruct (SessionDetailApp.is_terminal (sr_status r)) eqn:E.
    + destruct (detail_resume_terminal r st E) as [Hi _].
      unfold SessionDetailApp.polling. now rewrite Hi.
    + now destruct (detail_resume_not_terminal r st E).
  - repeat split.
Qed.

Lemma detail_handle_stopped : forall ev st,
    loop_event ev = true ->
    SessionDetailApp.polling st = false ->
    SessionDetailApp.polling (fst (handle ev st)) = false.
Proof.
  intros ev st Hl Hp. destruct ev as [now|[r|m]|now r]; [| | |discriminate Hl];
    cbn [handle].
  - unfold SessionDetailApp.polling in *.
    destruct (pollingInterval st) eqn:Hi; [discriminate|]. cbn. now rewrite Hi.
  - destruct (SessionDetailApp.is_terminal (sr_status r)) eqn:E.
    + destruct (detail_resume_terminal r st E) as [Hi _].
      unfold SessionDetailApp.polling. now rewrite Hi.
    + destruct (detail_resume_not_terminal r st E) as [[_ [Hi _]] _].
      unfold SessionDetailApp.polling in *. now rewrite Hi.
  - exact Hp.
Qed.

Lemma detail_run_cons : forall ev evs st,
    run (ev :: evs) st
    = (fst (run evs (fst (handle ev st))),
       snd (handle ev st) ++ snd (run evs (fst (handle ev st)))).
Proof.
  intros ev evs st. cbn [run].
  destruct (handle ev st) as [st1 e1]. cbn [fst snd].
  destruct (run evs st1); reflexivity.
Qed.

Lemma detail_run_stopped : forall evs st,
    forallb loop_event evs = true ->
    SessionDetailApp.polling st = false ->
    SessionDetailApp.polling (fst (run evs st)) = false.
Proof.
  induction evs as [|ev evs IH]; intros st Hl Hp; [exact Hp|].
  cbn [forallb] in Hl. apply andb_prop in Hl as [Hl1 Hl2].
  rewrite detail_run_cons. cbn [fst]. apply IH; [assumption|].
  now apply detail_handle_stopped.
Qed.

Lemma forallb_pointwise : forall (A : Type) (f g : A -> bool) (l : list A),
    (forall a, f a = g a) -> forallb f l = forallb g l.
Proof.
  intros A f g l H. induction l as [|a l IH]; [reflexivity|].
  cbn. now rewrite H, IH.
Qed.

Lemma stops_same_loop : forall st st' ev,
    same_loop st st' -> SessionDetailApp.stops st' ev = SessionDetailApp.stops st ev.
Proof.
  intros st st' ev [_ [_ Hs]]. destruct ev as [now|r|now r]; try reflexivity.
  cbn. unfold SessionDetailApp.timed_out. now rewrite Hs.
Qed.

Lemma detail_run_polling : forall evs st,
    forallb loop_event evs = true ->
    SessionDetailApp.polling st = true -> truthy_opt (sessionId st) = true ->
    SessionDetailApp.polling (fst (run evs st))
    = forallb (fun ev => negb (SessionDetailApp.stops st ev)) evs.
Proof.
  induction evs as [|ev evs IH]; intros st Hl Hp Ht; [exact Hp|].
  cbn [forallb] in Hl. apply andb_prop in Hl as [Hl1 Hl2].
  rewrite detail_run_cons. cbn [fst forallb].
  pose proof (detail_handle_stops ev st Hl1 Hp Ht) as H.
  destruct (SessionDetailApp.stops st ev); cbn [negb andb].
  - now apply detail_run_stopped.
  - destruct H as [Hs [Hi Hst]].
    rewrite IH; [| assumption | | ].
    + apply forallb_pointwise. intros e. f_equal.
      apply stops_same_loop. repeat split; assumption.
    + unfold SessionDetailApp.polling in *. now rewrite Hi.
    + now rewrite Hs.
Qed.

Lemma detail_tick_fetches : forall now st,
    SessionDetailApp.polling st = true -> truthy_opt (sessionId st) = true ->
    SessionDetailApp.fetches (snd (handle (PollTick now) st))
    = if SessionDetailApp.timed_out now st then [] else [status_request st].
Proof.
  intros now st Hp Ht. cbn [handle]. unfold SessionDetailApp.polling in Hp.
  destruct (pollingInterval st); [|discriminate].
  destruct (SessionDetailApp.timed_out now st) eqn:Hto.
  - rewrite (detail_timeout now st Ht Hto). cbn [snd].
    change (ShowMessage ?a ?b :: ?l) with ([ShowMessage a b] ++ l).
    rewrite detail_fetches_app, detail_stopPolling_fetches. reflexivity.
  - now rewrite (detail_request now st Ht Hto).
Qed.

Lemma detail_tick_stopped : forall now st,
    SessionDetailApp.polling st = false -> handle (PollTick now) st = (st, []).
Proof.
  intros now st Hp. cbn [handle]. unfold SessionDetailApp.polling in Hp.
  now destruct (pollingInterval st).
Qed.

Lemma renderSessionData_loop : forall st,
    same_loop st (fst (renderSessionData st))
    /\ SessionDetailApp.fetches (snd (renderSessionData st)) = [].
Proof.
  intros st. unfold renderSessionData, same_loop.
  destruct (sessionData st) as [s|]; [|cbn; auto].
  unfold updateProgressDisplay. cbn [dom progress_display].
  destruct (progress_display (updateErrorMessage s (dom st))); [|cbn; auto].
  destruct (in_progress (status s)).
  - cbn [timeElapsedInterval]. destruct (timeElapsedInterval st); cbn; auto.
  - unfold stopTimeElapsedCounter. cbn [timeElapsedInterval].
    destruct (timeElapsedInterval st); cbn; auto.
Qed.

Lemma detail_startPolling_spec : forall now st,
    truthy_opt (sessionId st) = true ->
    SessionDetailApp.polling (fst (startPolling now st)) = true
    /\ sessionId (fst (startPolling now st)) = sessionId st
    /\ pollingStartTime (fst (startPolling now st)) = Some now
    /\ SessionDetailApp.fetches (snd (startPolling now st)) = [status_request st].
Proof.
  intros now st Ht. unfold startPolling.
  cbn [stopPolling fst snd]. unfold pollSessionStatus.
  cbn [with_polling sessionId pollingStartTime to_number next_timer].
  rewrite Ht. cbn [negb]. rewrite Z.sub_diag.
  change (0 >? MAX_POLLING_TIME)%Z with false. cbv iota.
  cbn [with_polling sessionId pollingStartTime pollingInterval
       SessionDetailApp.polling].
  repeat split.
  cbn [snd]. rewrite !detail_fetches_app. destruct (pollingInterval st); reflexivity.
Qed.

(** [loadSessionData] starts the loop exactly for a session that is
    'processing' or 'pending'. *)
Lemma loadSessionData_resume_in_progress : forall now s st,
    truthy_opt (sessionId st) = true -> in_progress (status s) = true ->
    SessionDetailApp.polling (fst (loadSessionData_resume now (Ok s) st)) = true
    /\ sessionId (fst (loadSessionData_resume now (Ok s) st)) = sessionId st
    /\ pollingStartTime (fst (loadSessionData_resume now (Ok s) st)) = Some now
    /\ SessionDetailApp.fetches (snd (loadSessionData_resume now (Ok s) st))
       = [status_request st].
Proof.
  intros now s st Ht Hs. unfold loadSessionData_resume. rewrite Hs.
  set (st1 := {| sessionId := sessionId st; sessionData := Some s;
                 pollingInterval := pollingInterval st;
                 pollingStartTime := pollingStartTime st;
                 timeElapsedInterval := timeElapsedInterval st;
                 next_timer := next_timer st; dom := dom st |}).
  destruct (renderSessionData_loop st1) as [[Hid _] Hf].
  destruct (renderSessionData st1) as [st2 e2]. cbn [fst snd] in *.
  assert (Ht2 : truthy_opt (sessionId st2) = true) by (rewrite Hid; exact Ht).
  destruct (detail_startPolling_spec now st2 Ht2) as [Hp [Hi [Hn Hq]]].
  destruct (startPolling now st2) as [st3 e3]. cbn [fst snd] in *.
  repeat split; try assumption.
  - now rewrite Hi, Hid.
  - rewrite detail_fetches_app, Hf, Hq. unfold status_request. now rewrite Hid.
Qed.

Lemma loadSessionData_resume_otherwise : forall now r st,
    match r with Ok s => in_progress (status s) = false | Err _ => True end ->
    same_loop st (fst (loadSessionData_resume now r st))
    /\ SessionDetailApp.fetches (snd (loadSessionData_resume now r st)) = [].
Proof.
  intros now [s|m] st H; unfold loadSessionData_resume.
  - rewrite H.
    set (st1 := {| sessionId := sessionId st; sessionData := Some s;
                   pollingInterval := pollingInterval st;
                   pollingStartTime := pollingStartTime st;
                   timeElapsedInterval := timeElapsedInterval st;
                   next_timer := next_timer st; dom := dom st |}).
    destruct (renderSessionData_loop st1) as [Hl Hf].
    destruct (renderSessionData st1) as [st2 e2]. now split.
  - repeat split.
Qed.

Lemma detail_startPolling_interval : forall now st,
    exists i, In (SetInterval i 2000) (snd (startPolling now st)).
Proof.
  intros now st. unfold startPolling.
  destruct (stopPolling st) as [st1 e1].
  match goal with |- context [pollSessionStatus now ?x] =>
    destruct (pollSessionStatus now x) as [st3 e3] end.
  exists (next_timer st3). cbn [snd]. rewrite !in_app_iff. cbn [In].
  right. right. now left.
Qed.

Lemma loadSessionData_resume_interval : forall now s st,
    in_progress (status s) = true ->
    exists i, In (SetInterval i 2000) (snd (loadSessionData_resume now (Ok s) st)).
Proof.
  intros now s st Hs. unfold loadSessionData_resume. rewrite Hs.
  match goal with |- context [renderSessionData ?x] =>
    destruct (renderSessionData x) as [st2 e2] end.
  destruct (detail_startPolling_interval now st2) as [i Hi].
  destruct (startPolling now st2) as [st3 e3]. cbn [snd] in *.
  exists i. apply in_app_iff. now right.
Qed.

End DetailPolling.

(** ** The requests of the polling loop are reads *)

Section Reads.

Lemma apiRequest_no_options_read : forall endpoint,
    Spec.is_read (apiRequest endpoint no_options).
Proof. intros endpoint. split; reflexivity. Qed.

Lemma analysis_handle_reads : forall ev st,
    Forall Spec.is_read (RustGreenApp.fetches (snd (RustGreenApp.handle ev st))).
Proof.
  intros ev st. destruct ev as [now|[r|m]]; cbn [RustGreenApp.handle].
  - destruct (RustGreenApp.pollingInterval st); [|constructor].
    unfold RustGreenApp.pollSessionStatus.
    destruct (RustGreenApp.currentSessionId st) as [sid|]; [|constructor].
    destruct (negb (truthy sid)); [constructor|].
    destruct (_ >? _)%Z.
    + pose proof (stopPolling_fetches st) as Hf.
      destruct (RustGreenApp.stopPolling st) as [st1 e1]. cbn [snd] in *.
      change (RustGreenApp.ShowMessage ?a ?b :: ?l)
        with ([RustGreenApp.ShowMessage a b] ++ l).
      rewrite !fetches_app, Hf. constructor.
    + repeat constructor.
  - unfold RustGreenApp.pollSessionStatus_resume.
    pose proof (stopPolling_fetches st) as Hf.
    destruct (JsString.eqb (sr_status r) s_completed);
      [|destruct (JsString.eqb (sr_status r) s_failed)];
      [| |constructor];
      destruct (RustGreenApp.stopPolling st) as [st1 e1]; cbn [snd] in *;
      change (RustGreenApp.UpdateProgress ?a ?b :: ?l)
        with ([RustGreenApp.UpdateProgress a b] ++ l);
      rewrite !fetches_app, Hf; [|constructor].
    unfold RustGreenApp.fetchAndDisplayResults.
    destruct (RustGreenApp.currentSessionId st) as [sid|]; [|constructor].
    cbn [truthy_opt]. destruct (truthy sid); repeat constructor.
  - constructor.
Qed.

Lemma analysis_run_reads : forall evs st,
    Forall Spec.is_read (RustGreenApp.fetches (snd (RustGreenApp.run evs st))).
Proof.
  induction evs as [|ev evs IH]; intros st; [constructor|].
  rewrite run_cons. cbn [snd]. rewrite fetches_app. apply Forall_app. split.
  - apply analysis_handle_reads.
  - apply IH.
Qed.

Lemma detail_startPolling_fetches : forall now st,
    Forall Spec.is_read (SessionDetailApp.fetches (snd (SessionDetailApp.startPolling now st))).
Proof.
  intros now st. unfold SessionDetailApp.startPolling.
  cbn [SessionDetailApp.stopPolling fst snd].
  unfold SessionDetailApp.pollSessionStatus.
  destruct (negb _); [|destruct (_ >? _)%Z]; cbn [snd fst SessionDetailApp.stopPolling];
    rewrite ?detail_fetches_app;
    destruct (SessionDetailApp.pollingInterval st); repeat constructor.
Qed.

Lemma detail_handle_reads : forall ev st,
    Forall Spec.is_read (SessionDetailApp.fetches (snd (SessionDetailApp.handle ev st))).
Proof.
  intros ev st. destruct ev as [now|[r|m]|now [s|m]]; cbn [SessionDetailApp.handle].
  - destruct (SessionDetailApp.pollingInterval st) eqn:Hi; [|constructor].
    unfold SessionDetailApp.pollSessionStatus.
    destruct (negb _); [constructor|]. destruct (_ >? _)%Z.
    + cbn. rewrite Hi. constructor.
    + repeat constructor.
  - destruct (SessionDetailApp.is_terminal (sr_status r)) eqn:E.
    + destruct (detail_resume_terminal r st E) as [_ [_ ->]]. repeat constructor.
    + destruct (detail_resume_not_terminal r st E) as [_ ->]. constructor.
  - constructor.
  - unfold SessionDetailApp.loadSessionData_resume.
    match goal with |- context [SessionDetailApp.renderSessionData ?x] =>
      destruct (renderSessionData_loop x) as [_ Hf];
      destruct (SessionDetailApp.renderSessionData x) as [st2 e2] end.
    cbn [snd] in Hf.
    destruct (SessionDetailApp.in_progress (SessionDetailApp.status s)).
    + pose proof (detail_startPolling_fetches now st2) as Hq.
      destruct (SessionDetailApp.startPolling now st2) as [st3 e3]. cbn [snd] in *.
      rewrite detail_fetches_app, Hf. exact Hq.
    + cbn [snd]. rewrite Hf. constructor.
  - constructor.
Qed.

Lemma detail_run_reads : forall evs st,
    Forall Spec.is_read (SessionDetailApp.fetches (snd (SessionDetailApp.run evs st))).
Proof.
  induction evs as [|ev evs IH]; intros st; [constructor|].
  rewrite detail_run_cons. cbn [snd]. rewrite detail_fetches_app.
  apply Forall_app. split; [apply detail_handle_reads|apply IH].
Qed.

End Reads.

(** C6.  Every request that the polling loop and the fetch of the
    results send is a GET request without a body: [getSessionStatus],
    [getSession] and every [apiRequest] without options are, and so is
    every request that a run of the loop of either page sends, the first
    load of the detail page included. *)
Theorem C6_polling_reads_only :
  forall (sid endpoint : jsstring)
         (evs : list RustGreenApp.event) (st : RustGreenApp.state)
         (evs' : list SessionDetailApp.event) (url_id : option jsstring)
         (pg : SessionDetailApp.page),
    Spec.is_read (RustGreenApp.getSessionStatus sid)
    /\ Spec.is_read (RustGreenApp.getSession sid)
    /\ Spec.is_read (apiRequest endpoint no_options)
    /\ Forall Spec.is_read (RustGreenApp.fetches (snd (RustGreenApp.run evs st)))
    /\ Forall Spec.is_read
         (SessionDetailApp.fetches (snd (SessionDetailApp.init url_id pg)))
    /\ Forall Spec.is_read
         (SessionDetailApp.fetches
            (snd (SessionDetailApp.run evs' (fst (SessionDetailApp.init url_id pg))))).
Proof.
  intros. repeat split.
  - apply analysis_run_reads.
  - unfold SessionDetailApp.init. destruct (negb (truthy_opt url_id)); repeat constructor.
  - apply detail_run_reads.
Qed.

(** C1.  The analysis page breaks the claim.  A first session is
    polled twice before its first answer, 'completed', ends its loop; a
    second session is then created, polled and seen 'processing'.  When
    the answer to the second status request of the first session
    arrives, 'completed', the page takes it for the second session: it
    stops the loop of the second session, whose only status seen is
    'processing' and whose timeout has not passed, and requests the
    results of the second session.  Every answer of the run answers a
    request that the page had sent. *)
Theorem C1_late_answer_stops_other_session :
  AnalysisMore.answers_requested
    [] (MoreExamples.first_session ++ MoreExamples.second_session
        ++ [MoreExamples.late_answer]) RustGreenApp.initial = true
  /\ RustGreenApp.polling
       (fst (AnalysisMore.run_arrivals
               (MoreExamples.first_session ++ MoreExamples.second_session)
               RustGreenApp.initial)) = true
  /\ RustGreenApp.currentSessionId
       (fst (AnalysisMore.run_arrivals
               (MoreExamples.first_session ++ MoreExamples.second_session)
               RustGreenApp.initial)) = Some MoreExamples.session_b
  /\ AnalysisMore.observed
       MoreExamples.session_b
       (MoreExamples.first_session ++ MoreExamples.second_session
        ++ [MoreExamples.late_answer]) = [s_processing]
  /\ ~ In (RustGreenApp.ShowMessage RustGreenApp.msg_timeout (of_string "error"))
          (snd (AnalysisMore.run_arrivals
                  (MoreExamples.first_session ++ MoreExamples.second_session
                   ++ [MoreExamples.late_answer]) RustGreenApp.initial))
  /\ RustGreenApp.polling
       (fst (AnalysisMore.run_arrivals
               (MoreExamples.first_session ++ MoreExamples.second_session
                ++ [MoreExamples.late_answer]) RustGreenApp.initial)) = false
  /\ RustGreenApp.fetches
       (snd (AnalysisMore.handle_page
               (AnalysisMore.arrival_event MoreExamples.late_answer)
               (fst (AnalysisMore.run_arrivals
                       (MoreExamples.first_session ++ MoreExamples.second_session)
                       RustGreenApp.initial))))
     = [RustGreenApp.getSession MoreExamples.session_b].
Proof.
  split; [vm_compute; reflexivity|].
  split; [vm_compute; reflexivity|].
  split; [vm_compute; reflexivity|].
  split; [vm_compute; reflexivity|].
  split; [|split; vm_compute; reflexivity].
  intros H. vm_compute in H.
  repeat (destruct H as [H|H]; [discriminate H|]). exact H.
Qed.

(** X20.  On either page the polling loop is still registered after a
    run of its events exactly when none of them was a tick later than
    ten minutes after the start or a status answer that is 'completed'
    or 'failed', whichever request that answer belongs to; for a status
    of the API, not terminal means 'pending' or 'processing'.  While the
    loop is registered a tick sends one status request unless the
    timeout has passed, and once it is not a tick does nothing.
    [startPolling], and [loadSessionData] on a session that is
    'processing' or 'pending', register it with a period of 2000 ms and
    send the first status request. *)
Theorem X20_polling_loop_until_stop :
  forall (evs : list RustGreenApp.event) (st st0 : RustGreenApp.state)
         (sid status : jsstring) (now : Z)
         (evs' : list SessionDetailApp.event) (st' st0' : SessionDetailApp.state)
         (s0 : SessionDetailApp.session),
    RustGreenApp.polling st = true ->
    RustGreenApp.currentSessionId st = Some sid ->
    truthy sid = true ->
    SessionDetailApp.polling st' = true ->
    truthy_opt (SessionDetailApp.sessionId st') = true ->
    forallb SessionDetailApp.loop_event evs' = true ->
    Spec.session_status status ->
    truthy_opt (SessionDetailApp.sessionId st0') = true ->
    SessionDetailApp.in_progress (SessionDetailApp.status s0) = true ->
    (* alive exactly as long as nothing stops it *)
    RustGreenApp.polling (fst (RustGreenApp.run evs st))
    = forallb (fun ev => negb (RustGreenApp.stops st ev)) evs
    /\ SessionDetailApp.polling (fst (SessionDetailApp.run evs' st'))
       = forallb (fun ev => negb (SessionDetailApp.stops st' ev)) evs'
    (* what stops it, in terms of the statuses of the API *)
    /\ (RustGreenApp.is_terminal status = false
        <-> status = s_pending \/ status = s_processing)
    /\ (SessionDetailApp.is_terminal status = false
        <-> status = s_pending \/ status = s_processing)
    /\ (RustGreenApp.is_terminal status = true <-> Spec.terminal status)
    /\ (SessionDetailApp.is_terminal status = true <-> Spec.terminal status)
    (* a tick of the registered loop *)
    /\ RustGreenApp.fetches (snd (RustGreenApp.handle (RustGreenApp.PollTick now) st))
       = (if RustGreenApp.timed_out now st then []
          else [RustGreenApp.getSessionStatus sid])
    /\ SessionDetailApp.fetches
         (snd (SessionDetailApp.handle (SessionDetailApp.PollTick now) st'))
       = (if SessionDetailApp.timed_out now st' then []
          else [SessionDetailApp.status_request st'])
    (* a tick after the loop has stopped *)
    /\ (RustGreenApp.polling (fst (RustGreenApp.run evs st)) = false ->
        RustGreenApp.handle (RustGreenApp.PollTick now) (fst (RustGreenApp.run evs st))
        = (fst (RustGreenApp.run evs st), []))
    /\ (SessionDetailApp.polling (fst (SessionDetailApp.run evs' st')) = false ->
        SessionDetailApp.handle (SessionDetailApp.PollTick now)
                                (fst (SessionDetailApp.run evs' st'))
        = (fst (SessionDetailApp.run evs' st'), []))
    (* how the loop starts *)
    /\ (RustGreenApp.polling (fst (RustGreenApp.startPolling now sid st0)) = true
        /\ RustGreenApp.currentSessionId (fst (RustGreenApp.startPolling now sid st0))
           = Some sid
        /\ RustGreenApp.pollingStartTime (fst (RustGreenApp.startPolling now sid st0))
           = Some now
        /\ RustGreenApp.fetches (snd (RustGreenApp.startPolling now sid st0))
           = [RustGreenApp.getSessionStatus sid]
        /\ exists id, In (RustGreenApp.SetInterval id 2000)
                         (snd (RustGreenApp.startPolling now sid st0)))
    /\ (SessionDetailApp.polling
          (fst (SessionDetailApp.loadSessionData_resume now (Ok s0) st0')) = true
        /\ SessionDetailApp.sessionId
             (fst (SessionDetailApp.loadSessionData_resume now (Ok s0) st0'))
           = SessionDetailApp.sessionId st0'
        /\ SessionDetailApp.pollingStartTime
             (fst (SessionDetailApp.loadSessionData_resume now (Ok s0) st0'))
           = Some now
        /\ SessionDetailApp.fetches
             (snd (SessionDetailApp.loadSessionData_resume now (Ok s0) st0'))
           = [SessionDetailApp.status_request st0']
        /\ exists id, In (SessionDetailApp.SetInterval id 2000)
                         (snd (SessionDetailApp.loadSessionData_resume
                                 now (Ok s0) st0'))).
Proof.
  intros evs st st0 sid status now evs' st' st0' s0
         Hp Hid Ht Hp' Ht' Hl Hs Ht0 Hs0.
  split; [now apply run_polling with (sid := sid)|].
  split; [now apply detail_run_polling|].
  split; [now apply session_status_in_progress|].
  split; [now apply detail_session_status|].
  split; [apply is_terminal_spec|].
  split; [apply detail_is_terminal_spec|].
  split; [now apply tick_fetches|].
  split; [now apply detail_tick_fetches|].
  split; [apply tick_stopped|].
  split; [apply detail_tick_stopped|].
  split.
  { destruct (startPolling_spec now sid st0 Ht) as [A [B [C D]]].
    repeat split; try assumption. apply startPolling_interval. }
  destruct (loadSessionData_resume_in_progress now s0 st0' Ht0 Hs0) as [A [B [C D]]].
  repeat split; try assumption. now apply loadSessionData_resume_interval.
Qed.

(** C3.  A tick later than 600000 ms after the start of the polling
    shows the timeout message, clears the interval and sends no request
    at all, on either page; the ticks that follow do nothing. *)
Theorem C3_timeout_sends_nothing :
  forall (now later : Z) (st : RustGreenApp.state) (sid : jsstring)
         (st' : SessionDetailApp.state),
    RustGreenApp.currentSessionId st = Some sid ->
    truthy sid = true ->
    (now - to_number (RustGreenApp.pollingStartTime st) > 600000)%Z ->
    truthy_opt (SessionDetailApp.sessionId st') = true ->
    (now - to_number (SessionDetailApp.pollingStartTime st') > 600000)%Z ->
    RustGreenApp.fetches (snd (RustGreenApp.pollSessionStatus now st)) = []
    /\ RustGreenApp.polling (fst (RustGreenApp.pollSessionStatus now st)) = false
    /\ In (RustGreenApp.ShowMessage RustGreenApp.msg_timeout (of_string "error"))
          (snd (RustGreenApp.pollSessionStatus now st))
    /\ RustGreenApp.handle (RustGreenApp.PollTick later)
                           (fst (RustGreenApp.pollSessionStatus now st))
       = (fst (RustGreenApp.pollSessionStatus now st), [])
    /\ SessionDetailApp.fetches (snd (SessionDetailApp.pollSessionStatus now st')) = []
    /\ SessionDetailApp.polling (fst (SessionDetailApp.pollSessionStatus now st')) = false
    /\ In (SessionDetailApp.ShowMessage SessionDetailApp.msg_timeout (of_string "error"))
          (snd (SessionDetailApp.pollSessionStatus now st'))
    /\ SessionDetailApp.handle (SessionDetailApp.PollTick later)
                               (fst (SessionDetailApp.pollSessionStatus now st'))
       = (fst (SessionDetailApp.pollSessionStatus now st'), []).
Proof.
  intros now later st sid st' Hid Ht Hto Ht' Hto'.
  assert (Ho : RustGreenApp.timed_out now st = true).
  { unfold RustGreenApp.timed_out. apply Z.gtb_gt. exact Hto. }
  assert (Ho' : SessionDetailApp.timed_out now st' = true).
  { unfold SessionDetailApp.timed_out. apply Z.gtb_gt. exact Hto'. }
  rewrite (pollSessionStatus_timeout now st sid Hid Ht Ho).
  rewrite (detail_timeout now st' Ht' Ho'). cbn [fst snd].
  assert (Hs : RustGreenApp.polling (fst (RustGreenApp.stopPolling st)) = false).
  { unfold RustGreenApp.polling. now destruct (stopPolling_state st) as [-> _]. }
  repeat split.
  - change (RustGreenApp.ShowMessage ?a ?b :: ?l)
      with ([RustGreenApp.ShowMessage a b] ++ l).
    rewrite !fetches_app, stopPolling_fetches. reflexivity.
  - exact Hs.
  - now left.
  - now apply tick_stopped.
  - cbn. destruct (SessionDetailApp.pollingInterval st'); reflexivity.
  - now left.
Qed.

(** X20 on a sample: the analysis page polls a session that is seen
    'processing' and then 'completed', the detail page one that is seen
    'failed'; both loops are stopped at the end. *)
Lemma X20_polling_loop_until_stop_witness :
  RustGreenApp.polling Examples.analysis_polling = true
  /\ SessionDetailApp.polling Examples.detail_polling = true
  /\ RustGreenApp.polling
       (fst (RustGreenApp.run Examples.analysis_events Examples.analysis_polling))
     = false
  /\ SessionDetailApp.polling
       (fst (SessionDetailApp.run Examples.detail_events Examples.detail_polling))
     = false.
Proof.
  pose proof (X20_polling_loop_until_stop
                Examples.analysis_events Examples.analysis_polling
                RustGreenApp.initial Examples.sid s_processing 9000
                Examples.detail_events Examples.detail_polling
                Examples.detail_loading Examples.running_session
                eq_refl eq_refl eq_refl eq_refl eq_refl eq_refl
                (or_intror (or_introl eq_refl)) eq_refl eq_refl) as C.
  destruct C as [C1 [C2 _]].
  split; [reflexivity|]. split; [reflexivity|].
  split; [rewrite C1|rewrite C2]; reflexivity.
Defined.

(** The timeout of C3 on a sample: ten minutes and one millisecond after
    the start. *)
Lemma C3_timeout_sends_nothing_witness :
  RustGreenApp.fetches
    (snd (RustGreenApp.pollSessionStatus 601001 Examples.analysis_polling)) = []
  /\ SessionDetailApp.fetches
       (snd (SessionDetailApp.pollSessionStatus 601001 Examples.detail_polling)) = [].
Proof.
  pose proof (C3_timeout_sends_nothing
                601001 603001 Examples.analysis_polling Examples.sid
                Examples.detail_polling
                eq_refl eq_refl eq_refl eq_refl eq_refl) as C.
  destruct C as [C1 [_ [_ [_ [C2 _]]]]].
  split; assumption.
Defined.

(** ** Submission *)

Section Submission.

Lemma dropWhile_all : forall p s,
    dropWhile p s = [] <-> forallb p s = true.
Proof.
  intros p s. induction s as [|c s IH]; cbn; [tauto|].
  destruct (p c); cbn; [exact IH|]. split; discriminate.
Qed.

Lemma forallb_rev : forall (p : code_unit -> bool) s,
    forallb p (rev s) = forallb p s.
Proof.
  intros p s. induction s as [|c s IH]; [reflexivity|].
  cbn [rev forallb]. rewrite forallb_app, IH. cbn. rewrite andb_true_r.
  apply andb_comm.
Qed.

Lemma dropWhile_suffix : forall p s,
    forallb p (dropWhile p s) = forallb p s.
Proof.
  intros p s. induction s as [|c s IH]; [reflexivity|].
  cbn [dropWhile]. destruct (p c) eqn:E; [|reflexivity].
  cbn [forallb]. now rewrite E.
Qed.

(** The trimmed text is empty exactly when the text is whitespace only. *)
Lemma truthy_trim : forall value,
    truthy (trim value) = negb (forallb is_white_space value).
Proof.
  intros value. unfold trim, trimEnd, trimStart.
  destruct (forallb is_white_space value) eqn:E.
  - apply dropWhile_all in E. rewrite E. reflexivity.
  - assert (H : rev (dropWhile is_white_space (rev (dropWhile is_white_space value))) <> []).
    { intros H. apply (f_equal (@rev code_unit)) in H. rewrite rev_involutive in H.
      cbn in H. apply dropWhile_all in H.
      rewrite forallb_rev, dropWhile_suffix in H. congruence. }
    destruct (rev _); [congruence|reflexivity].
Qed.

Lemma startAnalysis_effects : forall value st,
    RustGreenApp.startAnalysis value st
    = (st,
       if forallb is_white_space value
       then [RustGreenApp.ShowMessage RustGreenApp.msg_empty (of_string "warning")]
       else [RustGreenApp.ShowLoadingButtons;
             RustGreenApp.Fetch (RustGreenApp.createSession (trim value))
                                RustGreenApp.ThenCreated]).
Proof.
  intros value st. unfold RustGreenApp.startAnalysis.
  rewrite truthy_trim, negb_involutive.
  destruct (forallb is_white_space value); reflexivity.
Qed.

Lemma not_white_space_repeat : forall n,
    forallb is_white_space (repeat 97%N (S n)) = false.
Proof. reflexivity. Qed.

End Submission.

(** C4, as amended.  A submission whose text is whitespace only is
    refused in the page: [startAnalysis] shows a warning and sends
    nothing.  Every other text is sent, whatever its length: one
    [POST /sessions] whose body is the trimmed text.  Refusing what is
    too long is left to the server, whose refusal the page reports
    without starting to poll. *)
Theorem C4_submission_validation :
  forall (value message : jsstring) (now : Z) (st : RustGreenApp.state),
    RustGreenApp.startAnalysis value st
    = (st,
       if forallb is_white_space value
       then [RustGreenApp.ShowMessage RustGreenApp.msg_empty (of_string "warning")]
       else [RustGreenApp.ShowLoadingButtons;
             RustGreenApp.Fetch (RustGreenApp.createSession (trim value))
                                RustGreenApp.ThenCreated])
    /\ truthy (trim value) = negb (forallb is_white_space value)
    /\ RustGreenApp.fetches (snd (RustGreenApp.startAnalysis value st))
       = (if forallb is_white_space value then []
          else [RustGreenApp.createSession (trim value)])
    /\ req_method (RustGreenApp.createSession (trim value)) = of_string "POST"
    /\ req_url (RustGreenApp.createSession (trim value))
       = API_BASE_URL ++ of_string "/sessions"
    /\ req_body (RustGreenApp.createSession (trim value))
       = Some [(of_string "code", trim value)]
    /\ RustGreenApp.startAnalysis_resume now (Err message) st
       = (st,
          [RustGreenApp.ShowMessage
             (of_string "Failed to start analysis: " ++ message) (of_string "error");
           RustGreenApp.RestoreAnalysisButtons]).
Proof.
  intros value message now st.
  split; [apply startAnalysis_effects|].
  split; [apply truthy_trim|].
  split.
  { rewrite startAnalysis_effects. cbn [snd].
    destruct (forallb is_white_space value); reflexivity. }
  repeat split.
Qed.

(** C4 as stated fails: there is no length beyond which [startAnalysis]
    sends nothing; a text of [max_length + 1] letters is sent. *)
Lemma C4_oversized_counterexample :
  ~ (exists max_length : nat, Spec.refuses_beyond max_length).
Proof.
  intros [max_length H].
  specialize (H (repeat 97%N (S max_length)) RustGreenApp.initial).
  rewrite startAnalysis_effects, not_white_space_repeat in H.
  rewrite repeat_length in H. specialize (H (Nat.lt_succ_diag_r _)).
  discriminate H.
Qed.

(** ** The error banner *)

Section ErrorBanner.

Import SessionDetailApp.

Lemma updateErrorMessage_cases : forall s pg em et,
    error_message_el pg = Some em -> error_text_el pg = Some et ->
    updateErrorMessage s pg
    = if truthy_opt (error_message s) && JsString.eqb (status s) s_failed
      then {| error_message_el := Some (set_display (of_string "block") em);
              error_text_el :=
                Some (set_textContent (id_text (error_message s)) et);
              progress_display := progress_display pg |}
      else {| error_message_el := Some (set_display (of_string "none") em);
              error_text_el := Some et;
              progress_display := progress_display pg |}.
Proof.
  intros s pg em et Hm Ht. unfold updateErrorMessage. rewrite Hm, Ht.
  destruct (error_message s) as [m|]; [|reflexivity].
  cbn [truthy_opt id_text].
  destruct (truthy m && JsString.eqb (status s) s_failed); reflexivity.
Qed.

Lemma updateErrorMessage_absent : forall s pg,
    error_message_el pg = None \/ error_text_el pg = None ->
    updateErrorMessage s pg = pg.
Proof.
  intros s pg [H|H]; unfold updateErrorMessage; rewrite H;
    [|destruct (error_message_el pg)]; reflexivity.
Qed.

End ErrorBanner.

(** C7, as amended.  On a page that has the banner, the detail page
    shows it, with the session's [error_message] as its text, exactly
    when the status is 'failed' and [error_message] is neither [null] nor
    the empty string; in every other case it hides it. *)
Theorem C7_error_banner :
  forall (s : SessionDetailApp.session) (pg : SessionDetailApp.page)
         (em et : SessionDetailApp.element),
    SessionDetailApp.error_message_el pg = Some em ->
    SessionDetailApp.error_text_el pg = Some et ->
    (Spec.banner_display (SessionDetailApp.updateErrorMessage s pg)
     = Some (of_string "block")
     <-> (SessionDetailApp.status s = s_failed
          /\ exists m, SessionDetailApp.error_message s = Some m /\ m <> []))
    /\ (Spec.banner_display (SessionDetailApp.updateErrorMessage s pg)
        = Some (of_string "block") ->
        Spec.banner_text (SessionDetailApp.updateErrorMessage s pg)
        = SessionDetailApp.error_message s)
    /\ (Spec.banner_display (SessionDetailApp.updateErrorMessage s pg)
        <> Some (of_string "block") ->
        Spec.banner_display (SessionDetailApp.updateErrorMessage s pg)
        = Some (of_string "none")).
Proof.
  intros s pg em et Hm Ht.
  rewrite (updateErrorMessage_cases s pg em et Hm Ht).
  destruct (SessionDetailApp.error_message s) as [[|c m]|] eqn:Em;
    cbn [truthy_opt truthy andb].
  - repeat split; try discriminate; try reflexivity.
    intros [_ [m [H Hn]]]. injection H as <-. now contradiction Hn.
  - destruct (JsString.eqb (SessionDetailApp.status s) s_failed) eqn:Es.
    + apply eqb_eq in Es. repeat split; try reflexivity; try assumption.
      * exists (c :: m). split; [reflexivity|discriminate].
      * intros H. now contradiction H.
    + apply eqb_neq in Es. repeat split; try discriminate; try reflexivity.
      intros [H _]. contradiction.
  - repeat split; try discriminate; try reflexivity.
    intros [_ [m [H _]]]. discriminate H.
Qed.

(** C7 on a sample: a failed session with a message, on a page with the
    banner. *)
Lemma C7_error_banner_witness :
  Spec.banner_display
    (SessionDetailApp.updateErrorMessage Examples.failed_with_text Examples.full_page)
  = Some (of_string "block")
  /\ Spec.banner_text
       (SessionDetailApp.updateErrorMessage Examples.failed_with_text Examples.full_page)
     = Some (of_string "detect: block 2").
Proof.
  pose proof (C7_error_banner Examples.failed_with_text Examples.full_page
                              _ _ eq_refl eq_refl) as [C1 [C2 _]].
  assert (H : Spec.banner_display
                (SessionDetailApp.updateErrorMessage Examples.failed_with_text
                                                     Examples.full_page)
              = Some (of_string "block")).
  { apply C1. split; [reflexivity|].
    exists (of_string "detect: block 2"). split; [reflexivity|discriminate]. }
  split; [exact H|exact (C2 H)].
Defined.

(** C7 as stated fails: a failed session whose [error_message] is the
    empty string has a message that is not [null], and the banner stays
    hidden. *)
Lemma C7_empty_message_counterexample :
  ~ Spec.banner_as_claimed Examples.failed_without_text Examples.full_page.
Proof.
  unfold Spec.banner_as_claimed. intros [_ H].
  assert (E : Spec.banner_display
                (SessionDetailApp.updateErrorMessage Examples.failed_without_text
                                                     Examples.full_page)
              = Some (of_string "block")).
  { apply H. split; [reflexivity|discriminate]. }
  discriminate E.
Qed.

(** ** The pages of the sessions browser *)

Section Pagination.

Import SessionsApp.
Import Spec.

Variable toLowerCase : jsstring -> jsstring.

Lemma total_pages : forall n : nat,
    (let pages := ceil_div (Z.of_nat n) SESSIONS_PER_PAGE in
     if (pages =? 0) then 1 else pages)%Z
    = Z.of_nat (Spec.pages n).
Proof.
  intros n. cbv zeta. unfold ceil_div, SESSIONS_PER_PAGE, Spec.pages.
  rewrite Nat2Z.inj_max, Nat2Z.inj_div, Nat2Z.inj_add.
  destruct (Z.eqb_spec (- (- Z.of_nat n / 10)) 0) as [E|E];
    Z.to_euclidean_division_equations; lia.
Qed.

Lemma insert_length : forall cmp x l,
    length (insert cmp x l) = S (length l).
Proof.
  intros cmp x l. induction l as [|y l IH]; [reflexivity|].
  cbn [insert]. destruct (_ <=? _)%Z; cbn [length]; congruence.
Qed.

Lemma sort_length : forall cmp l, length (sort cmp l) = length l.
Proof.
  intros cmp l. induction l as [|x l IH]; [reflexivity|].
  cbn [sort fold_right]. fold (sort cmp l). now rewrite insert_length, IH.
Qed.

Lemma insert_perm : forall cmp x l, Permutation (x :: l) (insert cmp x l).
Proof.
  intros cmp x l. induction l as [|y l IH]; [reflexivity|].
  cbn [insert]. destruct (_ <=? _)%Z; [reflexivity|].
  rewrite perm_swap. now constructor.
Qed.

(** Sorting rearranges the sessions and loses none. *)
Lemma sort_perm : forall cmp l, Permutation l (sort cmp l).
Proof.
  intros cmp l. induction l as [|x l IH]; [constructor|].
  cbn [sort fold_right]. fold (sort cmp l).
  rewrite <- insert_perm. now constructor.
Qed.

Lemma renderSessions_fields : forall st,
    currentPage (renderSessions st) = currentPage st
    /\ totalPages (renderSessions st) = totalPages st
    /\ filteredSessions (renderSessions st) = filteredSessions st
    /\ allSessions (renderSessions st) = allSessions st.
Proof.
  intros st. unfold renderSessions.
  destruct (sessionsList st); [|auto]. destruct (pageSessions st); cbn; auto.
Qed.

Lemma renderSessions_paged : forall st, paged st -> paged (renderSessions st).
Proof.
  intros st H. unfold paged in *.
  destruct (renderSessions_fields st) as [-> [-> [-> _]]]. exact H.
Qed.

Lemma updatePagination_paged : forall st,
    (1 <= currentPage st)%Z ->
    (currentPage st <= Z.of_nat (Spec.pages (length (filteredSessions st))))%Z ->
    paged (updatePagination st).
Proof.
  intros st H1 H2. unfold paged, updatePagination.
  cbn [totalPages currentPage filteredSessions]. rewrite total_pages. lia.
Qed.

Lemma applySorting_sorted : forall st,
    exists l, length l = length (filteredSessions st)
              /\ applySorting st = renderSessions (updatePagination (set_filtered l st)).
Proof.
  intros st. unfold applySorting.
  destruct (JsString.eqb (currentSort st) (of_string "newest"));
    [|destruct (JsString.eqb (currentSort st) (of_string "oldest"));
      [|destruct (JsString.eqb (currentSort st) (of_string "status"))]];
    eexists; (split; [|reflexivity]); try apply sort_length; reflexivity.
Qed.

Lemma applySorting_paged : forall st,
    (1 <= currentPage st)%Z ->
    (currentPage st <= Z.of_nat (Spec.pages (length (filteredSessions st))))%Z ->
    paged (applySorting st).
Proof.
  intros st H1 H2. destruct (applySorting_sorted st) as [l [Hl ->]].
  apply renderSessions_paged, updatePagination_paged;
    cbn [set_filtered currentPage filteredSessions]; [assumption|].
  now rewrite Hl.
Qed.

Lemma pages_positive : forall n, (1 <= Z.of_nat (Spec.pages n))%Z.
Proof. intros n. unfold Spec.pages. lia. Qed.

Lemma applyFilters_paged : forall st, paged (applyFilters toLowerCase st).
Proof.
  intros st. unfold applyFilters. apply applySorting_paged;
    cbn [currentPage filteredSessions]; [lia|apply pages_positive].
Qed.

Lemma paged_bounds : forall st,
    paged st ->
    (1 <= currentPage st)%Z
    /\ (currentPage st <= Z.of_nat (Spec.pages (length (filteredSessions st))))%Z.
Proof. intros st [H1 H2]. rewrite <- H1. lia. Qed.

Lemma handle_paged : forall ev st, paged st -> paged (handle toLowerCase ev st).
Proof.
  intros ev st H. destruct ev as [v|v| |[sessions|m]| |]; cbn [handle].
  - apply applyFilters_paged.
  - destruct (paged_bounds st H). now apply applySorting_paged.
  - unfold loadSessions. destruct (sessionsList st); assumption.
  - unfold loadSessions_resume.
    match goal with |- context [applyFilters toLowerCase ?x] =>
      pose proof (applyFilters_paged x) as Hf;
      set (st2 := applyFilters toLowerCase x) in * end.
    destruct (paged_bounds st2 Hf) as [Ha Hb].
    pose proof (applySorting_paged st2 Ha Hb) as Hs.
    destruct (paged_bounds _ Hs) as [Hc Hd].
    pose proof (renderSessions_paged _ (updatePagination_paged _ Hc Hd)) as Hr.
    destruct sessions; [|exact Hr].
    match goal with |- paged (match ?x with _ => _ end) => destruct x end; exact Hr.
  - unfold loadSessions_resume. destruct (sessionsList st); assumption.
  - destruct (Z.gtb_spec (currentPage st) 1); [|assumption].
    apply renderSessions_paged. destruct H as [H1 H2].
    unfold paged. cbn [set_page totalPages currentPage filteredSessions].
    split; [assumption|lia].
  - destruct (Z.ltb_spec (currentPage st) (totalPages st)); [|assumption].
    apply renderSessions_paged. destruct H as [H1 H2].
    unfold paged. cbn [set_page totalPages currentPage filteredSessions].
    split; [assumption|lia].
Qed.

Lemma init_paged : forall list_element, paged (init list_element).
Proof.
  intros [|]; unfold paged; cbn; split; try reflexivity; lia.
Qed.

Lemma run_paged : forall evs st, paged st -> paged (run toLowerCase evs st).
Proof.
  induction evs as [|ev evs IH]; intros st H; [exact H|].
  cbn [run fold_left]. apply IH. now apply handle_paged.
Qed.

Lemma renderSessions_has_list : forall st,
    has_list (renderSessions st) = has_list st.
Proof.
  intros st. unfold renderSessions, has_list.
  destruct (sessionsList st) eqn:E; [|now rewrite E].
  destruct (pageSessions st); reflexivity.
Qed.

Lemma applySorting_has_list : forall st, has_list (applySorting st) = has_list st.
Proof.
  intros st. destruct (applySorting_sorted st) as [l [_ ->]].
  now rewrite renderSessions_has_list.
Qed.

Lemma handle_has_list : forall ev st,
    has_list (handle toLowerCase ev st) = has_list st.
Proof.
  intros ev st. destruct ev as [v|v| |[sessions|m]| |]; cbn [handle].
  - unfold applyFilters. now rewrite applySorting_has_list.
  - now rewrite applySorting_has_list.
  - unfold loadSessions, has_list. destruct (sessionsList st) eqn:E; [reflexivity|].
    now rewrite E.
  - unfold loadSessions_resume.
    match goal with |- context [renderSessions ?x] =>
      assert (Hh : has_list (renderSessions x) = has_list st);
      [|set (st2 := renderSessions x) in *] end.
    { rewrite renderSessions_has_list. unfold updatePagination, has_list at 1.
      cbn [sessionsList]. fold (has_list (applySorting (applyFilters toLowerCase
        {| currentPage := currentPage st; totalPages := totalPages st;
           totalSessions := totalSessions st; allSessions := sessions;
           filteredSessions := sessions; currentFilter := currentFilter st;
           currentSort := currentSort st; sessionsList := sessionsList st |}))).
      rewrite applySorting_has_list. unfold applyFilters.
      now rewrite applySorting_has_list. }
    destruct sessions; [|exact Hh].
    unfold has_list in *.
    destruct (sessionsList st2) eqn:E; [exact Hh|rewrite E; exact Hh].
  - unfold loadSessions_resume, has_list.
    destruct (sessionsList st) eqn:E; [reflexivity|]. now rewrite E.
  - destruct (_ >? _)%Z; [|reflexivity]. now rewrite renderSessions_has_list.
  - destruct (_ <? _)%Z; [|reflexivity]. now rewrite renderSessions_has_list.
Qed.

Lemma run_has_list : forall evs st,
    has_list (run toLowerCase evs st) = has_list st.
Proof.
  induction evs as [|ev evs IH]; intros st; [reflexivity|].
  cbn [run fold_left]. fold (run toLowerCase evs (handle toLowerCase ev st)).
  now rewrite IH, handle_has_list.
Qed.

(** On a page in range, the [slice] of [renderSessions] is the page. *)
Lemma pageSessions_page_of : forall st,
    (1 <= currentPage st)%Z ->
    pageSessions st = Spec.page_of (filteredSessions st) (Z.to_nat (currentPage st)).
Proof.
  intros st H. unfold pageSessions, slice, Spec.page_of, relative_index, SESSIONS_PER_PAGE.
  set (l := filteredSessions st). set (p := currentPage st) in *.
  destruct (Z.ltb_spec ((p - 1) * 10) 0); [lia|].
  destruct (Z.ltb_spec (Z.min ((p - 1) * 10 + 10) (Z.of_nat (length l))) 0); [lia|].
  destruct (Z_le_gt_dec ((p - 1) * 10) (Z.of_nat (length l))) as [Hle|Hgt].
  - replace (Z.to_nat (Z.min ((p - 1) * 10) (Z.of_nat (length l))))
      with ((Z.to_nat p - 1) * 10) by lia.
    f_equal. lia.
  - rewrite (skipn_all2 l) by lia.
    rewrite (skipn_all2 (n := (Z.to_nat p - 1) * 10) l) by lia.
    now rewrite !firstn_nil.
Qed.

Lemma renderSessions_shown : forall st,
    Spec.shown (sessionsList (renderSessions st))
    = if has_list st then pageSessions st else [].
Proof.
  intros st. unfold renderSessions, has_list.
  destruct (sessionsList st) eqn:E; [|now rewrite E].
  destruct (pageSessions st); reflexivity.
Qed.

End Pagination.

(** C10.  After the start of the sessions browser and any sequence of
    filter changes, sort changes, refreshes, arrivals of the list, and
    clicks on next and previous, the number of pages is
    max(1, ceil(n / 10)) for the [n] filtered sessions, the current page
    lies between 1 and that number, and [renderSessions] shows the
    filtered sessions from index [(currentPage - 1) * 10] up to
    [min (currentPage * 10) n] (on a document that has the list). *)
Theorem C10_pagination_invariant :
  forall (toLowerCase : jsstring -> jsstring) (list_element : bool)
         (evs : list SessionsApp.event),
    let st := SessionsApp.run toLowerCase evs (SessionsApp.init list_element) in
    SessionsApp.totalPages st
    = Z.of_nat (Spec.pages (length (SessionsApp.filteredSessions st)))
    /\ (1 <= SessionsApp.currentPage st <= SessionsApp.totalPages st)%Z
    /\ SessionsApp.pageSessions st
       = Spec.page_of (SessionsApp.filteredSessions st)
                      (Z.to_nat (SessionsApp.currentPage st))
    /\ Spec.shown (SessionsApp.sessionsList (SessionsApp.renderSessions st))
       = (if list_element then SessionsApp.pageSessions st else []).
Proof.
  intros toLowerCase list_element evs st.
  assert (H : Spec.paged st) by apply run_paged, init_paged.
  destruct H as [H1 H2]. repeat split; try assumption; try lia.
  - apply pageSessions_page_of. lia.
  - rewrite renderSessions_shown. unfold st. rewrite run_has_list.
    destruct list_element; reflexivity.
Qed.

(** ** The progress that the server reports *)

Section Progress.

Import Server.

Lemma progress_after_bounds : forall completed total,
    0 < total -> completed <= total ->
    (0 <= progress_after completed total <= 100)%Z.
Proof.
  intros k n Hn Hk. unfold progress_after, round_div. split.
  - apply Z.div_pos; lia.
  - apply Z.lt_succ_r. apply Z.div_lt_upper_bound; lia.
Qed.

Lemma progress_after_mono : forall completed completed' total,
    0 < total -> completed <= completed' ->
    (progress_after completed total <= progress_after completed' total)%Z.
Proof.
  intros k k' n Hn Hk. unfold progress_after, round_div.
  apply Z.div_le_mono; lia.
Qed.

Lemma progress_after_all : forall total,
    0 < total -> progress_after total total = 100%Z.
Proof.
  intros n Hn. unfold progress_after, round_div.
  apply Z.le_antisymm.
  - apply Z.lt_succ_r. apply Z.div_lt_upper_bound; lia.
  - apply Z.div_le_lower_bound; lia.
Qed.

Lemma progress_after_none : forall total,
    0 < total -> progress_after 0 total = 0%Z.
Proof.
  intros n Hn. unfold progress_after, round_div.
  apply Z.div_small. lia.
Qed.

Lemma created_consistent : consistent created.
Proof. unfold consistent. cbn. lia. Qed.

Lemma worker_step_consistent : forall ev s,
    consistent s ->
    consistent (worker_step ev s) /\ (progress s <= progress (worker_step ev s))%Z.
Proof.
  intros ev s [Hb Hs]. destruct s as [st p msg total completed].
  unfold consistent.
  cbn [status_of progress totalBlocks blocksCompleted] in *.
  destruct ev as [blocks| |message]; destruct st;
    cbn -[Nat.ltb Nat.eqb progress_after];
    try (split; [split; assumption|lia]).
  - (* picked up while pending *)
    destruct blocks as [|blocks]; cbn -[progress_after].
    + split; [split; [lia|reflexivity]|lia].
    + subst p. rewrite progress_after_none by lia.
      split; [split; [lia|split; [lia|reflexivity]]|lia].
  - (* a block finished while processing *)
    destruct Hs as [Hlt Hp].
    destruct (Nat.ltb_spec completed total) as [_|Hge]; [|lia].
    assert (Hm : (p <= progress_after (S completed) total)%Z).
    { subst p. apply progress_after_mono; lia. }
    pose proof (progress_after_bounds (S completed) total) as Hbd.
    destruct (Nat.eqb_spec (S completed) total) as [E|E];
      cbn -[progress_after].
    + rewrite E, progress_after_all by lia.
      split; [split; [lia|reflexivity]|].
      rewrite E, progress_after_all in Hm by lia. exact Hm.
    + split; [split; [apply Hbd; lia|split; [lia|reflexivity]]|exact Hm].
  - (* a block failed while processing *)
    split; [split; [assumption|exact I]|lia].
Qed.

(** The polls of a schedule: each answer within 0 and 100 and not below
    what the session has reached, the answers in ascending order. *)
Lemma polled_sorted : forall schedule s,
    consistent s ->
    Forall (fun p => progress s <= p <= 100)%Z (polled schedule s)
    /\ StronglySorted Z.le (polled schedule s).
Proof.
  induction schedule as [|[ev|] rest IH]; intros s Hs; cbn [polled].
  - split; constructor.
  - destruct (worker_step_consistent ev s Hs) as [Hs' Hle].
    destruct (IH _ Hs') as [Hf Hso]. split; [|exact Hso].
    eapply Forall_impl; [|exact Hf]. cbn. intros p Hp. lia.
  - destruct (IH _ Hs) as [Hf Hso]. cbn [status_body sr_progress].
    split.
    + constructor; [destruct Hs; lia|exact Hf].
    + constructor; [exact Hso|].
      eapply Forall_impl; [|exact Hf]. cbn. intros p Hp. lia.
Qed.

End Progress.

(** C5.  For a session from its creation on, whatever the worker does
    to it and whenever it is polled, every progress that a poll returns
    is an integer from 0 to 100, and the progresses of successive polls
    never decrease. *)
Theorem C5_progress_monotone :
  forall schedule : list Server.action,
    Forall (fun p => 0 <= p <= 100)%Z (Server.polled schedule Server.created)
    /\ StronglySorted Z.le (Server.polled schedule Server.created).
Proof.
  intros schedule.
  destruct (polled_sorted schedule Server.created created_consistent) as [Hf Hs].
  split; [|exact Hs].
  eapply Forall_impl; [|exact Hf]. cbn. intros p Hp. exact Hp.
Qed.

(** ** Terminal states *)

Section Terminal.

Import SessionDetailApp.
Import System.

(** No step of the worker changes a session that is COMPLETED or FAILED. *)
Lemma worker_step_terminal : forall ev s,
    Server.is_terminal (Server.status_of s) = true -> Server.worker_step ev s = s.
Proof.
  intros ev [st p msg total completed] H. cbn in H.
  destruct st; try discriminate H; destruct ev; reflexivity.
Qed.

Lemma Transition_terminal : forall newStatus message s,
    Server.is_terminal (Server.status_of s) = true ->
    Server.Transition newStatus message s = inr Server.InvalidTransitionError.
Proof.
  intros newStatus message [st p msg total completed] H. cbn in H.
  destruct st; try discriminate H; destruct newStatus; reflexivity.
Qed.

Lemma wire_terminal : forall st,
    is_terminal (Server.wire st) = Server.is_terminal st.
Proof. intros []; reflexivity. Qed.

Lemma wire_in_progress : forall st,
    in_progress (Server.wire st) = negb (Server.is_terminal st).
Proof. intros []; reflexivity. Qed.

Lemma outgoing_app : forall a b, outgoing (a ++ b) = outgoing a ++ outgoing b.
Proof. intros. unfold outgoing. apply flat_map_app. Qed.

Lemma updateProgressFromStatus_outgoing : forall r st,
    outgoing (snd (updateProgressFromStatus r st)) = [].
Proof.
  intros r st. unfold updateProgressFromStatus. destruct (sessionData st); reflexivity.
Qed.

Lemma stopPolling_outgoing : forall st, outgoing (snd (stopPolling st)) = [].
Proof. intros st. cbn. destruct (pollingInterval st); reflexivity. Qed.

Lemma renderSessionData_outgoing : forall st,
    outgoing (snd (renderSessionData st)) = [].
Proof.
  intros st. unfold renderSessionData.
  destruct (sessionData st) as [s|]; [|reflexivity].
  unfold updateProgressDisplay. cbn [dom progress_display].
  destruct (progress_display (updateErrorMessage s (dom st))); [|reflexivity].
  destruct (in_progress (status s)).
  - cbn [timeElapsedInterval]. destruct (timeElapsedInterval st); reflexivity.
  - unfold stopTimeElapsedCounter. cbn [timeElapsedInterval].
    destruct (timeElapsedInterval st); reflexivity.
Qed.

(** A status that is terminal arrives: the loop is stopped and the
    session is loaded once more. *)
Lemma status_observed : forall r st,
    observes r = true ->
    pollingInterval (fst (handle (StatusArrived r) st)) = None
    /\ outgoing (snd (handle (StatusArrived r) st)) = [SessionPending].
Proof.
  intros [r|m] st H; [|discriminate H]. cbn [observes] in H.
  cbn [handle]. unfold pollSessionStatus_resume. rewrite H.
  pose proof (updateProgressFromStatus_outgoing r st) as Ho.
  destruct (updateProgressFromStatus r st) as [st1 e1]. cbn [snd] in Ho.
  cbn [stopPolling loadSessionData fst snd with_polling pollingInterval].
  split; [reflexivity|].
  rewrite !outgoing_app, Ho. destruct (pollingInterval st1); reflexivity.
Qed.

(** Any other answer to a status request leaves the loop as it is. *)
Lemma status_not_observed : forall r st,
    observes r = false ->
    pollingInterval (fst (handle (StatusArrived r) st)) = pollingInterval st
    /\ outgoing (snd (handle (StatusArrived r) st)) = [].
Proof.
  intros [r|m] st H; [|split; reflexivity]. cbn [observes] in H.
  cbn [handle]. unfold pollSessionStatus_resume. rewrite H.
  pose proof (updateProgressFromStatus_outgoing r st) as Ho.
  destruct (updateProgressFromStatus_loop r st) as [[_ [Hi _]] _].
  destruct (updateProgressFromStatus r st) as [st1 e1]. now split.
Qed.

Lemma pollSessionStatus_outgoing : forall now st,
    Forall (fun m => m = StatusPending) (outgoing (snd (pollSessionStatus now st))).
Proof.
  intros now st. unfold pollSessionStatus.
  destruct (negb _); [constructor|]. destruct (_ >? _)%Z.
  - cbn. destruct (pollingInterval st); constructor.
  - repeat constructor.
Qed.

Lemma tick_outgoing : forall now st,
    Forall (fun m => m = StatusPending) (outgoing (snd (handle (PollTick now) st))).
Proof.
  intros now st. cbn [handle].
  destruct (pollingInterval st); [apply pollSessionStatus_outgoing|constructor].
Qed.

Lemma startPolling_outgoing : forall now st,
    Forall (fun m => m = StatusPending) (outgoing (snd (startPolling now st))).
Proof.
  intros now st. unfold startPolling.
  pose proof (stopPolling_outgoing st) as Hs.
  destruct (stopPolling st) as [st1 e1]. cbn [snd] in Hs.
  match goal with |- context [pollSessionStatus now ?x] =>
    pose proof (pollSessionStatus_outgoing now x) as Hp;
    destruct (pollSessionStatus now x) as [st3 e3] end.
  cbn [snd] in *. rewrite !outgoing_app, Hs. cbn [app].
  apply Forall_app. split; [exact Hp|constructor].
Qed.

Lemma session_arrived_outgoing : forall now r st,
    Forall (fun m => m = StatusPending)
           (outgoing (snd (handle (SessionArrived now r) st))).
Proof.
  intros now [s|m] st; cbn [handle]; unfold loadSessionData_resume; [|constructor].
  match goal with |- context [renderSessionData ?x] =>
    pose proof (renderSessionData_outgoing x) as Hr;
    destruct (renderSessionData x) as [st2 e2] end.
  cbn [snd] in Hr. destruct (in_progress (status s)).
  - pose proof (startPolling_outgoing now st2) as Hp.
    destruct (startPolling now st2) as [st3 e3]. cbn [snd] in *.
    now rewrite outgoing_app, Hr.
  - cbn [snd]. rewrite Hr. constructor.
Qed.

(** An answer to [loadSessionData] that does not say 'processing' or
    'pending' starts nothing. *)
Lemma session_arrived_idle : forall now r st,
    stale false (SessionSettled r) = false ->
    pollingInterval (fst (handle (SessionArrived now r) st)) = pollingInterval st
    /\ outgoing (snd (handle (SessionArrived now r) st)) = [].
Proof.
  intros now [s|m] st H; cbn [handle]; unfold loadSessionData_resume;
    [|split; reflexivity].
  cbn [stale] in H. rewrite H.
  match goal with |- context [renderSessionData ?x] =>
    pose proof (renderSessionData_outgoing x) as Hr;
    destruct (renderSessionData_loop x) as [[_ [Hi _]] _];
    destruct (renderSessionData x) as [st2 e2] end.
  now split.
Qed.

Lemma in_middle : forall (A : Type) (m x : A) l1 l2,
    In m (l1 ++ x :: l2) <-> m = x \/ In m (l1 ++ l2).
Proof.
  intros A m x l1 l2. rewrite !in_app_iff. cbn. intuition congruence.
Qed.

Lemma singleton_middle : forall (A : Type) (m x : A) l1 l2,
    l1 ++ x :: l2 = [m] -> l1 = [] /\ l2 = [] /\ x = m.
Proof.
  intros A m x [|a l1] l2 H; cbn in H.
  - injection H as -> ->. auto.
  - injection H as _ H. destruct l1; discriminate H.
Qed.

Lemma stale_terminal : forall m, stale true m = true -> stale false m = true.
Proof. intros [| |r|[s|e]]; cbn; auto. Qed.

(** A request is answered, or fails: the message changes where it is. *)
Lemma replaced_invariant : forall sys l1 l2 a b,
    invariant sys ->
    network sys = l1 ++ a :: l2 ->
    (forall r, b = StatusSettled (Ok r) -> is_terminal (sr_status r) = true ->
               server_terminal sys = true) ->
    (stale (server_terminal sys) b = true -> stale (server_terminal sys) a = true) ->
    invariant (with_network (l1 ++ b :: l2) sys).
Proof.
  intros sys l1 l2 a b [I1 [I2 [I3 I4]]] Hn Hb Hs.
  unfold invariant, server_terminal in *.
  cbn [with_network server client network observed_terminal].
  repeat split; try assumption.
  - intros r Hin Ht. apply in_middle in Hin as [E|Hin].
    + now apply (Hb r).
    + apply (I3 r); [|exact Ht]. rewrite Hn. apply in_middle. now right.
  - apply in_middle in H as [->|Hin].
    + destruct (I4 a) as [E _]; [rewrite Hn; apply in_middle; now left|now apply Hs|].
      rewrite Hn in E. apply singleton_middle in E as [-> [-> _]]. reflexivity.
    + destruct (I4 m) as [E _]; [rewrite Hn; apply in_middle; now right|assumption|].
      rewrite Hn in E. apply singleton_middle in E as [-> [-> _]]. destruct Hin.
  - apply in_middle in H as [->|Hin].
    + apply (I4 a); [rewrite Hn; apply in_middle; now left|now apply Hs].
    + apply (I4 m); [rewrite Hn; apply in_middle; now right|assumption].
  - apply in_middle in H as [->|Hin].
    + apply (I4 a); [rewrite Hn; apply in_middle; now left|now apply Hs].
    + apply (I4 m); [rewrite Hn; apply in_middle; now right|assumption].
Qed.

Lemma start_invariant : forall sid pg s0, invariant (start sid pg s0).
Proof.
  intros sid pg s0. unfold invariant, start, init.
  destruct (negb (truthy_opt sid)); cbn; repeat split; try discriminate;
    try contradiction; try tauto.
  - intros r [H|[]]. discriminate H.
  - destruct H as [<-|[]]. reflexivity.
Qed.

Lemma step_invariant : forall sid sys sys',
    step sid sys sys' -> invariant sys -> invariant sys'.
Proof.
  intros sid sys sys' Hstep Hinv.
  destruct Hstep as [ev sys|l1 l2 sys Hn|l1 l2 sys Hn|l1 l2 m sys Hn|l1 l2 m sys Hn
                     |l1 l2 r sys Hn|l1 l2 now r sys Hn|now sys Hp].
  - (* the worker *)
    destruct Hinv as [I1 [I2 [I3 I4]]]. unfold invariant, server_terminal in *.
    cbn [server client network observed_terminal].
    assert (Hk : Server.is_terminal (Server.status_of (server sys)) = true ->
                 Server.is_terminal
                   (Server.status_of (Server.worker_step ev (server sys))) = true).
    { intros H. now rewrite worker_step_terminal. }
    repeat split; auto.
    + intros r Hin Ht. apply Hk. now apply (I3 r).
    + apply (I4 m H).
      destruct (Server.is_terminal (Server.status_of (server sys))) eqn:E;
        [rewrite (Hk eq_refl) in H0|]; [exact H0|].
      destruct (Server.is_terminal _) in H0; [now apply stale_terminal|exact H0].
    + apply (I4 m H).
      destruct (Server.is_terminal (Server.status_of (server sys))) eqn:E;
        [rewrite (Hk eq_refl) in H0|]; [exact H0|].
      destruct (Server.is_terminal _) in H0; [now apply stale_terminal|exact H0].
    + apply (I4 m H).
      destruct (Server.is_terminal (Server.status_of (server sys))) eqn:E;
        [rewrite (Hk eq_refl) in H0|]; [exact H0|].
      destruct (Server.is_terminal _) in H0; [now apply stale_terminal|exact H0].
  - (* the server answers a status request *)
    apply (replaced_invariant sys l1 l2 StatusPending _ Hinv Hn).
    + intros r E Ht. injection E as <-. cbn in Ht.
      rewrite wire_terminal in Ht. exact Ht.
    + discriminate.
  - (* the server answers a session request *)
    apply (replaced_invariant sys l1 l2 SessionPending _ Hinv Hn).
    + discriminate.
    + cbn [stale Server.session_body status]. rewrite wire_in_progress.
      unfold server_terminal. auto.
  - apply (replaced_invariant sys l1 l2 StatusPending _ Hinv Hn); discriminate.
  - apply (replaced_invariant sys l1 l2 SessionPending _ Hinv Hn); discriminate.
  - (* a status arrives *)
    destruct Hinv as [I1 [I2 [I3 I4]]].
    assert (Hq : forall m, In m (l1 ++ l2) ->
                           stale (server_terminal sys) m = true -> False).
    { intros m Hin Hs. destruct (I4 m) as [E _];
        [rewrite Hn; apply in_middle; now right|assumption|].
      rewrite Hn in E. apply singleton_middle in E as [-> [-> _]]. destruct Hin. }
    unfold invariant, server_terminal in *.
    cbn [deliver server client network observed_terminal].
    destruct (observes r) eqn:Ho.
    + destruct (status_observed r (client sys) Ho) as [Hi Hout]. rewrite Hi, Hout.
      assert (T : Server.is_terminal (Server.status_of (server sys)) = true).
      { destruct r as [r|m]; [|discriminate Ho].
        apply (I3 r); [rewrite Hn; apply in_middle; now left|exact Ho]. }
      repeat split; auto.
      * apply in_app_iff in H as [H|[<-|[]]]; [now destruct (Hq m)|].
        cbn in H0. rewrite T in H0. discriminate H0.
      * rewrite orb_true_r. apply in_app_iff in H as [H|[<-|[]]]; [now destruct (Hq m)|].
        cbn in H0. rewrite T in H0. discriminate H0.
    + destruct (status_not_observed r (client sys) Ho) as [Hi Hout].
      rewrite Hi, Hout, app_nil_r, orb_false_r.
      repeat split; auto.
      * intros r' Hin Ht. apply (I3 r'); [|exact Ht].
        rewrite Hn. apply in_middle. now right.
      * now destruct (Hq m).
      * now destruct (Hq m).
      * now destruct (Hq m).
  - (* a session arrives *)
    destruct Hinv as [I1 [I2 [I3 I4]]].
    unfold invariant, server_terminal in *.
    cbn [deliver server client network observed_terminal].
    rewrite orb_false_r.
    pose proof (session_arrived_outgoing now r (client sys)) as Hout.
    destruct (stale false (SessionSettled r)) eqn:Hs.
    + (* it says the session is running: this is the first load *)
      destruct (I4 (SessionSettled r)) as [E [Hi Hobs]];
        [rewrite Hn; apply in_middle; now left
        |destruct r as [s|m]; [exact Hs|discriminate Hs]|].
      rewrite Hn in E. apply singleton_middle in E as [-> [-> _]]. cbn [app].
      rewrite Hobs. repeat split; try discriminate.
      * intros r' Hin. rewrite Forall_forall in Hout.
        apply Hout in Hin. discriminate Hin.
      * rewrite Forall_forall in Hout. apply Hout in H. subst m. discriminate H0.
      * rewrite Forall_forall in Hout. apply Hout in H. subst m. discriminate H0.
    + destruct (session_arrived_idle now r (client sys) Hs) as [Hi Ho].
      rewrite Hi, Ho, app_nil_r.
      assert (Hq : forall m, In m (l1 ++ l2) ->
                             stale (Server.is_terminal (Server.status_of (server sys))) m
                             = true -> False).
      { intros m Hin Hm. destruct (I4 m) as [E _];
          [rewrite Hn; apply in_middle; now right|assumption|].
        rewrite Hn in E. apply singleton_middle in E as [-> [-> _]]. destruct Hin. }
      repeat split; auto.
      * intros r' Hin Ht. apply (I3 r'); [|exact Ht].
        rewrite Hn. apply in_middle. now right.
      * now destruct (Hq m).
      * now destruct (Hq m).
      * now destruct (Hq m).
  - (* the interval fires *)
    destruct Hinv as [I1 [I2 [I3 I4]]].
    unfold invariant, server_terminal in *.
    cbn [deliver server client network observed_terminal].
    rewrite orb_false_r.
    pose proof (tick_outgoing now (client sys)) as Hout.
    rewrite Forall_forall in Hout.
    assert (Hobs : observed_terminal sys = false).
    { destruct (observed_terminal sys); [|reflexivity]. now destruct Hp; apply I2. }
    assert (Hq : forall m,
               In m (network sys ++ outgoing (snd (handle (PollTick now) (client sys)))) ->
               stale (Server.is_terminal (Server.status_of (server sys))) m = true ->
               False).
    { intros m Hin Hm. apply in_app_iff in Hin as [Hin|Hin].
      - destruct (I4 m Hin Hm) as [_ [Hi _]]. contradiction.
      - apply Hout in Hin. subst m. discriminate Hm. }
    rewrite Hobs. repeat split; try discriminate.
    + intros r Hin Ht. apply in_app_iff in Hin as [Hin|Hin]; [now apply (I3 r)|].
      apply Hout in Hin. discriminate Hin.
    + now destruct (Hq m).
    + now destruct (Hq m).
Qed.

Lemma reachable_invariant : forall sid pg s0 sys,
    reachable sid pg s0 sys -> invariant sys.
Proof.
  intros sid pg s0 sys H. induction H as [|sys sys' _ IH Hs].
  - apply start_invariant.
  - exact (step_invariant sid sys sys' Hs IH).
Qed.

Lemma loadSessionData_starts_iff : forall now r st,
    SessionDetailApp.polling st = false ->
    truthy_opt (sessionId st) = true ->
    (SessionDetailApp.polling (fst (loadSessionData_resume now r st)) = true
     <-> exists s, r = Ok s /\ (status s = s_processing \/ status s = s_pending)).
Proof.
  intros now r st Hp Ht. split.
  - intros H. destruct r as [s|m].
    + destruct (in_progress (status s)) eqn:E.
      * exists s. split; [reflexivity|]. now apply detail_in_progress_spec.
      * destruct (loadSessionData_resume_otherwise now (Ok s) st E) as [[_ [Hi _]] _].
        unfold SessionDetailApp.polling in *. rewrite Hi in H. congruence.
    + destruct (loadSessionData_resume_otherwise now (Err m) st I) as [[_ [Hi _]] _].
      unfold SessionDetailApp.polling in *. rewrite Hi in H. congruence.
  - intros [s [-> Hs]]. apply detail_in_progress_spec in Hs.
    now destruct (loadSessionData_resume_in_progress now s st Ht Hs).
Qed.

End Terminal.

(** C2.  No step of the worker and no [Transition] changes a session
    that is COMPLETED or FAILED.  A status 'completed' or 'failed' that
    arrives stops the loop of either page, and no event of the loop of
    the analysis page registers it again.  [loadSessionData] starts the
    loop exactly when the session it fetched is 'processing' or
    'pending'; so in every state that the detail page, the server and
    the requests between them can reach, once a poll has returned a
    terminal status the session is terminal and the loop is not
    registered. *)
Theorem C2_terminal_absorbing :
  forall (s : Server.session) (ev : Server.worker_event)
         (newStatus : Server.status) (message : option jsstring)
         (r : status_response)
         (stA : RustGreenApp.state) (evs : list RustGreenApp.event)
         (stD stL : SessionDetailApp.state) (now : Z)
         (resp : response SessionDetailApp.session)
         (sid : jsstring) (pg : SessionDetailApp.page) (s0 : Server.session)
         (sys : System.system),
    Server.is_terminal (Server.status_of s) = true ->
    Spec.terminal (sr_status r) ->
    SessionDetailApp.polling stL = false ->
    truthy_opt (SessionDetailApp.sessionId stL) = true ->
    System.reachable sid pg s0 sys ->
    System.observed_terminal sys = true ->
    Server.worker_step ev s = s
    /\ Server.Transition newStatus message s = inr Server.InvalidTransitionError
    /\ RustGreenApp.polling
         (fst (RustGreenApp.pollSessionStatus_resume (Ok r) stA)) = false
    /\ RustGreenApp.polling
         (fst (RustGreenApp.run
                 evs (fst (RustGreenApp.pollSessionStatus_resume (Ok r) stA)))) = false
    /\ SessionDetailApp.polling
         (fst (SessionDetailApp.pollSessionStatus_resume (Ok r) stD)) = false
    /\ (SessionDetailApp.polling
          (fst (SessionDetailApp.loadSessionData_resume now resp stL)) = true
        <-> exists s', resp = Ok s'
                       /\ (SessionDetailApp.status s' = s_processing
                           \/ SessionDetailApp.status s' = s_pending))
    /\ Server.is_terminal (Server.status_of (System.server sys)) = true
    /\ SessionDetailApp.polling (System.client sys) = false.
Proof.
  intros s ev newStatus message r stA evs stD stL now resp sid pg s0 sys
         Hs Hr Hp Ht Hreach Hobs.
  assert (HA : RustGreenApp.polling
                 (fst (RustGreenApp.pollSessionStatus_resume (Ok r) stA)) = false).
  { apply is_terminal_spec in Hr. rewrite (resume_terminal r stA Hr).
    unfold RustGreenApp.polling. now destruct (stopPolling_state stA) as [-> _]. }
  destruct (reachable_invariant sid pg s0 sys Hreach) as [I1 [I2 _]].
  split; [now apply worker_step_terminal|].
  split; [now apply Transition_terminal|].
  split; [exact HA|].
  split; [now apply run_stopped|].
  split.
  { apply detail_is_terminal_spec in Hr.
    destruct (detail_resume_terminal r stD Hr) as [Hi _].
    unfold SessionDetailApp.polling. now rewrite Hi. }
  split; [now apply loadSessionData_starts_iff|].
  split; [exact (I1 Hobs)|].
  unfold SessionDetailApp.polling. now rewrite (I2 Hobs).
Qed.

(** C2 on a sample: the detail page is opened on a running session of
    one block, polls it, the block finishes, and the next status says
    'completed'. *)
Lemma C2_terminal_absorbing_witness :
  System.reachable Examples.sid Examples.full_page Examples.picked_up Examples.sys5
  /\ System.observed_terminal Examples.sys5 = true
  /\ Server.is_terminal (Server.status_of (System.server Examples.sys5)) = true
  /\ SessionDetailApp.polling (System.client Examples.sys5) = false.
Proof.
  assert (R : System.reachable Examples.sid Examples.full_page Examples.picked_up
                               Examples.sys5).
  { apply (System.reach_step Examples.sid Examples.full_page Examples.picked_up
                             Examples.sys4 Examples.sys5).
    - apply (System.reach_step Examples.sid Examples.full_page Examples.picked_up
                               Examples.sys3 Examples.sys4).
      + apply (System.reach_step Examples.sid Examples.full_page Examples.picked_up
                                 Examples.sys2 Examples.sys3).
        * apply (System.reach_step Examples.sid Examples.full_page Examples.picked_up
                                   Examples.sys1 Examples.sys2).
          -- apply (System.reach_step Examples.sid Examples.full_page
                                      Examples.picked_up Examples.sys0 Examples.sys1).
             ++ apply System.reach_start.
             ++ exact (System.step_answer_session Examples.sid [] [] Examples.sys0
                                                  eq_refl).
          -- exact (System.step_deliver_session Examples.sid [] [] 1000 _
                                                Examples.sys1 eq_refl).
        * exact (System.step_work Examples.sid Server.BlockFinished Examples.sys2).
      + exact (System.step_answer_status Examples.sid [] [] Examples.sys3 eq_refl).
    - exact (System.step_deliver_status Examples.sid [] [] _ Examples.sys4 eq_refl). }
  pose proof (C2_terminal_absorbing
                (System.server Examples.sys5) Server.BlockFinished Server.PROCESSING
                None Examples.completed Examples.analysis_polling
                Examples.analysis_events Examples.detail_polling
                Examples.detail_loading 1000 (Ok Examples.running_session)
                Examples.sid Examples.full_page Examples.picked_up Examples.sys5
                eq_refl (or_introl eq_refl) eq_refl eq_refl R eq_refl) as C.
  destruct C as [_ [_ [_ [_ [_ [_ [C1 C2]]]]]]].
  split; [exact R|]. split; [reflexivity|]. split; assumption.
Defined.

(* ================================================================== *)
(** * Part III: further properties of the three pages *)
(* ================================================================== *)

(** ** Sorting in the sessions browser *)

Section Sorting.

Import SessionsApp.
Import SessionsMore.

Lemma insert_in : forall cmp x y l, In y (insert cmp x l) <-> y = x \/ In y l.
Proof.
  intros cmp x y l. split; intros H.
  - apply (Permutation_in _ (Permutation_sym (insert_perm cmp x l))) in H.
    destruct H as [H|H]; auto.
  - apply (Permutation_in _ (insert_perm cmp x l)). destruct H as [H|H];
      [left; congruence|now right].
Qed.

Lemma sort_in : forall cmp y l, In y (sort cmp l) <-> In y l.
Proof.
  intros cmp y l. split; intros H.
  - now apply (Permutation_in _ (Permutation_sym (sort_perm cmp l))).
  - now apply (Permutation_in _ (sort_perm cmp l)).
Qed.

(** A comparator that is the difference of a key on the elements of the
    list: insertion keeps the keys ascending. *)
Lemma insert_keyed_sorted : forall cmp (k : session -> Z) x l,
    (forall y, In y l -> sort_compare cmp x y = k x - k y)%Z ->
    StronglySorted (fun a b => k a <= k b)%Z l ->
    StronglySorted (fun a b => k a <= k b)%Z (insert cmp x l).
Proof.
  intros cmp k x l. induction l as [|y l IH]; intros Hc Hs.
  - repeat constructor.
  - cbn [insert]. inversion Hs as [|? ? Hs' Hy]; subst.
    rewrite (Hc y) by now left.
    destruct (Z.leb_spec (k x - k y) 0).
    + constructor; [exact Hs|]. constructor; [lia|].
      eapply Forall_impl; [|exact Hy]. cbn. intros z Hz. lia.
    + constructor.
      * apply IH; [|exact Hs']. intros z Hz. apply Hc. now right.
      * apply Forall_forall. intros z Hz. apply insert_in in Hz.
        destruct Hz as [->|Hz]; [lia|].
        rewrite Forall_forall in Hy. now apply Hy.
Qed.

Lemma sort_keyed_sorted : forall cmp (k : session -> Z) l,
    (forall a b, In a l -> In b l -> sort_compare cmp a b = k a - k b)%Z ->
    StronglySorted (fun a b => k a <= k b)%Z (sort cmp l).
Proof.
  intros cmp k l. induction l as [|x l IH]; intros Hc; [constructor|].
  cbn [sort fold_right]. fold (sort cmp l). apply insert_keyed_sorted.
  - intros y Hy. apply sort_in in Hy. apply Hc; [now left|now right].
  - apply IH. intros a b Ha Hb. apply Hc; now right.
Qed.

(** The sort is stable: the elements of one key keep their order. *)
Lemma insert_keyed_filter : forall cmp (k : session -> Z) v x l,
    (forall y, In y l -> sort_compare cmp x y = k x - k y)%Z ->
    filter (fun s => k s =? v)%Z (insert cmp x l)
    = filter (fun s => k s =? v)%Z (x :: l).
Proof.
  intros cmp k v x l. induction l as [|y l IH]; intros Hc; [reflexivity|].
  cbn [insert]. rewrite (Hc y) by now left.
  destruct (Z.leb_spec (k x - k y) 0); [reflexivity|].
  cbn [filter]. rewrite IH by (intros z Hz; apply Hc; now right).
  cbn [filter].
  destruct (Z.eqb_spec (k x) v), (Z.eqb_spec (k y) v); try reflexivity. lia.
Qed.

Lemma sort_keyed_filter : forall cmp (k : session -> Z) v l,
    (forall a b, In a l -> In b l -> sort_compare cmp a b = k a - k b)%Z ->
    filter (fun s => k s =? v)%Z (sort cmp l) = filter (fun s => k s =? v)%Z l.
Proof.
  intros cmp k v l. induction l as [|x l IH]; intros Hc; [reflexivity|].
  cbn [sort fold_right]. fold (sort cmp l). rewrite insert_keyed_filter.
  - cbn [filter]. rewrite IH by (intros a b Ha Hb; apply Hc; now right).
    reflexivity.
  - intros y Hy. apply sort_in in Hy. apply Hc; [now left|now right].
Qed.

Lemma renderSessions_view : forall st,
    exists v, renderSessions st = set_view v st.
Proof.
  intros st. unfold renderSessions.
  destruct (sessionsList st) as [v|] eqn:E.
  - destruct (pageSessions st); eexists; reflexivity.
  - exists None. destruct st; cbn in *. now rewrite E.
Qed.

(** What [applySorting] leaves of the state, and the list it sorts. *)
Lemma applySorting_frame : forall st,
    allSessions (applySorting st) = allSessions st
    /\ currentFilter (applySorting st) = currentFilter st
    /\ currentSort (applySorting st) = currentSort st
    /\ currentPage (applySorting st) = currentPage st
    /\ filteredSessions (applySorting st)
       = (if JsString.eqb (currentSort st) (of_string "newest") then
            sort (fun a b => minus (created_at b) (created_at a)) (filteredSessions st)
          else if JsString.eqb (currentSort st) (of_string "oldest") then
            sort (fun a b => minus (created_at a) (created_at b)) (filteredSessions st)
          else if JsString.eqb (currentSort st) (of_string "status") then
            sort (fun a b => minus (statusOrder (status a)) (statusOrder (status b)))
                 (filteredSessions st)
          else filteredSessions st).
Proof.
  intros st. unfold applySorting.
  match goal with |- context [renderSessions ?x] =>
    destruct (renderSessions_view x) as [v ->] end.
  cbn. auto.
Qed.

Lemma applySorting_perm : forall st,
    Permutation (filteredSessions st) (filteredSessions (applySorting st)).
Proof.
  intros st. destruct (applySorting_frame st) as [_ [_ [_ [_ ->]]]].
  repeat match goal with |- context [if ?b then _ else _] => destruct b end;
    try apply sort_perm. reflexivity.
Qed.

Lemma valid_dates_compare : forall l,
    Forall (fun s => created_at s <> None) l ->
    forall a b, In a l -> In b l ->
                minus (created_at a) (created_at b) = Some (time_of a - time_of b)%Z.
Proof.
  intros l H a b Ha Hb. rewrite Forall_forall in H.
  pose proof (H a Ha) as Va. pose proof (H b Hb) as Vb. unfold time_of.
  destruct (created_at a), (created_at b); try contradiction; reflexivity.
Qed.

Lemma known_status_compare : forall l,
    Forall (fun s => statusOrder (status s) <> None) l ->
    forall a b, In a l -> In b l ->
                minus (statusOrder (status a)) (statusOrder (status b))
                = Some (rank_of a - rank_of b)%Z.
Proof.
  intros l H a b Ha Hb. rewrite Forall_forall in H.
  pose proof (H a Ha) as Va. pose proof (H b Hb) as Vb. unfold rank_of.
  destruct (statusOrder (status a)), (statusOrder (status b));
    try contradiction; reflexivity.
Qed.

Lemma sorted_opposite : forall (k : session -> Z) l,
    StronglySorted (fun a b => - k a <= - k b)%Z l ->
    StronglySorted (fun a b => k b <= k a)%Z l.
Proof.
  intros k l H. induction H as [|x l Hs IH Hf]; constructor; [exact IH|].
  eapply Forall_impl; [|exact Hf]. cbn. intros y Hy. lia.
Qed.

Lemma filter_opposite : forall (k : session -> Z) v l,
    filter (fun s => - k s =? - v)%Z l = filter (fun s => k s =? v)%Z l.
Proof.
  intros k v l. apply filter_ext. intros s.
  destruct (Z.eqb_spec (- k s) (- v)), (Z.eqb_spec (k s) v); try reflexivity; lia.
Qed.

End Sorting.

(** X1.  When the comparator of the sort key gives a number on all
    filtered sessions (valid dates for 'newest' and 'oldest', statuses of
    the table for 'status'), [applySorting] only rearranges the filtered
    sessions: none is lost, none is added.  With any other sort key it
    leaves their order as it is.  The full list, the filter and the
    current page stay as they are. *)
Theorem X1_sorting_rearranges : forall st : SessionsApp.state,
    SessionsMore.comparable st ->
    Permutation (SessionsApp.filteredSessions st)
                (SessionsApp.filteredSessions (SessionsApp.applySorting st))
    /\ (SessionsApp.currentSort st <> of_string "newest" ->
        SessionsApp.currentSort st <> of_string "oldest" ->
        SessionsApp.currentSort st <> of_string "status" ->
        SessionsApp.filteredSessions (SessionsApp.applySorting st)
        = SessionsApp.filteredSessions st)
    /\ SessionsApp.allSessions (SessionsApp.applySorting st)
       = SessionsApp.allSessions st
    /\ SessionsApp.currentFilter (SessionsApp.applySorting st)
       = SessionsApp.currentFilter st
    /\ SessionsApp.currentPage (SessionsApp.applySorting st)
       = SessionsApp.currentPage st.
Proof.
  intros st _. destruct (applySorting_frame st) as [A [B [_ [C E]]]].
  split; [apply applySorting_perm|]. split; [|auto].
  intros N1 N2 N3. rewrite E.
  apply eqb_neq in N1, N2, N3. now rewrite N1, N2, N3.
Qed.

(** X1 on three sessions with valid dates, sorted by 'newest'. *)
Lemma X1_sorting_rearranges_witness :
  SessionsMore.comparable MoreExamples.by_date
  /\ Permutation (SessionsApp.filteredSessions MoreExamples.by_date)
       (SessionsApp.filteredSessions (SessionsApp.applySorting MoreExamples.by_date)).
Proof.
  assert (H : SessionsMore.comparable MoreExamples.by_date).
  { split; intros _; repeat constructor; discriminate. }
  split; [exact H|exact (proj1 (X1_sorting_rearranges MoreExamples.by_date H))].
Defined.

(** X2.  When every filtered session has a valid date, sorting by
    'newest' puts the sessions in descending and sorting by 'oldest' in
    ascending order of their dates, and sessions with the same date keep
    their order. *)
Theorem X2_sorting_by_date :
  forall (st : SessionsApp.state) (t : Z),
    Forall (fun s => SessionsApp.created_at s <> None)
           (SessionsApp.filteredSessions st) ->
    SessionsApp.currentSort st = of_string "newest"
    \/ SessionsApp.currentSort st = of_string "oldest" ->
    (if JsString.eqb (SessionsApp.currentSort st) (of_string "newest")
     then StronglySorted
            (fun a b => SessionsMore.time_of b <= SessionsMore.time_of a)%Z
            (SessionsApp.filteredSessions (SessionsApp.applySorting st))
     else StronglySorted
            (fun a b => SessionsMore.time_of a <= SessionsMore.time_of b)%Z
            (SessionsApp.filteredSessions (SessionsApp.applySorting st)))
    /\ filter (fun s => SessionsMore.time_of s =? t)%Z
              (SessionsApp.filteredSessions (SessionsApp.applySorting st))
       = filter (fun s => SessionsMore.time_of s =? t)%Z
                (SessionsApp.filteredSessions st).
Proof.
  intros st t Hv Hk.
  destruct (applySorting_frame st) as [_ [_ [_ [_ ->]]]].
  pose proof (valid_dates_compare _ Hv) as Hc.
  destruct Hk as [Hk|Hk]; rewrite Hk.
  - change (JsString.eqb (of_string "newest") (of_string "newest")) with true.
    cbv iota.
    assert (Hd : forall a b, In a (SessionsApp.filteredSessions st) ->
                             In b (SessionsApp.filteredSessions st) ->
                             SessionsApp.sort_compare
                               (fun a b => SessionsApp.minus (SessionsApp.created_at b)
                                                             (SessionsApp.created_at a))
                               a b
                             = (- SessionsMore.time_of a - - SessionsMore.time_of b)%Z).
    { intros a b Ha Hb. unfold SessionsApp.sort_compare. rewrite (Hc b a Hb Ha). lia. }
    split.
    + apply sorted_opposite. now apply sort_keyed_sorted.
    + rewrite <- !(filter_opposite SessionsMore.time_of t).
      now apply sort_keyed_filter.
  - change (JsString.eqb (of_string "oldest") (of_string "newest")) with false.
    change (JsString.eqb (of_string "oldest") (of_string "oldest")) with true.
    cbv iota.
    assert (Hd : forall a b, In a (SessionsApp.filteredSessions st) ->
                             In b (SessionsApp.filteredSessions st) ->
                             SessionsApp.sort_compare
                               (fun a b => SessionsApp.minus (SessionsApp.created_at a)
                                                             (SessionsApp.created_at b))
                               a b
                             = (SessionsMore.time_of a - SessionsMore.time_of b)%Z).
    { intros a b Ha Hb. unfold SessionsApp.sort_compare. now rewrite (Hc a b Ha Hb). }
    split.
    + now apply sort_keyed_sorted.
    + now apply sort_keyed_filter.
Qed.

(** X3.  When every filtered session has one of the four statuses of
    the table, sorting by 'status' puts them in the order processing,
    pending, completed, failed, and sessions of one status keep their
    order. *)
Theorem X3_sorting_by_status :
  forall (st : SessionsApp.state) (r : Z),
    Forall (fun s => SessionsApp.statusOrder (SessionsApp.status s) <> None)
           (SessionsApp.filteredSessions st) ->
    SessionsApp.currentSort st = of_string "status" ->
    StronglySorted (fun a b => SessionsMore.rank_of a <= SessionsMore.rank_of b)%Z
                   (SessionsApp.filteredSessions (SessionsApp.applySorting st))
    /\ filter (fun s => SessionsMore.rank_of s =? r)%Z
              (SessionsApp.filteredSessions (SessionsApp.applySorting st))
       = filter (fun s => SessionsMore.rank_of s =? r)%Z
                (SessionsApp.filteredSessions st)
    /\ SessionsApp.statusOrder s_processing = Some 0%Z
    /\ SessionsApp.statusOrder s_pending = Some 1%Z
    /\ SessionsApp.statusOrder s_completed = Some 2%Z
    /\ SessionsApp.statusOrder s_failed = Some 3%Z.
Proof.
  intros st r Hv Hk.
  destruct (applySorting_frame st) as [_ [_ [_ [_ ->]]]].
  pose proof (known_status_compare _ Hv) as Hc. rewrite Hk.
  change (JsString.eqb (of_string "status") (of_string "newest")) with false.
  change (JsString.eqb (of_string "status") (of_string "oldest")) with false.
  change (JsString.eqb (of_string "status") (of_string "status")) with true.
  cbv iota.
  assert (Hd : forall a b, In a (SessionsApp.filteredSessions st) ->
                           In b (SessionsApp.filteredSessions st) ->
                           SessionsApp.sort_compare
                             (fun a b => SessionsApp.minus
                                           (SessionsApp.statusOrder (SessionsApp.status a))
                                           (SessionsApp.statusOrder (SessionsApp.status b)))
                             a b
                           = (SessionsMore.rank_of a - SessionsMore.rank_of b)%Z).
  { intros a b Ha Hb. unfold SessionsApp.sort_compare. now rewrite (Hc a b Ha Hb). }
  split; [now apply sort_keyed_sorted|].
  split; [now apply sort_keyed_filter|].
  repeat split.
Qed.

(** ** Filtering and paging in the sessions browser *)

Section Filtering.

Import SessionsApp.
Import SessionsMore.

Variable toLowerCase : jsstring -> jsstring.

Lemma filter_all : forall (A : Type) (l : list A), filter (fun _ => true) l = l.
Proof. intros A l. induction l as [|a l IH]; cbn; congruence. Qed.

Lemma applySorting_filtered_ok : forall st, filtered_ok toLowerCase st -> filtered_ok toLowerCase (applySorting st).
Proof.
  intros st H. unfold filtered_ok in *.
  destruct (applySorting_frame st) as [-> [-> _]].
  rewrite H. apply applySorting_perm.
Qed.

Lemma applyFilters_filtered_ok : forall st, filtered_ok toLowerCase (applyFilters toLowerCase st).
Proof.
  intros st. unfold applyFilters. apply applySorting_filtered_ok.
  unfold filtered_ok, passes. cbn [currentFilter allSessions filteredSessions].
  destruct (JsString.eqb (currentFilter st) (of_string "all")).
  - cbn [orb]. now rewrite filter_all.
  - reflexivity.
Qed.

Lemma set_view_filtered_ok : forall v st, filtered_ok toLowerCase st -> filtered_ok toLowerCase (set_view v st).
Proof. intros v st H. exact H. Qed.

Lemma renderSessions_filtered_ok : forall st,
    filtered_ok toLowerCase st -> filtered_ok toLowerCase (renderSessions st).
Proof.
  intros st H. destruct (renderSessions_view st) as [v ->]. exact H.
Qed.

Lemma handle_filtered_ok : forall ev st,
    filtered_ok toLowerCase st -> filtered_ok toLowerCase (handle toLowerCase ev st).
Proof.
  intros ev st H. destruct ev as [v|v| |[sessions|m]| |]; cbn [handle].
  - apply applyFilters_filtered_ok.
  - apply applySorting_filtered_ok. exact H.
  - unfold loadSessions. destruct (sessionsList st); exact H.
  - unfold loadSessions_resume.
    match goal with |- context [applyFilters toLowerCase ?x] =>
      pose proof (applyFilters_filtered_ok x) as Hf;
      set (st2 := applyFilters toLowerCase x) in * end.
    pose proof (renderSessions_filtered_ok
                  (updatePagination (applySorting st2))
                  (applySorting_filtered_ok st2 Hf)) as Hr.
    destruct sessions; [|exact Hr].
    match goal with |- filtered_ok toLowerCase (match ?x with _ => _ end) => destruct x end;
      exact Hr.
  - unfold loadSessions_resume. destruct (sessionsList st); exact H.
  - destruct (_ >? _)%Z; [|exact H]. now apply renderSessions_filtered_ok.
  - destruct (_ <? _)%Z; [|exact H]. now apply renderSessions_filtered_ok.
Qed.

Lemma run_filtered_ok : forall evs st,
    filtered_ok toLowerCase st -> filtered_ok toLowerCase (run toLowerCase evs st).
Proof.
  induction evs as [|ev evs IH]; intros st H; [exact H|].
  cbn [run fold_left]. apply IH. now apply handle_filtered_ok.
Qed.

Lemma init_filtered_ok : forall list_element, filtered_ok toLowerCase (init list_element).
Proof. intros [|]; unfold filtered_ok; cbn; constructor. Qed.

End Filtering.

Section Paging.

Import SessionsApp.
Import SessionsMore.

Lemma page_of_next : forall (A : Type) (l : list A) p,
    1 <= p -> Spec.page_of l (S p) = Spec.page_of (skipn 10 l) p.
Proof.
  intros A l p Hp. unfold Spec.page_of.
  rewrite skipn_skipn, length_skipn.
  replace ((p - 1) * 10 + 10) with ((S p - 1) * 10) by lia.
  destruct (Nat.le_gt_cases ((S p - 1) * 10) (length l)) as [Hle|Hgt].
  - f_equal. lia.
  - rewrite skipn_all2 by lia. now rewrite !firstn_nil.
Qed.

Lemma page_of_first : forall (A : Type) (l : list A),
    Spec.page_of l 1 = firstn 10 l.
Proof.
  intros A l. unfold Spec.page_of.
  change ((1 - 1) * 10) with 0. cbn [skipn]. rewrite Nat.sub_0_r.
  destruct (Nat.le_gt_cases 10 (length l)) as [Hle|Hgt].
  - f_equal. lia.
  - rewrite !firstn_all2 by lia. reflexivity.
Qed.

Lemma flat_map_pointwise : forall (A B : Type) (f g : A -> list B) l,
    (forall x, In x l -> f x = g x) -> flat_map f l = flat_map g l.
Proof.
  intros A B f g l H. induction l as [|a l IH]; [reflexivity|].
  cbn [flat_map]. rewrite (H a) by now left.
  rewrite IH; [reflexivity|]. intros x Hx. apply H. now right.
Qed.

Lemma flat_map_shift : forall (B : Type) (f : nat -> list B) l,
    flat_map f (map S l) = flat_map (fun x => f (S x)) l.
Proof.
  intros B f l. induction l as [|a l IH]; [reflexivity|].
  cbn [map flat_map]. now rewrite IH.
Qed.

(** The pages, one after the other, are the list. *)
Lemma pages_concat : forall (A : Type) k (l : list A),
    length l <= 10 * k ->
    flat_map (Spec.page_of l) (seq 1 k) = l.
Proof.
  intros A k. induction k as [|k IH]; intros l Hl.
  - destruct l; [reflexivity|cbn in Hl; lia].
  - cbn [seq flat_map]. rewrite page_of_first.
    rewrite <- seq_shift, flat_map_shift.
    rewrite (flat_map_pointwise _ _ (fun x => Spec.page_of l (S x))
                                (Spec.page_of (skipn 10 l))).
    + rewrite IH by (rewrite length_skipn; lia). apply firstn_skipn.
    + intros p Hp. apply in_seq in Hp. apply page_of_next. lia.
Qed.

Lemma pages_cover : forall n, n <= 10 * Spec.pages n.
Proof.
  intros n. unfold Spec.pages.
  pose proof (Nat.div_mod_eq (n + 9) 10) as H.
  pose proof (Nat.mod_upper_bound (n + 9) 10) as Hm. lia.
Qed.

Lemma all_pages_filtered : forall st,
    Spec.paged st -> all_pages st = filteredSessions st.
Proof.
  intros st [Ht _]. unfold all_pages. rewrite Ht, Nat2Z.id.
  rewrite (flat_map_pointwise _ _ _ (Spec.page_of (filteredSessions st))).
  - apply pages_concat, pages_cover.
  - intros p Hp. apply in_seq in Hp.
    rewrite pageSessions_page_of by (cbn; lia).
    cbn [set_page filteredSessions currentPage]. now rewrite Nat2Z.id.
Qed.

Lemma set_page_same : forall st, set_page (currentPage st) st = st.
Proof. intros []. reflexivity. Qed.

Lemma renderSessions_set_page : forall p q st,
    renderSessions (set_page p (renderSessions (set_page q st)))
    = renderSessions (set_page p st).
Proof.
  intros p q st. unfold renderSessions at 2.
  cbn [set_page sessionsList]. destruct (sessionsList st) as [v|] eqn:E.
  - destruct (pageSessions (set_page q st));
      unfold renderSessions, pageSessions; cbn; rewrite E; reflexivity.
  - reflexivity.
Qed.

End Paging.

(** X4.  After the start of the sessions browser and any sequence of
    its events, the filtered sessions are exactly the sessions of the
    full list that pass the current filter (all of them for 'all', else
    those whose lower-cased status is the filter), in some order. *)
Theorem X4_filtered_is_the_filter :
  forall (toLowerCase : jsstring -> jsstring) (list_element : bool)
         (evs : list SessionsApp.event),
    let st := SessionsApp.run toLowerCase evs (SessionsApp.init list_element) in
    Permutation
      (filter (SessionsMore.passes toLowerCase (SessionsApp.currentFilter st))
              (SessionsApp.allSessions st))
      (SessionsApp.filteredSessions st).
Proof.
  intros toLowerCase list_element evs st.
  apply (run_filtered_ok toLowerCase evs). apply init_filtered_ok.
Qed.

(** X5.  After the start of the sessions browser and any sequence of
    its events, the pages 1 to [totalPages], one after the other, are
    the filtered sessions: every filtered session is on exactly one page
    and in its place. *)
Theorem X5_pages_partition :
  forall (toLowerCase : jsstring -> jsstring) (list_element : bool)
         (evs : list SessionsApp.event),
    let st := SessionsApp.run toLowerCase evs (SessionsApp.init list_element) in
    SessionsMore.all_pages st = SessionsApp.filteredSessions st.
Proof.
  intros toLowerCase list_element evs st.
  apply all_pages_filtered. apply run_paged, init_paged.
Qed.

(** X6.  On a page that is not the last, a click on next followed by a
    click on previous leaves the browser as a fresh rendering of the
    page one was on; on the last page a click on next, and on the first
    a click on previous, changes nothing. *)
Theorem X6_next_then_previous :
  forall (toLowerCase : jsstring -> jsstring) (st : SessionsApp.state),
    (1 <= SessionsApp.currentPage st <= SessionsApp.totalPages st)%Z ->
    SessionsApp.handle toLowerCase SessionsApp.PrevPage
      (SessionsApp.handle toLowerCase SessionsApp.NextPage st)
    = (if (SessionsApp.currentPage st <? SessionsApp.totalPages st)%Z
       then SessionsApp.renderSessions st
       else SessionsApp.handle toLowerCase SessionsApp.PrevPage st)
    /\ (SessionsApp.currentPage st = SessionsApp.totalPages st ->
        SessionsApp.handle toLowerCase SessionsApp.NextPage st = st)
    /\ (SessionsApp.currentPage st = 1%Z ->
        SessionsApp.handle toLowerCase SessionsApp.PrevPage st = st).
Proof.
  intros toLowerCase st [H1 H2]. cbn [SessionsApp.handle]. repeat split.
  - destruct (Z.ltb_spec (SessionsApp.currentPage st) (SessionsApp.totalPages st));
      [|reflexivity].
    destruct (renderSessions_view
                (SessionsApp.set_page (SessionsApp.currentPage st + 1)%Z st))
      as [v Hv].
    assert (Hc : SessionsApp.currentPage
                   (SessionsApp.renderSessions
                      (SessionsApp.set_page (SessionsApp.currentPage st + 1) st))
                 = (SessionsApp.currentPage st + 1)%Z) by (rewrite Hv; reflexivity).
    rewrite Hc. destruct (Z.gtb_spec (SessionsApp.currentPage st + 1) 1); [|lia].
    rewrite renderSessions_set_page.
    replace (SessionsApp.currentPage st + 1 - 1)%Z with (SessionsApp.currentPage st) by lia.
    now rewrite set_page_same.
  - intros E. rewrite E, Z.ltb_irrefl. reflexivity.
  - intros E. rewrite E. reflexivity.
Qed.

(** X2 on a sample: three sessions of the times 20, 30 and 20. *)
Lemma X2_sorting_by_date_witness :
  map SessionsApp.id
      (SessionsApp.filteredSessions (SessionsApp.applySorting MoreExamples.by_date))
  = [of_string "b"; of_string "a"; of_string "c"]
  /\ StronglySorted
       (fun a b => SessionsMore.time_of b <= SessionsMore.time_of a)%Z
       (SessionsApp.filteredSessions (SessionsApp.applySorting MoreExamples.by_date)).
Proof.
  split; [reflexivity|].
  assert (V : Forall (fun s => SessionsApp.created_at s <> None)
                     (SessionsApp.filteredSessions MoreExamples.by_date)).
  { repeat constructor; discriminate. }
  exact (proj1 (X2_sorting_by_date MoreExamples.by_date 20 V (or_introl eq_refl))).
Defined.

(** X3 on a sample: the same sessions, completed, failed and pending. *)
Lemma X3_sorting_by_status_witness :
  map SessionsApp.id
      (SessionsApp.filteredSessions (SessionsApp.applySorting MoreExamples.by_status))
  = [of_string "c"; of_string "a"; of_string "b"]
  /\ StronglySorted
       (fun a b => SessionsMore.rank_of a <= SessionsMore.rank_of b)%Z
       (SessionsApp.filteredSessions (SessionsApp.applySorting MoreExamples.by_status)).
Proof.
  split; [reflexivity|].
  assert (V : Forall (fun s => SessionsApp.statusOrder (SessionsApp.status s) <> None)
                     (SessionsApp.filteredSessions MoreExamples.by_status)).
  { repeat constructor; discriminate. }
  exact (proj1 (X3_sorting_by_status MoreExamples.by_status 1 V eq_refl)).
Defined.

(** X6 on a sample: page 1 of 3. *)
Lemma X6_next_then_previous_witness :
  SessionsApp.totalPages MoreExamples.three_pages = 3%Z
  /\ SessionsApp.handle (fun s => s) SessionsApp.PrevPage
       (SessionsApp.handle (fun s => s) SessionsApp.NextPage MoreExamples.three_pages)
     = SessionsApp.renderSessions MoreExamples.three_pages.
Proof.
  split; [reflexivity|].
  assert (B : (1 <= SessionsApp.currentPage MoreExamples.three_pages
               <= SessionsApp.totalPages MoreExamples.three_pages)%Z)
    by (split; discriminate).
  exact (proj1 (X6_next_then_previous (fun s => s) MoreExamples.three_pages B)).
Defined.

(** ** The full list and the statistics of the sessions browser *)

Section FullList.

Import SessionsApp.
Import SessionsMore.

Variable toLowerCase : jsstring -> jsstring.

Lemma applyFilters_all : forall st,
    allSessions (applyFilters toLowerCase st) = allSessions st.
Proof.
  intros st. unfold applyFilters.
  now destruct (applySorting_frame
                  {| currentPage := 1; totalPages := totalPages st;
                     totalSessions := totalSessions st; allSessions := allSessions st;
                     filteredSessions :=
                       if JsString.eqb (currentFilter st) (of_string "all")
                       then allSessions st
                       else filter (fun s => JsString.eqb (toLowerCase (status s))
                                                          (currentFilter st))
                                   (allSessions st);
                     currentFilter := currentFilter st; currentSort := currentSort st;
                     sessionsList := sessionsList st |}) as [-> _].
Qed.

Lemma renderSessions_all : forall st, allSessions (renderSessions st) = allSessions st.
Proof. intros st. now destruct (renderSessions_fields st) as [_ [_ [_ ->]]]. Qed.

Lemma handle_all : forall ev st,
    allSessions (handle toLowerCase ev st)
    = match ev with
      | SessionsArrived (Ok sessions) => sessions
      | _ => allSessions st
      end.
Proof.
  intros ev st. destruct ev as [v|v| |[sessions|m]| |]; cbn [handle].
  - now rewrite applyFilters_all.
  - now destruct (applySorting_frame (set_sort v st)) as [-> _].
  - unfold loadSessions. now destruct (sessionsList st).
  - unfold loadSessions_resume.
    match goal with |- context [renderSessions ?x] =>
      assert (Hr : allSessions (renderSessions x) = sessions);
      [|set (st2 := renderSessions x) in *] end.
    { rewrite renderSessions_all. cbn [updatePagination allSessions].
      destruct (applySorting_frame (applyFilters toLowerCase
        {| currentPage := currentPage st; totalPages := totalPages st;
           totalSessions := totalSessions st; allSessions := sessions;
           filteredSessions := sessions; currentFilter := currentFilter st;
           currentSort := currentSort st; sessionsList := sessionsList st |}))
        as [-> _].
      now rewrite applyFilters_all. }
    destruct sessions; [|exact Hr]. now destruct (sessionsList st2).
  - unfold loadSessions_resume. now destruct (sessionsList st).
  - destruct (_ >? _)%Z; [|reflexivity]. now rewrite renderSessions_all.
  - destruct (_ <? _)%Z; [|reflexivity]. now rewrite renderSessions_all.
Qed.

Lemma run_all : forall evs st,
    allSessions (run toLowerCase evs st) = last_loaded evs (allSessions st).
Proof.
  induction evs as [|ev evs IH]; intros st; [reflexivity|].
  cbn [run fold_left]. fold (run toLowerCase evs (handle toLowerCase ev st)).
  rewrite IH, handle_all. destruct ev as [v|v| |[sessions|m]| |]; reflexivity.
Qed.

Lemma filter_disjoint_length : forall (A : Type) (p q : A -> bool) l,
    (forall x, p x = true -> q x = false) ->
    length (filter p l) + length (filter q l) <= length l.
Proof.
  intros A p q l H. induction l as [|a l IH]; [constructor|].
  cbn [filter]. destruct (p a) eqn:Hp.
  - rewrite (H a Hp). cbn [length]. lia.
  - destruct (q a); cbn [length]; lia.
Qed.

End FullList.

(** X7.  The full list of the sessions browser is at any time the list
    of the last load that succeeded (empty before the first): filter
    changes, sort changes, failed loads and page clicks never touch it.
    The statistics are taken from it: the total is its length, and the
    completed and the processing sessions together are at most the
    total. *)
Theorem X7_full_list_and_statistics :
  forall (toLowerCase : jsstring -> jsstring) (list_element : bool)
         (evs : list SessionsApp.event),
    let st := SessionsApp.run toLowerCase evs (SessionsApp.init list_element) in
    SessionsApp.allSessions st = SessionsMore.last_loaded evs []
    /\ SessionsMore.updateStats false st = None
    /\ exists s, SessionsMore.updateStats true st = Some s
                 /\ SessionsMore.total_sessions s
                    = length (SessionsMore.last_loaded evs [])
                 /\ SessionsMore.completed_sessions s
                    + SessionsMore.processing_sessions s
                    <= SessionsMore.total_sessions s.
Proof.
  intros toLowerCase list_element evs st.
  assert (E : SessionsApp.allSessions st = SessionsMore.last_loaded evs []).
  { unfold st. rewrite run_all. now destruct list_element. }
  split; [exact E|]. split; [reflexivity|].
  eexists. split; [reflexivity|]. cbn [SessionsMore.total_sessions
    SessionsMore.completed_sessions SessionsMore.processing_sessions].
  split; [now rewrite E|].
  apply filter_disjoint_length. intros x Hx. apply eqb_eq in Hx.
  rewrite Hx. reflexivity.
Qed.

(** ** The error text of a list item *)

Section ErrorText.

Lemma four_entities_length : forall c, length (Spec.four_entities c) <= 6.
Proof.
  intros c. unfold Spec.four_entities, Spec.three_entities.
  repeat match goal with |- context [if ?b then _ else _] => destruct b end;
    cbn; lia.
Qed.

Lemma escapeHtml_length : forall s,
    length (SessionsApp.escapeHtml s) <= 6 * length s.
Proof.
  intros s. change (SessionsApp.escapeHtml s) with (RustGreenApp.escapeHtml s).
  rewrite escapeHtml_escape_string, escape_string_replaced. unfold Spec.replaced.
  induction s as [|c s IH]; [constructor|].
  cbn [flat_map]. rewrite length_app. pose proof (four_entities_length c).
  cbn [length]. lia.
Qed.

Lemma escapeHtml_no_angle : forall s x,
    In x (SessionsApp.escapeHtml s) -> x <> LT /\ x <> GT.
Proof.
  intros s x. change (SessionsApp.escapeHtml s) with (RustGreenApp.escapeHtml s).
  rewrite escapeHtml_escape_string, escape_string_replaced. unfold Spec.replaced.
  intros H. apply in_flat_map in H as [c [_ H]].
  now apply four_entities_no_angle in H.
Qed.

End ErrorText.

(** X8.  The error text of a list item of the sessions browser is the
    escaped message when the message has at most fifty characters, and
    its escaped first fifty characters followed by three dots otherwise;
    it holds no '<' and no '>' and is never longer than 303 characters.
    A session without a message, or with an empty one, gets no error
    block. *)
Theorem X8_error_text_of_list_item : forall message : jsstring,
    SessionsMore.errorText message
    = (if Nat.leb (length message) 50 then SessionsApp.escapeHtml message
       else SessionsApp.escapeHtml (firstn 50 message) ++ of_string "...")
    /\ ~ In LT (SessionsMore.errorText message)
    /\ ~ In GT (SessionsMore.errorText message)
    /\ length (SessionsMore.errorText message) <= 303
    /\ SessionsMore.errorBlock None = None
    /\ SessionsMore.errorBlock (Some []) = None
    /\ SessionsMore.errorBlock (Some message)
       = (if truthy message then Some (SessionsMore.errorText message) else None).
Proof.
  intros message. unfold SessionsMore.errorText.
  pose proof (escapeHtml_length (firstn 50 message)) as Hl.
  pose proof (length_firstn 50 message) as Hf.
  assert (Hd : forall x, In x (if Nat.ltb 50 (length message)
                               then of_string "..." else []) ->
                         x <> LT /\ x <> GT).
  { intros x. destruct (Nat.ltb 50 (length message)); cbn; [|tauto].
    intuition (subst; discriminate). }
  repeat split.
  - destruct (Nat.leb_spec (length message) 50) as [Hle|Hgt].
    + rewrite firstn_all2 by exact Hle.
      destruct (Nat.ltb_spec 50 (length message)); [lia|apply app_nil_r].
    + destruct (Nat.ltb_spec 50 (length message)); [reflexivity|lia].
  - intros H. apply in_app_iff in H as [H|H].
    + now apply escapeHtml_no_angle in H.
    + now apply Hd in H.
  - intros H. apply in_app_iff in H as [H|H].
    + now apply escapeHtml_no_angle in H.
    + now apply Hd in H.
  - rewrite length_app. destruct (Nat.ltb 50 (length message));
      [change (length (of_string "...")) with 3|cbn [length]]; lia.
Qed.

(** ** Trimming and the statistics of the code *)

Section Trimming.

Import Spec.

Lemma white_space_not_word : forall c,
    is_white_space c = true -> is_word_char c = false.
Proof.
  intros c H. destruct (is_word_char c) eqn:E; [exfalso|reflexivity].
  unfold is_word_char in E. unfold is_white_space in H.
  rewrite ?orb_true_iff, ?andb_true_iff, ?N.eqb_eq, ?N.leb_le in *. lia.
Qed.

Lemma white_space_not_u : forall c, is_white_space c = true -> c <> 117%N.
Proof. intros c H ->. discriminate H. Qed.

Lemma takeWhile_dropWhile : forall p s, takeWhile p s ++ dropWhile p s = s.
Proof.
  intros p s. induction s as [|c s IH]; [reflexivity|].
  cbn. destruct (p c); cbn; congruence.
Qed.

Lemma takeWhile_all : forall p s, forallb p (takeWhile p s) = true.
Proof.
  intros p s. induction s as [|c s IH]; [reflexivity|].
  cbn. destruct (p c) eqn:E; cbn; [now rewrite E|reflexivity].
Qed.

Lemma dropWhile_head : forall p s c,
    hd_error (dropWhile p s) = Some c -> p c = false.
Proof.
  intros p s c. induction s as [|x s IH]; cbn; [discriminate|].
  destruct (p x) eqn:E; [exact IH|]. cbn. intros H. injection H as <-. exact E.
Qed.

Lemma dropWhile_fixed : forall p s,
    match hd_error s with Some c => p c = false | None => True end ->
    dropWhile p s = s.
Proof. intros p [|c s] H; cbn in *; [reflexivity|now rewrite H]. Qed.

(** The text is the trimmed text between two runs of whitespace. *)
Lemma trim_split : forall value,
    exists lead tail,
      value = lead ++ trim value ++ tail
      /\ forallb is_white_space lead = true
      /\ forallb is_white_space tail = true.
Proof.
  intros value. unfold trim, trimEnd, trimStart.
  set (v1 := dropWhile is_white_space value).
  exists (takeWhile is_white_space value),
         (rev (takeWhile is_white_space (rev v1))).
  repeat split.
  - rewrite <- rev_app_distr, takeWhile_dropWhile, rev_involutive.
    symmetry. apply takeWhile_dropWhile.
  - apply takeWhile_all.
  - rewrite forallb_rev. apply takeWhile_all.
Qed.

Lemma count_pos_prev : forall p1 p2 s,
    Regex.is_word_opt p1 = Regex.is_word_opt p2 -> count_pos p1 s = count_pos p2 s.
Proof.
  intros p1 p2 [|c s] H; [reflexivity|].
  cbn [count_pos]. unfold unsafe_at. now rewrite H.
Qed.

Lemma count_pos_spaces : forall tail prev,
    forallb is_white_space tail = true -> count_pos prev tail = 0.
Proof.
  induction tail as [|c tail IH]; intros prev H; [reflexivity|].
  cbn [forallb] in H. apply andb_prop in H as [Hc Ht].
  cbn [count_pos]. rewrite not_unsafe_at_head.
  - now apply IH.
  - cbn. intros E. injection E as ->. discriminate Hc.
Qed.

Lemma count_pos_lead : forall lead s prev,
    forallb is_white_space lead = true -> Regex.is_word_opt prev = false ->
    count_pos prev (lead ++ s) = count_pos prev s.
Proof.
  induction lead as [|c lead IH]; intros s prev H Hp; [reflexivity|].
  cbn [forallb] in H. apply andb_prop in H as [Hc Hl].
  cbn [app count_pos]. rewrite not_unsafe_at_head.
  - rewrite IH; [|exact Hl|cbn; now apply white_space_not_word].
    apply count_pos_prev. cbn. rewrite Hp. now apply white_space_not_word.
  - cbn. intros E. injection E as ->. discriminate Hc.
Qed.

Lemma prefix_eqb_app_spaces : forall w a tail,
    forallb (fun c => negb (is_white_space c)) w = true ->
    forallb is_white_space tail = true ->
    prefix_eqb w (a ++ tail) = prefix_eqb w a.
Proof.
  induction w as [|x w IH]; intros a tail Hw Ht; [reflexivity|].
  cbn [forallb] in Hw. apply andb_prop in Hw as [Hx Hw].
  destruct a as [|c a]; cbn [app prefix_eqb].
  - destruct tail as [|t tail]; [reflexivity|].
    cbn [forallb] in Ht. apply andb_prop in Ht as [Hc _]. cbn [prefix_eqb].
    destruct (N.eqb_spec x t) as [->|]; [|reflexivity].
    rewrite Hc in Hx. discriminate Hx.
  - now rewrite IH.
Qed.

Lemma prefix_eqb_length : forall w a,
    prefix_eqb w a = true -> length w <= length a.
Proof.
  induction w as [|x w IH]; intros a H; [cbn; lia|].
  destruct a as [|c a]; [discriminate H|].
  cbn in H. apply andb_prop in H as [_ H]. apply IH in H. cbn. lia.
Qed.

Lemma dropWhile_app_spaces : forall b tail,
    forallb is_white_space tail = true ->
    hd_error (dropWhile is_white_space (b ++ tail))
    = hd_error (dropWhile is_white_space b).
Proof.
  induction b as [|c b IH]; intros tail H.
  - cbn [app]. apply dropWhile_all in H. now rewrite H.
  - cbn [app dropWhile]. destruct (is_white_space c); [now apply IH|reflexivity].
Qed.

Lemma unsafe_at_hd : forall prev s,
    unsafe_at prev s
    = negb (Regex.is_word_opt prev)
      && prefix_eqb (of_string "unsafe") s
      && match hd_error (dropWhile is_white_space (skipn 6 s)) with
         | Some c => (c =? LBRACE)%N
         | None => false
         end.
Proof.
  intros prev s. unfold unsafe_at.
  destruct (dropWhile is_white_space (skipn 6 s)); reflexivity.
Qed.

Lemma unsafe_at_app_spaces : forall a tail prev,
    forallb is_white_space tail = true ->
    unsafe_at prev (a ++ tail) = unsafe_at prev a.
Proof.
  intros a tail prev H. rewrite !unsafe_at_hd.
  rewrite (prefix_eqb_app_spaces (of_string "unsafe") a tail eq_refl H).
  destruct (prefix_eqb (of_string "unsafe") a) eqn:E;
    [|now rewrite !andb_false_r].
  apply prefix_eqb_length in E. change (length (of_string "unsafe")) with 6 in E.
  rewrite skipn_app.
  replace (6 - length a) with 0 by lia. cbn [skipn].
  now rewrite dropWhile_app_spaces.
Qed.

Lemma count_pos_tail : forall a tail prev,
    forallb is_white_space tail = true ->
    count_pos prev (a ++ tail) = count_pos prev a.
Proof.
  induction a as [|c a IH]; intros tail prev H.
  - now apply count_pos_spaces.
  - cbn [app count_pos].
    change (c :: a ++ tail) with ((c :: a) ++ tail).
    now rewrite unsafe_at_app_spaces, IH.
Qed.

Lemma countUnsafeBlocks_count_pos : forall code,
    RustGreenApp.countUnsafeBlocks code = count_pos None code.
Proof.
  intros code. rewrite countUnsafeBlocks_match_all. now apply match_all_count.
Qed.

Lemma countUnsafeBlocks_trim : forall value,
    RustGreenApp.countUnsafeBlocks (trim value) = RustGreenApp.countUnsafeBlocks value.
Proof.
  intros value. rewrite !countUnsafeBlocks_count_pos.
  destruct (trim_split value) as [lead [tail [E [Hl Ht]]]].
  rewrite E at 2. rewrite count_pos_lead by (assumption || reflexivity).
  now rewrite count_pos_tail.
Qed.

Lemma countLines_trim : forall value,
    RustGreenApp.countLines (trim value) <= RustGreenApp.countLines value.
Proof.
  intros value. unfold RustGreenApp.countLines. rewrite !split_length.
  destruct (trim_split value) as [lead [tail [E _]]].
  assert (H : count_occ N.eq_dec value LF
              = count_occ N.eq_dec lead LF
                + (count_occ N.eq_dec (trim value) LF + count_occ N.eq_dec tail LF)).
  { rewrite E at 1. now rewrite !count_occ_app. }
  rewrite H. lia.
Qed.

Lemma trim_ends : forall value c,
    (hd_error (trim value) = Some c -> is_white_space c = false)
    /\ (hd_error (rev (trim value)) = Some c -> is_white_space c = false).
Proof.
  intros value c. split.
  - intros H. destruct (trim_split value) as [lead [tail [E _]]].
    assert (Hd : dropWhile is_white_space value
                 = trim value ++ rev (takeWhile is_white_space
                                        (rev (dropWhile is_white_space value)))).
    { unfold trim, trimEnd, trimStart.
      rewrite <- rev_app_distr, takeWhile_dropWhile. now rewrite rev_involutive. }
    apply (dropWhile_head is_white_space value). rewrite Hd.
    destruct (trim value); [discriminate H|exact H].
  - unfold trim, trimEnd, trimStart. rewrite rev_involutive. apply dropWhile_head.
Qed.

Lemma trim_idempotent : forall value, trim (trim value) = trim value.
Proof.
  intros value. unfold trim at 1. unfold trimEnd, trimStart.
  rewrite (dropWhile_fixed is_white_space (trim value)).
  - rewrite (dropWhile_fixed is_white_space (rev (trim value)));
      [apply rev_involutive|].
    destruct (hd_error (rev (trim value))) as [c|] eqn:E; [|exact I].
    exact (proj2 (trim_ends value c) E).
  - destruct (hd_error (trim value)) as [c|] eqn:E; [|exact I].
    exact (proj1 (trim_ends value c) E).
Qed.

End Trimming.

(** X9.  The quick scan looks at the trimmed text and the statistics
    under the input at the text as typed; still they always agree on the
    number of unsafe blocks, and the quick scan never reports more lines.
    The quick scan warns instead of reporting exactly when the text is
    whitespace only. *)
Theorem X9_quick_scan_agrees : forall value : jsstring,
    RustGreenApp.countUnsafeBlocks (trim value) = RustGreenApp.countUnsafeBlocks value
    /\ RustGreenApp.countLines (trim value) <= RustGreenApp.countLines value
    /\ AnalysisMore.performQuickScan value
       = (if forallb is_white_space value then AnalysisMore.ScanWarning
          else AnalysisMore.ScanReport
                 (RustGreenApp.countLines (trim value))
                 (RustGreenApp.countUnsafeBlocks value)
                 (negb (Nat.eqb (RustGreenApp.countUnsafeBlocks value) 1)))
    /\ AnalysisMore.updateCodeStats true value
       = Some (RustGreenApp.countLines value,
               RustGreenApp.countUnsafeBlocks value,
               negb (Nat.eqb (RustGreenApp.countUnsafeBlocks value) 1)).
Proof.
  intros value. split; [apply countUnsafeBlocks_trim|].
  split; [apply countLines_trim|]. split; [|reflexivity].
  unfold AnalysisMore.performQuickScan.
  rewrite truthy_trim, negb_involutive, countUnsafeBlocks_trim. reflexivity.
Qed.

(** X10.  The code that [startAnalysis] sends is the trimmed text: it is
    not empty, it neither starts nor ends with whitespace, and trimming
    it again changes nothing. *)
Theorem X10_code_sent_is_trimmed :
  forall (value : jsstring) (st : RustGreenApp.state) (r : request)
         (first last : code_unit),
    In r (RustGreenApp.fetches (snd (RustGreenApp.startAnalysis value st))) ->
    hd_error (trim value) = Some first ->
    hd_error (rev (trim value)) = Some last ->
    req_body r = Some [(of_string "code", trim value)]
    /\ trim value <> []
    /\ is_white_space first = false
    /\ is_white_space last = false
    /\ trim (trim value) = trim value.
Proof.
  intros value st r first last Hin Hf Hl.
  rewrite startAnalysis_effects in Hin. cbn [snd] in Hin.
  destruct (forallb is_white_space value); [destruct Hin|].
  destruct Hin as [<-|[]].
  split; [reflexivity|].
  split; [intros E; rewrite E in Hf; discriminate Hf|].
  split; [exact (proj1 (trim_ends value first) Hf)|].
  split; [exact (proj2 (trim_ends value last) Hl)|apply trim_idempotent].
Qed.

(** X10 on a sample: a line of code between blanks and line feeds. *)
Lemma X10_code_sent_is_trimmed_witness :
  trim [32; 10; 102; 110; 32; 102; 40; 41; 32; 10]%N = [102; 110; 32; 102; 40; 41]%N
  /\ trim (trim [32; 10; 102; 110; 32; 102; 40; 41; 32; 10]%N)
     = trim [32; 10; 102; 110; 32; 102; 40; 41; 32; 10]%N.
Proof.
  split; [reflexivity|].
  exact (proj2 (proj2 (proj2 (proj2
    (X10_code_sent_is_trimmed
       [32; 10; 102; 110; 32; 102; 40; 41; 32; 10]%N RustGreenApp.initial
       (RustGreenApp.createSession [102; 110; 32; 102; 40; 41]%N) 102%N 41%N
       (or_introl eq_refl) eq_refl eq_refl))))).
Defined.

(** ** The end of an analysis *)

Section Completion.

Import RustGreenApp.

Lemma resume_completed : forall r st,
    sr_status r = s_completed ->
    pollSessionStatus_resume (Ok r) st
    = (fst (stopPolling st),
       UpdateProgress (sr_progress r) s_completed
         :: snd (stopPolling st) ++ fetchAndDisplayResults (currentSessionId st)).
Proof.
  intros r st H. unfold pollSessionStatus_resume. rewrite H.
  change (JsString.eqb s_completed s_completed) with true. cbv iota.
  now destruct (stopPolling st).
Qed.

Lemma resume_failed : forall r st,
    sr_status r = s_failed ->
    pollSessionStatus_resume (Ok r) st
    = (fst (stopPolling st),
       UpdateProgress (sr_progress r) s_failed
         :: snd (stopPolling st)
         ++ [ShowMessage msg_failed (of_string "error"); RestoreAnalysisButtons]).
Proof.
  intros r st H. unfold pollSessionStatus_resume. rewrite H.
  change (JsString.eqb s_failed s_completed) with false.
  change (JsString.eqb s_failed s_failed) with true. cbv iota.
  now destruct (stopPolling st).
Qed.

Lemma stopPolling_twice : forall st,
    fst (stopPolling (fst (stopPolling st))) = fst (stopPolling st).
Proof.
  intros st. unfold stopPolling, stopTimeElapsedCounter. cbn.
  destruct (timeElapsedInterval st); reflexivity.
Qed.

End Completion.

(** X11.  When a status 'completed' arrives while a session is polled,
    the page stops polling, forgets the session and requests exactly the
    session it polled.  A second terminal status that was still under
    way finds no session: it requests nothing, changes nothing, and, when
    it is 'completed', shows the message about an invalid session id. *)
Theorem X11_completed_twice :
  forall (st : RustGreenApp.state) (first second : status_response) (sid : jsstring),
    RustGreenApp.currentSessionId st = Some sid ->
    truthy sid = true ->
    sr_status first = s_completed ->
    sr_status second = s_completed \/ sr_status second = s_failed ->
    let p1 := RustGreenApp.pollSessionStatus_resume (Ok first) st in
    let p2 := RustGreenApp.pollSessionStatus_resume (Ok second) (fst p1) in
    RustGreenApp.fetches (snd p1) = [RustGreenApp.getSession sid]
    /\ RustGreenApp.currentSessionId (fst p1) = None
    /\ RustGreenApp.polling (fst p1) = false
    /\ RustGreenApp.fetches (snd p2) = []
    /\ (sr_status second = s_completed ->
        In (RustGreenApp.ShowMessage RustGreenApp.msg_invalid_id (of_string "error"))
           (snd p2))
    /\ fst p2 = fst p1.
Proof.
  intros st r1 r2 sid Hid Ht H1 H2 p1 p2.
  assert (E1 : p1 = (fst (RustGreenApp.stopPolling st),
                     RustGreenApp.UpdateProgress (sr_progress r1) s_completed
                       :: snd (RustGreenApp.stopPolling st)
                       ++ [RustGreenApp.Fetch (RustGreenApp.getSession sid)
                                              RustGreenApp.ThenResults])).
  { subst p1. rewrite (resume_completed r1 st H1), Hid.
    unfold RustGreenApp.fetchAndDisplayResults. cbn [truthy_opt]. now rewrite Ht. }
  destruct (stopPolling_state st) as [Hp [Hc _]].
  assert (F1 : fst p1 = fst (RustGreenApp.stopPolling st)) by now rewrite E1.
  split.
  { rewrite E1. cbn [snd]. change (?x :: ?l ++ ?m) with ((x :: l) ++ m).
    rewrite fetches_app. cbn [RustGreenApp.fetches flat_map].
    change (flat_map _ (snd (RustGreenApp.stopPolling st)))
      with (RustGreenApp.fetches (snd (RustGreenApp.stopPolling st))).
    now rewrite stopPolling_fetches. }
  split; [now rewrite F1|].
  split; [rewrite F1; unfold RustGreenApp.polling; now rewrite Hp|].
  subst p2. rewrite F1. destruct H2 as [H2|H2].
  - rewrite (resume_completed r2 _ H2), Hc. cbn [fst snd].
    split.
    { change (?x :: ?l ++ ?m) with ((x :: l) ++ m).
      rewrite fetches_app. cbn [RustGreenApp.fetches flat_map].
      change (flat_map _ (snd (RustGreenApp.stopPolling ?s)))
        with (RustGreenApp.fetches (snd (RustGreenApp.stopPolling s))).
      now rewrite stopPolling_fetches. }
    split; [|apply stopPolling_twice].
    intros _. right. apply in_or_app. right. now left.
  - rewrite (resume_failed r2 _ H2). cbn [fst snd].
    split.
    { change (?x :: ?l ++ ?m) with ((x :: l) ++ m).
      rewrite fetches_app. cbn [RustGreenApp.fetches flat_map].
      change (flat_map _ (snd (RustGreenApp.stopPolling ?s)))
        with (RustGreenApp.fetches (snd (RustGreenApp.stopPolling s))).
      now rewrite stopPolling_fetches. }
    split; [|apply stopPolling_twice].
    intros E. rewrite H2 in E. discriminate E.
Qed.

(** X11 on the sample session: the first 'completed' requests the
    session, the second shows the message. *)
Lemma X11_completed_twice_witness :
  RustGreenApp.fetches
    (snd (RustGreenApp.pollSessionStatus_resume (Ok Examples.completed)
            Examples.analysis_polling))
  = [RustGreenApp.getSession Examples.sid]
  /\ In (RustGreenApp.ShowMessage RustGreenApp.msg_invalid_id (of_string "error"))
        (snd (RustGreenApp.pollSessionStatus_resume (Ok Examples.completed)
                (fst (RustGreenApp.pollSessionStatus_resume (Ok Examples.completed)
                        Examples.analysis_polling)))).
Proof.
  pose proof (X11_completed_twice Examples.analysis_polling Examples.completed
                Examples.completed Examples.sid eq_refl eq_refl eq_refl
                (or_introl eq_refl)) as [H1 [_ [_ [_ [H5 _]]]]].
  split; [exact H1|exact (H5 eq_refl)].
Defined.

(** ** The summary of the results and the class of a finding *)

Section Summary.

Import AnalysisMore.

Lemma tally_fold : forall analyses acc,
    fold_left tally analyses acc
    = {| replaceableCount :=
           replaceableCount acc + length (of_type t_replaceable analyses);
         nonReplaceableCount :=
           nonReplaceableCount acc + length (of_type t_non_replaceable analyses);
         conditionallyReplaceableCount :=
           conditionallyReplaceableCount acc
           + length (of_type t_conditionally_replaceable analyses) |}.
Proof.
  induction analyses as [|t analyses IH]; intros acc.
  - cbn. rewrite !Nat.add_0_r. now destruct acc.
  - cbn [fold_left]. rewrite IH. unfold tally, of_type. cbn [filter].
    destruct (JsString.eqb t t_replaceable) eqn:E1.
    { apply eqb_eq in E1. subst t. cbn [replaceableCount nonReplaceableCount
        conditionallyReplaceableCount JsString.eqb].
      change (JsString.eqb t_replaceable t_non_replaceable) with false.
      change (JsString.eqb t_replaceable t_conditionally_replaceable) with false.
      cbn [length]. f_equal; lia. }
    destruct (JsString.eqb t t_non_replaceable) eqn:E2.
    { apply eqb_eq in E2. subst t. cbn [replaceableCount nonReplaceableCount
        conditionallyReplaceableCount].
      change (JsString.eqb t_non_replaceable t_conditionally_replaceable) with false.
      cbn [length]. f_equal; lia. }
    destruct (JsString.eqb t t_conditionally_replaceable) eqn:E3.
    { cbn [replaceableCount nonReplaceableCount conditionallyReplaceableCount length].
      f_equal; lia. }
    reflexivity.
Qed.

Lemma of_type_disjoint : forall analyses,
    length (of_type t_replaceable analyses)
    + length (of_type t_non_replaceable analyses)
    + length (of_type t_conditionally_replaceable analyses)
    + length (filter (fun t => negb (JsString.eqb t t_replaceable
                                     || JsString.eqb t t_non_replaceable
                                     || JsString.eqb t t_conditionally_replaceable))
                     analyses)
    = length analyses.
Proof.
  induction analyses as [|t analyses IH]; [reflexivity|].
  unfold of_type in *. cbn [filter].
  destruct (JsString.eqb t t_replaceable) eqn:E1.
  { apply eqb_eq in E1. subst t.
    change (JsString.eqb t_replaceable t_non_replaceable) with false.
    change (JsString.eqb t_replaceable t_conditionally_replaceable) with false.
    cbn [orb negb length]. lia. }
  destruct (JsString.eqb t t_non_replaceable) eqn:E2.
  { apply eqb_eq in E2. subst t.
    change (JsString.eqb t_non_replaceable t_conditionally_replaceable) with false.
    cbn [orb negb length]. lia. }
  destruct (JsString.eqb t t_conditionally_replaceable) eqn:E3;
    cbn [orb negb length]; lia.
Qed.

Lemma replace_first_absent : forall c d s,
    ~ In c s -> replace_first c d s = s.
Proof.
  intros c d s. induction s as [|x s IH]; intros H; [reflexivity|].
  cbn [replace_first]. destruct (N.eqb_spec x c) as [->|Hne].
  - exfalso. apply H. now left.
  - f_equal. apply IH. intros Hin. apply H. now right.
Qed.

Lemma replace_first_found : forall c d pre post,
    ~ In c pre -> replace_first c d (pre ++ c :: post) = pre ++ d :: post.
Proof.
  intros c d pre post. induction pre as [|x pre IH]; intros H.
  - cbn. now rewrite N.eqb_refl.
  - cbn [app replace_first]. destruct (N.eqb_spec x c) as [->|Hne].
    + exfalso. apply H. now left.
    + f_equal. apply IH. intros Hin. apply H. now right.
Qed.

Lemma replace_first_length : forall c d s,
    length (replace_first c d s) = length s.
Proof.
  intros c d s. induction s as [|x s IH]; [reflexivity|].
  cbn [replace_first]. destruct (x =? c)%N; cbn [length]; congruence.
Qed.

Lemma replace_first_count : forall c d s,
    d <> c ->
    count_occ N.eq_dec (replace_first c d s) c = pred (count_occ N.eq_dec s c).
Proof.
  intros c d s Hd. induction s as [|x s IH]; [reflexivity|].
  cbn [replace_first]. destruct (N.eqb_spec x c) as [->|Hne].
  - cbn [count_occ]. destruct (N.eq_dec d c) as [E|_]; [now elim Hd|].
    destruct (N.eq_dec c c) as [_|E]; [reflexivity|now elim E].
  - cbn [count_occ]. destruct (N.eq_dec x c) as [E|_]; [now elim Hne|exact IH].
Qed.

End Summary.

(** X12.  With the four summary items in the document, the summary of
    the results shows the number of analyses as total and, for each of
    the three types, the number of analyses of that type; an analysis of
    any other type is counted in the total only, so the three counters
    add up to the total exactly when every analysis has one of the three
    types.  The second item is marked exactly when some analysis is
    replaceable.  With fewer than four items nothing is shown. *)
Theorem X12_results_summary : forall (items : nat) (analyses : list jsstring),
    AnalysisMore.updateResultsSummary items analyses
    = (if Nat.leb 4 items then
         Some {| AnalysisMore.totalIssues := length analyses;
                 AnalysisMore.counts :=
                   {| AnalysisMore.replaceableCount :=
                        length (AnalysisMore.of_type AnalysisMore.t_replaceable analyses);
                      AnalysisMore.nonReplaceableCount :=
                        length (AnalysisMore.of_type AnalysisMore.t_non_replaceable
                                                     analyses);
                      AnalysisMore.conditionallyReplaceableCount :=
                        length (AnalysisMore.of_type
                                  AnalysisMore.t_conditionally_replaceable analyses) |};
                 AnalysisMore.has_issues :=
                   existsb (fun t => JsString.eqb t AnalysisMore.t_replaceable)
                           analyses |}
       else None)
    /\ length (AnalysisMore.of_type AnalysisMore.t_replaceable analyses)
       + length (AnalysisMore.of_type AnalysisMore.t_non_replaceable analyses)
       + length (AnalysisMore.of_type AnalysisMore.t_conditionally_replaceable analyses)
       <= length analyses
    /\ (length (AnalysisMore.of_type AnalysisMore.t_replaceable analyses)
        + length (AnalysisMore.of_type AnalysisMore.t_non_replaceable analyses)
        + length (AnalysisMore.of_type AnalysisMore.t_conditionally_replaceable analyses)
        = length analyses
        <-> Forall (fun t => t = AnalysisMore.t_replaceable
                             \/ t = AnalysisMore.t_non_replaceable
                             \/ t = AnalysisMore.t_conditionally_replaceable)
                   analyses).
Proof.
  intros items analyses. split; [|split].
  - unfold AnalysisMore.updateResultsSummary.
    destruct (Nat.leb 4 items); [|reflexivity].
    rewrite tally_fold. cbn [AnalysisMore.replaceableCount
      AnalysisMore.nonReplaceableCount AnalysisMore.conditionallyReplaceableCount
      Nat.add]. do 2 f_equal.
    unfold AnalysisMore.of_type.
    induction analyses as [|t analyses IH]; [reflexivity|].
    cbn [filter existsb]. destruct (JsString.eqb t AnalysisMore.t_replaceable);
      [reflexivity|exact IH].
  - pose proof (of_type_disjoint analyses). lia.
  - pose proof (of_type_disjoint analyses) as H.
    set (other := filter _ analyses) in H.
    assert (E : length other = 0 <->
                Forall (fun t => t = AnalysisMore.t_replaceable
                                 \/ t = AnalysisMore.t_non_replaceable
                                 \/ t = AnalysisMore.t_conditionally_replaceable)
                       analyses).
    { subst other. clear H. induction analyses as [|t analyses IH].
      - split; [constructor|reflexivity].
      - cbn [filter].
        destruct (JsString.eqb t AnalysisMore.t_replaceable
                  || JsString.eqb t AnalysisMore.t_non_replaceable
                  || JsString.eqb t AnalysisMore.t_conditionally_replaceable) eqn:Et;
          cbn [negb].
        + rewrite IH. rewrite !orb_true_iff, !eqb_eq in Et. split.
          * intros HF. constructor; [tauto|exact HF].
          * intros HF. now inversion HF.
        + cbn [length]. split; [discriminate|].
          intros HF. inversion HF as [|? ? Ht _]. subst.
          rewrite !orb_false_iff, !eqb_neq in Et. tauto. }
    rewrite <- E. lia.
Qed.

(** X13.  The class of a finding card is its code block type with the
    first underscore turned into a hyphen: later underscores stay, a
    type without underscore is its own class, and the class is as long
    as the type and has one underscore less. *)
Theorem X13_class_of_finding : forall pre post : jsstring,
    ~ In AnalysisMore.UNDERSCORE pre ->
    AnalysisMore.typeClass (pre ++ AnalysisMore.UNDERSCORE :: post)
    = pre ++ AnalysisMore.HYPHEN :: post
    /\ AnalysisMore.typeClass pre = pre
    /\ length (AnalysisMore.typeClass (pre ++ AnalysisMore.UNDERSCORE :: post))
       = length (pre ++ AnalysisMore.UNDERSCORE :: post)
    /\ count_occ N.eq_dec
         (AnalysisMore.typeClass (pre ++ AnalysisMore.UNDERSCORE :: post))
         AnalysisMore.UNDERSCORE
       = count_occ N.eq_dec post AnalysisMore.UNDERSCORE.
Proof.
  intros pre post H. unfold AnalysisMore.typeClass.
  split; [now apply replace_first_found|].
  split; [now apply replace_first_absent|].
  split; [apply replace_first_length|].
  rewrite replace_first_count by discriminate.
  rewrite count_occ_app, count_occ_cons_eq by reflexivity.
  apply (count_occ_not_In N.eq_dec) in H.
  match goal with |- pred (?a + _) = _ => replace a with 0 by (symmetry; exact H) end.
  reflexivity.
Qed.

(** X13 on a type with two underscores: only the first becomes a
    hyphen. *)
Lemma X13_class_of_finding_witness :
  AnalysisMore.typeClass MoreExamples.two_underscores = of_string "not-yet_known".
Proof.
  refine (proj1 (X13_class_of_finding (of_string "not") (of_string "yet_known") _)).
  cbn. intros [H|[H|[H|[]]]]; discriminate H.
Defined.

(** ** Reading an escaped text back *)

Section Decoding.

Import AnalysisMore.

Lemma decode_entity : forall c rest,
    decode 0 (Spec.four_entities c ++ rest) = c :: decode 0 rest.
Proof.
  intros c rest. unfold Spec.four_entities, Spec.three_entities.
  destruct (N.eqb_spec c NBSP) as [->|Hn]; [reflexivity|].
  destruct (N.eqb_spec c AMP) as [->|Ha]; [reflexivity|].
  destruct (N.eqb_spec c LT) as [->|Hl]; [reflexivity|].
  destruct (N.eqb_spec c GT) as [->|Hg]; [reflexivity|].
  cbn [app decode]. 
  assert (E : (AMP =? c)%N = false) by (apply N.eqb_neq; congruence).
  change (of_string "&amp;") with (AMP :: of_string "amp;").
  change (of_string "&nbsp;") with (AMP :: of_string "nbsp;").
  change (of_string "&lt;") with (AMP :: of_string "lt;").
  change (of_string "&gt;") with (AMP :: of_string "gt;").
  cbn [prefix_eqb]. rewrite E. reflexivity.
Qed.

Lemma decode_replaced : forall s,
    decode 0 (Spec.replaced Spec.four_entities s) = s.
Proof.
  induction s as [|c s IH]; [reflexivity|].
  unfold Spec.replaced in *. cbn [flat_map].
  now rewrite decode_entity, IH.
Qed.

End Decoding.

(** X14.  Escaping loses nothing: reading the four entities of an escaped
    text back gives the text, on each of the three pages, so two texts
    with the same escaped form are the same text. *)
Theorem X14_escapeHtml_read_back : forall a b : jsstring,
    AnalysisMore.decode 0 (RustGreenApp.escapeHtml a) = a
    /\ AnalysisMore.decode 0 (SessionDetailApp.escapeHtml a) = a
    /\ AnalysisMore.decode 0 (SessionsApp.escapeHtml a) = a
    /\ (RustGreenApp.escapeHtml a = RustGreenApp.escapeHtml b -> a = b).
Proof.
  intros a b.
  assert (E : forall s, AnalysisMore.decode 0 (RustGreenApp.escapeHtml s) = s).
  { intros s. rewrite escapeHtml_escape_string, escape_string_replaced.
    apply decode_replaced. }
  repeat split; try apply E.
  intros H. rewrite <- (E a), <- (E b). now rewrite H.
Qed.

(** X14 on a text with a tag and a no-break space. *)
Lemma X14_escapeHtml_read_back_witness :
  AnalysisMore.decode 0 (RustGreenApp.escapeHtml [60; 98; 62; 38; 160]%N)
  = [60; 98; 62; 38; 160]%N
  /\ [60; 98; 62; 38; 160]%N = [60; 98; 62; 38; 160]%N.
Proof.
  pose proof (X14_escapeHtml_read_back [60; 98; 62; 38; 160]%N [60; 98; 62; 38; 160]%N)
    as [H1 [_ [_ H4]]].
  split; [exact H1|exact (H4 eq_refl)].
Defined.

(** ** The intervals of the pages *)

Section Intervals.

Lemma NoDup_removed : forall (x : timer_id) l,
    NoDup l -> NoDup (remove Pos.eq_dec x l).
Proof.
  intros x l H. induction H as [|y l Hy H IH]; [constructor|].
  cbn [remove]. destruct (Pos.eq_dec x y); [exact IH|].
  constructor; [|exact IH]. intros Hin. apply in_remove in Hin. tauto.
Qed.

Lemma in_removed : forall (x y : timer_id) l,
    In y (remove Pos.eq_dec x l) <-> In y l /\ y <> x.
Proof.
  intros x y l. split.
  - apply in_remove.
  - intros [H1 H2]. now apply in_in_remove.
Qed.

Lemma ok_clear_polling : forall bg i elapsed next active,
    Timers.ok bg (Some i) elapsed next active ->
    Timers.ok bg None elapsed next (remove Pos.eq_dec i active).
Proof.
  intros bg i elapsed next active [Ha [Hr [Hin [Hbg Hlt]]]].
  unfold Timers.ok, Timers.remembered in *. cbn [app] in *.
  inversion Hr as [|? ? Hi Hr']. subst.
  assert (Hib : ~ In i bg) by (apply Hbg; now left).
  split; [now apply NoDup_removed|]. split; [exact Hr'|]. split; [|split].
  - intros id. rewrite in_removed, Hin. cbn [In]. split.
    + intros [[[E|H]|H] Hne]; [now elim Hne|now left|now right].
    + intros [H|H]; (split; [tauto|intros ->; tauto]).
  - intros id H. apply Hbg. now right.
  - intros id H. apply in_removed in H. now apply Hlt.
Qed.

Lemma ok_clear_elapsed : forall bg polling t next active,
    Timers.ok bg polling (Some t) next active ->
    Timers.ok bg polling None next (remove Pos.eq_dec t active).
Proof.
  intros bg polling t next active [Ha [Hr [Hin [Hbg Hlt]]]].
  unfold Timers.ok, Timers.remembered in *.
  split; [now apply NoDup_removed|].
  destruct polling as [i|]; cbn [app] in *.
  - inversion Hr as [|? ? Hi _]. subst.
    assert (Hne : i <> t) by (intros ->; apply Hi; now left).
    assert (Htb : ~ In t bg) by (apply Hbg; right; now left).
    split; [repeat constructor; intros []|]. split; [|split].
    + intros id. rewrite in_removed, Hin. cbn [In]. split.
      * intros [[[E|[E|[]]]|H] Hn]; [left; now left|now elim Hn|now right].
      * intros [[E|[]]|H]; (split; [tauto|intros ->; tauto]).
    + intros id [E|[]]. apply Hbg. now left.
    + intros id H. apply in_removed in H. now apply Hlt.
  - assert (Htb : ~ In t bg) by (apply Hbg; now left).
    split; [constructor|]. split; [|split].
    + intros id. rewrite in_removed, Hin. cbn [In]. split.
      * intros [[[E|[]]|H] Hn]; [now elim Hn|now right].
      * intros [[]|H]. split; [tauto|intros ->; tauto].
    + intros id [].
    + intros id H. apply in_removed in H. now apply Hlt.
Qed.

Lemma ok_set_polling : forall bg elapsed next active,
    Timers.ok bg None elapsed next active ->
    Timers.ok bg (Some next) elapsed (Pos.succ next) (next :: active).
Proof.
  intros bg elapsed next active [Ha [Hr [Hin [Hbg Hlt]]]].
  unfold Timers.ok, Timers.remembered in *. cbn [app] in *.
  assert (Hn : ~ In next active).
  { intros H. apply Hlt in H. lia. }
  split; [now constructor|]. split; [|split; [|split]].
  - constructor; [|exact Hr]. intros H. apply Hn, Hin. now left.
  - intros id. cbn [In]. rewrite Hin. tauto.
  - intros id [<-|H]; [|now apply Hbg]. intros H. apply Hn, Hin. now right.
  - intros id [<-|H]; [lia|]. apply Hlt in H. lia.
Qed.

Lemma ok_set_elapsed : forall bg polling next active,
    Timers.ok bg polling None next active ->
    Timers.ok bg polling (Some next) (Pos.succ next) (next :: active).
Proof.
  intros bg polling next active [Ha [Hr [Hin [Hbg Hlt]]]].
  unfold Timers.ok, Timers.remembered in *.
  assert (Hn : ~ In next active).
  { intros H. apply Hlt in H. lia. }
  assert (Hnb : ~ In next bg).
  { intros H. apply Hn, Hin. now right. }
  split; [now constructor|].
  destruct polling as [i|]; cbn [app] in *.
  - split; [|split; [|split]].
    + constructor; [|repeat constructor; intros []].
      intros [E|[]]. subst. apply Hn, Hin. left. now left.
    + intros id. cbn [In]. rewrite Hin. cbn [In]. tauto.
    + intros id [E|[<-|[]]]; [|exact Hnb]. apply Hbg. now left.
    + intros id [<-|H]; [lia|]. apply Hlt in H. lia.
  - split; [repeat constructor; intros []|]. split; [|split].
    + intros id. cbn [In]. rewrite Hin. cbn [In]. tauto.
    + intros id [<-|[]]. exact Hnb.
    + intros id [<-|H]; [lia|]. apply Hlt in H. lia.
Qed.

Lemma ok_at_most_two : forall bg polling elapsed next active,
    Timers.ok bg polling elapsed next active -> length active <= 2 + length bg.
Proof.
  intros bg polling elapsed next active [Ha [Hr [Hin _]]].
  assert (H : length active <= length (Timers.remembered polling elapsed ++ bg)).
  { apply NoDup_incl_length; [exact Ha|]. intros id H.
    apply in_or_app. now apply Hin. }
  rewrite length_app in H. unfold Timers.remembered in H.
  destruct polling, elapsed; cbn in H; lia.
Qed.

Lemma ok_none : forall bg next active,
    Timers.ok bg None None next active -> forall id, In id active <-> In id bg.
Proof.
  intros bg next active [_ [_ [Hin _]]] id. rewrite Hin. cbn. tauto.
Qed.

End Intervals.

Section AnalysisIntervals.

Import RustGreenApp AnalysisMore.

Variable bg : list timer_id.

Lemma timers_after_app : forall a b active,
    timers_after (a ++ b) active = timers_after b (timers_after a active).
Proof.
  induction a as [|e a IH]; intros b active; [reflexivity|].
  destruct e; cbn [app timers_after]; apply IH.
Qed.

Lemma stopTimeElapsedCounter_ok : forall st active,
    timers_ok bg st active ->
    timers_ok bg (fst (stopTimeElapsedCounter st))
              (timers_after (snd (stopTimeElapsedCounter st)) active).
Proof.
  intros [sid i start [t|] n] active H;
    unfold timers_ok, stopTimeElapsedCounter in *; cbn in *.
  - now apply ok_clear_elapsed.
  - exact H.
Qed.

Lemma startTimeElapsedCounter_ok : forall st active,
    timers_ok bg st active ->
    timers_ok bg (fst (startTimeElapsedCounter st))
              (timers_after (snd (startTimeElapsedCounter st)) active).
Proof.
  intros [sid i start [t|] n] active H;
    unfold timers_ok, startTimeElapsedCounter in *; cbn in *.
  - now apply ok_set_elapsed, ok_clear_elapsed.
  - now apply ok_set_elapsed.
Qed.

Lemma stopPolling_ok : forall st active,
    timers_ok bg st active ->
    timers_ok bg (fst (stopPolling st)) (timers_after (snd (stopPolling st)) active)
    /\ (forall id, In id (timers_after (snd (stopPolling st)) active) <-> In id bg).
Proof.
  intros [sid [i|] start [t|] n] active H;
    unfold timers_ok, stopPolling, stopTimeElapsedCounter in *; cbn in *.
  - assert (H' := ok_clear_elapsed _ _ _ _ _ (ok_clear_polling _ _ _ _ _ H)).
    split; [exact H'|exact (ok_none _ _ _ H')].
  - assert (H' := ok_clear_polling _ _ _ _ _ H).
    split; [exact H'|exact (ok_none _ _ _ H')].
  - assert (H' := ok_clear_elapsed _ _ _ _ _ H).
    split; [exact H'|exact (ok_none _ _ _ H')].
  - split; [exact H|exact (ok_none _ _ _ H)].
Qed.

Lemma stopPolling_none : forall st,
    pollingInterval (fst (stopPolling st)) = None
    /\ timeElapsedInterval (fst (stopPolling st)) = None.
Proof.
  intros st. unfold stopPolling, stopTimeElapsedCounter. cbn.
  destruct (timeElapsedInterval st); cbn; auto.
Qed.

Lemma pollSessionStatus_cases : forall now st,
    pollSessionStatus now st = (st, [])
    \/ (exists r, pollSessionStatus now st = (st, [Fetch r ThenStatus]))
    \/ pollSessionStatus now st
       = (fst (stopPolling st),
          ShowMessage msg_timeout (of_string "error") :: snd (stopPolling st)
            ++ [RestoreAnalysisButtons]).
Proof.
  intros now st. unfold pollSessionStatus.
  destruct (currentSessionId st) as [sid|]; [|now left].
  destruct (negb (truthy sid)); [now left|].
  destruct (_ >? _)%Z.
  - right. right. now destruct (stopPolling st).
  - right. left. now eexists.
Qed.

Lemma pollSessionStatus_ok : forall now st active,
    timers_ok bg st active ->
    timers_ok bg (fst (pollSessionStatus now st))
              (timers_after (snd (pollSessionStatus now st)) active).
Proof.
  intros now st active H.
  destruct (pollSessionStatus_cases now st) as [E|[[r E]|E]]; rewrite E; cbn [fst snd].
  - exact H.
  - exact H.
  - cbn [timers_after]. rewrite timers_after_app. cbn [timers_after].
    now apply stopPolling_ok.
Qed.

Lemma pollSessionStatus_both : forall now st,
    (pollingInterval st = None <-> timeElapsedInterval st = None) ->
    (pollingInterval (fst (pollSessionStatus now st)) = None
     <-> timeElapsedInterval (fst (pollSessionStatus now st)) = None).
Proof.
  intros now st H.
  destruct (pollSessionStatus_cases now st) as [E|[[r E]|E]]; rewrite E; cbn [fst];
    try exact H.
  destruct (stopPolling_none st) as [-> ->]. tauto.
Qed.

Lemma startPolling_ok : forall now sid st active,
    timers_ok bg st active ->
    timers_ok bg (fst (startPolling now sid st))
              (timers_after (snd (startPolling now sid st)) active).
Proof.
  intros now sid st active H. unfold startPolling.
  pose proof (stopPolling_ok st active H) as [H1 _].
  pose proof (stopPolling_none st) as [N1 N2].
  destruct (stopPolling st) as [st1 e1]. cbn [fst snd] in *.
  match goal with |- context [pollSessionStatus now ?x] => set (st2 := x) end.
  assert (H2 : timers_ok bg st2 (timers_after e1 active)) by exact H1.
  pose proof (pollSessionStatus_ok now st2 _ H2) as H3.
  assert (N3 : pollingInterval (fst (pollSessionStatus now st2)) = None).
  { destruct (pollSessionStatus_cases now st2) as [E|[[r E]|E]]; rewrite E; cbn [fst];
      try exact N1. apply stopPolling_none. }
  destruct (pollSessionStatus now st2) as [st3 e3]. cbn [fst snd] in *.
  match goal with |- context [startTimeElapsedCounter ?x] => set (st4 := x) end.
  assert (H4 : timers_ok bg st4
                 (next_timer st3 :: timers_after e3 (timers_after e1 active))).
  { unfold timers_ok in *. subst st4. cbn. rewrite N3 in H3.
    now apply ok_set_polling. }
  pose proof (startTimeElapsedCounter_ok st4 _ H4) as H5.
  destruct (startTimeElapsedCounter st4) as [st5 e5]. cbn [fst snd] in *.
  rewrite !timers_after_app. cbn [timers_after]. exact H5.
Qed.

Lemma startPolling_both : forall now sid st,
    pollingInterval (fst (startPolling now sid st)) <> None
    /\ timeElapsedInterval (fst (startPolling now sid st)) <> None.
Proof.
  intros now sid st. unfold startPolling.
  destruct (stopPolling st) as [st1 e1].
  match goal with |- context [pollSessionStatus now ?x] =>
    destruct (pollSessionStatus now x) as [st3 e3] end.
  unfold startTimeElapsedCounter. cbn. split; discriminate.
Qed.

Lemma handle_page_ok : forall ev st active,
    timers_ok bg st active ->
    timers_ok bg (fst (handle_page ev st))
              (timers_after (snd (handle_page ev st)) active).
Proof.
  intros ev st active H. destruct ev as [value|now r|ev|r]; cbn [handle_page].
  - unfold startAnalysis. destruct (negb (truthy (trim value))); exact H.
  - destruct r as [id|m]; cbn [startAnalysis_resume]; [|exact H].
    match goal with |- context [startPolling now id ?x] => set (st1 := x) end.
    pose proof (startPolling_ok now id st1 active H) as H1.
    destruct (startPolling now id st1) as [st2 e2]. exact H1.
  - destruct ev as [now|[r|m]]; cbn [handle].
    + destruct (pollingInterval st); [now apply pollSessionStatus_ok|exact H].
    + unfold pollSessionStatus_resume.
      pose proof (stopPolling_ok st active H) as [H1 _].
      destruct (JsString.eqb (sr_status r) s_completed);
        [|destruct (JsString.eqb (sr_status r) s_failed)].
      * destruct (stopPolling st) as [st1 e1]. cbn [fst snd timers_after] in *.
        rewrite timers_after_app. unfold fetchAndDisplayResults.
        destruct (truthy_opt (currentSessionId st));
          [destruct (currentSessionId st)|]; exact H1.
      * destruct (stopPolling st) as [st1 e1]. cbn [fst snd timers_after] in *.
        rewrite timers_after_app. exact H1.
      * exact H.
    + exact H.
  - destruct r; exact H.
Qed.

Lemma handle_page_both : forall ev st,
    (pollingInterval st = None <-> timeElapsedInterval st = None) ->
    (pollingInterval (fst (handle_page ev st)) = None
     <-> timeElapsedInterval (fst (handle_page ev st)) = None).
Proof.
  intros ev st H. destruct ev as [value|now r|ev|r]; cbn [handle_page].
  - unfold startAnalysis. destruct (negb (truthy (trim value))); exact H.
  - destruct r as [id|m]; cbn [startAnalysis_resume]; [|exact H].
    match goal with |- context [startPolling now id ?x] =>
      pose proof (startPolling_both now id x) as [B1 B2];
      destruct (startPolling now id x) as [st2 e2] end.
    cbn [fst] in *. tauto.
  - destruct ev as [now|[r|m]]; cbn [handle].
    + destruct (pollingInterval st) eqn:E; [|cbn [fst]; now rewrite E].
      apply pollSessionStatus_both. now rewrite E.
    + unfold pollSessionStatus_resume.
      pose proof (stopPolling_none st) as [N1 N2].
      destruct (JsString.eqb (sr_status r) s_completed);
        [|destruct (JsString.eqb (sr_status r) s_failed)].
      * destruct (stopPolling st) as [st1 e1]. cbn [fst] in *. now rewrite N1, N2.
      * destruct (stopPolling st) as [st1 e1]. cbn [fst] in *. now rewrite N1, N2.
      * exact H.
    + exact H.
  - exact H.
Qed.

Lemma run_page_ok : forall evs st active,
    timers_ok bg st active ->
    (pollingInterval st = None <-> timeElapsedInterval st = None) ->
    timers_ok bg (fst (run_page evs st active)) (snd (run_page evs st active))
    /\ (pollingInterval (fst (run_page evs st active)) = None
        <-> timeElapsedInterval (fst (run_page evs st active)) = None).
Proof.
  induction evs as [|ev evs IH]; intros st active H B; [now split|].
  cbn [run_page]. apply IH; [now apply handle_page_ok|now apply handle_page_both].
Qed.

End AnalysisIntervals.

Lemma init_ok :
  AnalysisMore.timers_ok [2; 1]%positive (fst (AnalysisMore.init RustGreenApp.initial))
                         [2; 1]%positive.
Proof.
  unfold AnalysisMore.timers_ok, Timers.ok. cbn.
  split; [repeat constructor; cbn; intuition discriminate|].
  split; [constructor|].
  split; [intros id; tauto|].
  split; [intros id []|].
  intros id [<-|[<-|[]]]; lia.
Qed.

(** X15.  On the analysis page, [init] registers two intervals and keeps
    no handle of them.  From then on, whatever happens (clicks on the
    analyze button, sessions created or refused, ticks of the polling
    loop, statuses and results arriving), the intervals registered in the
    browser are these two and those whose handles the page remembers,
    each registered once: the polling loop and the counter of elapsed
    time never leave an interval running without a handle.  At most four
    intervals are registered, the counter runs exactly while the polling
    loop does, and after [stopPolling] only the two of [init] are left. *)
Theorem X15_analysis_intervals : forall evs : list AnalysisMore.page_event,
    let start := AnalysisMore.init RustGreenApp.initial in
    let background := AnalysisMore.timers_after (snd start) [] in
    let st := fst (AnalysisMore.run_page evs (fst start) background) in
    let active := snd (AnalysisMore.run_page evs (fst start) background) in
    length background = 2
    /\ AnalysisMore.timers_ok background st active
    /\ length active <= 4
    /\ (RustGreenApp.pollingInterval st = None
        <-> RustGreenApp.timeElapsedInterval st = None)
    /\ (forall id,
           In id (AnalysisMore.timers_after (snd (RustGreenApp.stopPolling st)) active)
           <-> In id background).
Proof.
  intros evs start background st active.
  assert (Eb : background = [2; 1]%positive) by reflexivity.
  destruct (run_page_ok background evs (fst start) background) as [H B].
  { rewrite Eb. exact init_ok. }
  { cbn. tauto. }
  fold st active in H, B.
  split; [reflexivity|]. split; [exact H|].
  split; [apply ok_at_most_two in H; rewrite Eb in H; cbn [length] in H; lia|].
  split; [exact B|]. now apply stopPolling_ok.
Qed.

Section DetailIntervals.

Import SessionDetailApp DetailMore.

Lemma detail_timers_after_app : forall a b active,
    timers_after (a ++ b) active = timers_after b (timers_after a active).
Proof.
  induction a as [|e a IH]; intros b active; [reflexivity|].
  destruct e; cbn [app timers_after]; apply IH.
Qed.

Lemma detail_startTimeElapsedCounter_ok : forall st active,
    timers_ok st active ->
    timers_ok (fst (startTimeElapsedCounter st))
              (timers_after (snd (startTimeElapsedCounter st)) active).
Proof.
  intros [sid data i start [t|] n pg] active H;
    unfold timers_ok, startTimeElapsedCounter in *; cbn in *.
  - now apply ok_set_elapsed, ok_clear_elapsed.
  - now apply ok_set_elapsed.
Qed.

Lemma detail_stopTimeElapsedCounter_ok : forall st active,
    timers_ok st active ->
    timers_ok (fst (stopTimeElapsedCounter st))
              (timers_after (snd (stopTimeElapsedCounter st)) active).
Proof.
  intros [sid data i start [t|] n pg] active H;
    unfold timers_ok, stopTimeElapsedCounter in *; cbn in *.
  - now apply ok_clear_elapsed.
  - exact H.
Qed.

Lemma updateProgressDisplay_ok : forall s st active,
    timers_ok st active ->
    timers_ok (fst (updateProgressDisplay s st))
              (timers_after (snd (updateProgressDisplay s st)) active).
Proof.
  intros s st active H. unfold updateProgressDisplay.
  destruct (progress_display (dom st)); [|exact H].
  destruct (in_progress (status s)).
  - destruct (timeElapsedInterval st) eqn:E; [exact H|].
    pose proof (detail_startTimeElapsedCounter_ok st active H) as H1.
    destruct (startTimeElapsedCounter st) as [st1 e1]. exact H1.
  - pose proof (detail_stopTimeElapsedCounter_ok st active H) as H1.
    destruct (stopTimeElapsedCounter st) as [st1 e1]. exact H1.
Qed.

Lemma renderSessionData_ok : forall st active,
    timers_ok st active ->
    timers_ok (fst (renderSessionData st))
              (timers_after (snd (renderSessionData st)) active).
Proof.
  intros st active H. unfold renderSessionData.
  destruct (sessionData st) as [s|]; [|exact H].
  match goal with |- context [updateProgressDisplay s ?x] => set (st1 := x) end.
  assert (H1 : timers_ok st1 active) by exact H.
  apply (updateProgressDisplay_ok s) in H1.
  destruct (updateProgressDisplay s st1) as [st2 e2]. cbn [fst snd] in *.
  rewrite !detail_timers_after_app. exact H1.
Qed.

Lemma detail_stopPolling_ok : forall st active,
    timers_ok st active ->
    timers_ok (fst (stopPolling st)) (timers_after (snd (stopPolling st)) active).
Proof.
  intros [sid data [i|] start t n pg] active H;
    unfold timers_ok, stopPolling in *; cbn in *.
  - now apply ok_clear_polling.
  - exact H.
Qed.

Lemma detail_pollSessionStatus_cases : forall now st,
    pollSessionStatus now st = (st, [])
    \/ (exists r, pollSessionStatus now st = (st, [Fetch r ThenStatus]))
    \/ pollSessionStatus now st
       = (fst (stopPolling st),
          ShowMessage msg_timeout (of_string "error") :: snd (stopPolling st)).
Proof.
  intros now st. unfold pollSessionStatus.
  destruct (negb (truthy_opt (sessionId st))); [now left|].
  destruct (_ >? _)%Z.
  - right. right. reflexivity.
  - right. left. now eexists.
Qed.

Lemma detail_pollSessionStatus_ok : forall now st active,
    timers_ok st active ->
    timers_ok (fst (pollSessionStatus now st))
              (timers_after (snd (pollSessionStatus now st)) active).
Proof.
  intros now st active H.
  destruct (detail_pollSessionStatus_cases now st) as [E|[[r E]|E]];
    rewrite E; cbn [fst snd timers_after]; try exact H.
  now apply detail_stopPolling_ok.
Qed.

Lemma detail_startPolling_ok : forall now st active,
    timers_ok st active ->
    timers_ok (fst (startPolling now st))
              (timers_after (snd (startPolling now st)) active).
Proof.
  intros now st active H. unfold startPolling.
  pose proof (detail_stopPolling_ok st active H) as H1.
  assert (N1 : pollingInterval (fst (stopPolling st)) = None) by reflexivity.
  destruct (stopPolling st) as [st1 e1]. cbn [fst snd] in *.
  match goal with |- context [pollSessionStatus now ?x] => set (st2 := x) end.
  assert (H2 : timers_ok st2 (timers_after e1 active)) by exact H1.
  pose proof (detail_pollSessionStatus_ok now st2 _ H2) as H3.
  assert (N3 : pollingInterval (fst (pollSessionStatus now st2)) = None).
  { destruct (detail_pollSessionStatus_cases now st2) as [E|[[r E]|E]];
      rewrite E; cbn [fst]; try exact N1. reflexivity. }
  destruct (pollSessionStatus now st2) as [st3 e3]. cbn [fst snd] in *.
  rewrite !detail_timers_after_app. cbn [timers_after].
  unfold timers_ok in *. cbn. rewrite N3 in H3. now apply ok_set_polling.
Qed.

Lemma detail_handle_ok : forall ev st active,
    timers_ok st active ->
    timers_ok (fst (handle ev st)) (timers_after (snd (handle ev st)) active).
Proof.
  intros ev st active H. destruct ev as [now|[r|m]|now [s|m]]; cbn [handle].
  - destruct (pollingInterval st); [now apply detail_pollSessionStatus_ok|exact H].
  - unfold pollSessionStatus_resume.
    assert (H1 : timers_ok (fst (updateProgressFromStatus r st))
                   (timers_after (snd (updateProgressFromStatus r st)) active)).
    { unfold updateProgressFromStatus. destruct (sessionData st); exact H. }
    destruct (updateProgressFromStatus r st) as [st1 e1]. cbn [fst snd] in H1.
    destruct (is_terminal (sr_status r)); [|exact H1].
    apply detail_stopPolling_ok in H1.
    destruct (stopPolling st1) as [st2 e2]. cbn [fst snd loadSessionData] in *.
    rewrite !detail_timers_after_app. exact H1.
  - exact H.
  - cbn [loadSessionData_resume].
    match goal with |- context [renderSessionData ?x] => set (st1 := x) end.
    assert (H1 : timers_ok st1 active) by exact H.
    apply renderSessionData_ok in H1.
    destruct (renderSessionData st1) as [st2 e2]. cbn [fst snd] in H1.
    destruct (in_progress (status s)); [|exact H1].
    apply (detail_startPolling_ok now) in H1.
    destruct (startPolling now st2) as [st3 e3]. cbn [fst snd] in *.
    now rewrite detail_timers_after_app.
  - exact H.
Qed.

Lemma detail_run_page_ok : forall evs st active,
    timers_ok st active ->
    timers_ok (fst (run_page evs st active)) (snd (run_page evs st active)).
Proof.
  induction evs as [|ev evs IH]; intros st active H; [exact H|].
  cbn [run_page]. apply IH. now apply detail_handle_ok.
Qed.

Lemma detail_init_ok : forall url_id pg,
    timers_ok (fst (init url_id pg)) (timers_after (snd (init url_id pg)) []).
Proof.
  intros url_id pg. unfold init.
  destruct (negb (truthy_opt url_id)); unfold timers_ok, Timers.ok; cbn;
    (split; [constructor|]); (split; [constructor|]);
    (split; [intros id; tauto|]); (split; intros id []).
Qed.

(** The polling loop leaves the counter of elapsed time alone. *)
Lemma loop_keeps_counter : forall ev st,
    loop_event ev = true ->
    timeElapsedInterval (fst (handle ev st)) = timeElapsedInterval st.
Proof.
  intros ev st Hl. destruct ev as [now|[r|m]|now r]; [| | |discriminate Hl];
    cbn [handle].
  - destruct (pollingInterval st); [|reflexivity].
    destruct (detail_pollSessionStatus_cases now st) as [E|[[r E]|E]];
      rewrite E; reflexivity.
  - unfold pollSessionStatus_resume, updateProgressFromStatus.
    destruct (sessionData st), (is_terminal (sr_status r)); reflexivity.
  - reflexivity.
Qed.

(** What the arrival of the session does to the two intervals. *)
Lemma session_arrived_intervals : forall now s st,
    let st' := fst (loadSessionData_resume now (Ok s) st) in
    (if in_progress (status s)
     then pollingInterval st' <> None
     else pollingInterval st' = pollingInterval st)
    /\ (if progress_display (dom st)
        then (timeElapsedInterval st' <> None <-> in_progress (status s) = true)
        else timeElapsedInterval st' = timeElapsedInterval st).
Proof.
  intros now s [sid data i start t n pg]. cbn [loadSessionData_resume].
  unfold renderSessionData. cbn [sessionData].
  unfold updateProgressDisplay. cbn [dom].
  assert (Ed : progress_display (updateErrorMessage s pg) = progress_display pg).
  { unfold updateErrorMessage.
    destruct (error_message_el pg), (error_text_el pg); try reflexivity.
    destruct (error_message s) as [m|]; [|reflexivity].
    destruct (truthy m && JsString.eqb (status s) s_failed); reflexivity. }
  rewrite Ed.
  destruct (progress_display pg), (in_progress (status s)) eqn:Ep, t as [t|];
    cbn; unfold pollSessionStatus; cbn;
    repeat match goal with
           | |- context [if ?b then _ else _] => destruct b; cbn
           end;
    split; try reflexivity; try discriminate;
    try (split; [reflexivity|discriminate]);
    try (split; [intros H; now elim H|discriminate]);
    try (split; [discriminate|intros _; discriminate]).
Qed.

End DetailIntervals.

(** X16.  On the session detail page, from [init] on and whatever
    arrives, the intervals registered in the browser are exactly those
    whose handles the page remembers, each registered once, so never
    more than two.  [stopPolling] clears the polling loop only: the
    counter of elapsed time, when it runs, is the one interval left. *)
Theorem X16_detail_intervals :
  forall (url_id : option jsstring) (pg : SessionDetailApp.page)
         (evs : list SessionDetailApp.event),
    let start := SessionDetailApp.init url_id pg in
    let st := fst (DetailMore.run_page evs (fst start)
                     (DetailMore.timers_after (snd start) [])) in
    let active := snd (DetailMore.run_page evs (fst start)
                         (DetailMore.timers_after (snd start) [])) in
    DetailMore.timers_ok st active
    /\ length active <= 2
    /\ (forall id,
           In id (DetailMore.timers_after (snd (SessionDetailApp.stopPolling st)) active)
           <-> SessionDetailApp.timeElapsedInterval st = Some id).
Proof.
  intros url_id pg evs start st active.
  assert (H : DetailMore.timers_ok st active).
  { apply detail_run_page_ok, detail_init_ok. }
  split; [exact H|]. split; [now apply ok_at_most_two in H|].
  intros id. apply detail_stopPolling_ok in H.
  destruct H as [_ [_ [Hin _]]]. rewrite Hin.
  unfold Timers.remembered. cbn [SessionDetailApp.stopPolling fst
    SessionDetailApp.with_polling SessionDetailApp.pollingInterval
    SessionDetailApp.timeElapsedInterval app].
  destruct (SessionDetailApp.timeElapsedInterval st) as [t|]; cbn [In].
  - split; [intros [[->|[]]|[]]; reflexivity|intros E; injection E as ->; auto].
  - split; [intros [[]|[]]|discriminate].
Qed.

(** X17.  On a detail page that has the progress elements, the counter
    of elapsed time runs after the session has arrived exactly when the
    session is pending or processing, and then the polling loop runs as
    well; a session that is neither leaves the polling loop as it is.
    The polling loop itself never starts or stops the counter, so a
    counter that runs when polling times out keeps running. *)
Theorem X17_detail_counter :
  forall (now : Z) (s : SessionDetailApp.session) (st : SessionDetailApp.state)
         (ev : SessionDetailApp.event),
    SessionDetailApp.progress_display (SessionDetailApp.dom st) = true ->
    let st' := fst (SessionDetailApp.loadSessionData_resume now (Ok s) st) in
    (SessionDetailApp.timeElapsedInterval st' <> None
     <-> SessionDetailApp.in_progress (SessionDetailApp.status s) = true)
    /\ (SessionDetailApp.in_progress (SessionDetailApp.status s) = true ->
        SessionDetailApp.pollingInterval st' <> None)
    /\ (SessionDetailApp.in_progress (SessionDetailApp.status s) = false ->
        SessionDetailApp.pollingInterval st' = SessionDetailApp.pollingInterval st)
    /\ (SessionDetailApp.loop_event ev = true ->
        SessionDetailApp.timeElapsedInterval (fst (SessionDetailApp.handle ev st))
        = SessionDetailApp.timeElapsedInterval st).
Proof.
  intros now s st ev Hd st'.
  pose proof (session_arrived_intervals now s st) as [H1 H2].
  fold st' in H1, H2. rewrite Hd in H2.
  split; [exact H2|].
  split; [intros E; now rewrite E in H1|].
  split; [intros E; now rewrite E in H1|].
  apply loop_keeps_counter.
Qed.

(** X17 on the sample page: the session arrives running, the counter
    starts; the timeout of the polling loop leaves it running. *)
Lemma X17_detail_counter_witness :
  SessionDetailApp.timeElapsedInterval Examples.detail_polling <> None
  /\ SessionDetailApp.timeElapsedInterval
       (fst (SessionDetailApp.handle (SessionDetailApp.PollTick 700000)
               Examples.detail_polling))
     = SessionDetailApp.timeElapsedInterval Examples.detail_polling.
Proof.
  split.
  - exact (proj2 (proj1 (X17_detail_counter 1000 Examples.running_session
                           Examples.detail_loading (SessionDetailApp.PollTick 0)
                           eq_refl)) eq_refl).
  - exact (proj2 (proj2 (proj2 (X17_detail_counter 1000 Examples.running_session
                                  Examples.detail_polling
                                  (SessionDetailApp.PollTick 700000) eq_refl)))
             eq_refl).
Defined.

(** ** The buttons of the pages *)

Section Buttons.

Lemma in_progress_not_completed : forall s,
    SessionDetailApp.in_progress s = true -> JsString.eqb s s_completed = false.
Proof.
  intros s H. unfold SessionDetailApp.in_progress in H.
  apply orb_true_iff in H. rewrite !eqb_eq in H.
  destruct H as [-> | ->]; reflexivity.
Qed.

Lemma session_arrived_buttons : forall now s st,
    In (SessionDetailApp.UpdateActionButtons s)
       (snd (SessionDetailApp.loadSessionData_resume now (Ok s) st)).
Proof.
  intros now s st. cbn [SessionDetailApp.loadSessionData_resume].
  unfold SessionDetailApp.renderSessionData. cbn [SessionDetailApp.sessionData].
  match goal with |- context [SessionDetailApp.updateProgressDisplay s ?x] =>
    destruct (SessionDetailApp.updateProgressDisplay s x) as [st2 e2] end.
  assert (H : In (SessionDetailApp.UpdateActionButtons s)
                 ([SessionDetailApp.UpdateMetadata s;
                   SessionDetailApp.UpdateResultsSummary (SessionDetailApp.analyses s)]
                  ++ e2 ++ [SessionDetailApp.RenderFindings (SessionDetailApp.analyses s);
                            SessionDetailApp.UpdateActionButtons s])).
  { apply in_or_app. right. apply in_or_app. right. right. now left. }
  destruct (SessionDetailApp.in_progress (SessionDetailApp.status s)); [|exact H].
  destruct (SessionDetailApp.startPolling now st2) as [st3 e3]. cbn [snd].
  apply in_or_app. now left.
Qed.

Lemma last_app_cons : forall (A : Type) (l : list A) (x d : A),
    last (l ++ [x]) d = x.
Proof. intros A l x d. apply last_last. Qed.

End Buttons.

(** X18.  When a session arrives on the detail page, the action buttons
    are updated for it.  The re-analyze button is disabled exactly for a
    session that is pending or processing, and that arrival then also
    starts the polling loop and disables the export button.  The export
    button is enabled exactly for a completed session with at least one
    analysis.  A button that the document lacks is not written. *)
Theorem X18_action_buttons :
  forall (now : Z) (s : SessionDetailApp.session) (st : SessionDetailApp.state),
    let buttons := DetailMore.updateActionButtons true true s in
    let loaded := SessionDetailApp.loadSessionData_resume now (Ok s) st in
    In (SessionDetailApp.UpdateActionButtons s) (snd loaded)
    /\ (fst buttons = Some true
        <-> SessionDetailApp.in_progress (SessionDetailApp.status s) = true)
    /\ (fst buttons = Some true ->
        SessionDetailApp.pollingInterval (fst loaded) <> None
        /\ snd buttons = Some true)
    /\ (snd buttons = Some false
        <-> SessionDetailApp.status s = s_completed /\ SessionDetailApp.analyses s <> 0)
    /\ DetailMore.updateActionButtons false false s = (None, None).
Proof.
  intros now s st buttons loaded.
  assert (E : fst buttons
              = Some (SessionDetailApp.in_progress (SessionDetailApp.status s)))
    by reflexivity.
  split; [apply session_arrived_buttons|].
  split; [rewrite E; split; [intros H; now injection H|intros ->; reflexivity]|].
  split; [|split; [|reflexivity]].
  - rewrite E. intros H. injection H as H.
    pose proof (session_arrived_intervals now s st) as [H1 _]. rewrite H in H1.
    split; [exact H1|].
    subst buttons. unfold DetailMore.updateActionButtons. cbn [snd].
    now rewrite (in_progress_not_completed _ H).
  - subst buttons. unfold DetailMore.updateActionButtons. cbn [snd].
    destruct (JsString.eqb (SessionDetailApp.status s) s_completed) eqn:Es;
      destruct (Nat.eqb_spec (SessionDetailApp.analyses s) 0) as [En|En]; cbn.
    + split; [discriminate|intros [_ H]; now elim H].
    + apply eqb_eq in Es. split; [intros _; now split|reflexivity].
    + apply eqb_neq in Es. split; [discriminate|intros [H _]; now elim Es].
    + apply eqb_neq in Es. split; [discriminate|intros [H _]; now elim Es].
Qed.

(** X18 on the sample session, which is processing: the buttons are
    disabled and the loop runs. *)
Lemma X18_action_buttons_witness :
  SessionDetailApp.pollingInterval Examples.detail_polling <> None
  /\ snd (DetailMore.updateActionButtons true true Examples.running_session) = Some true.
Proof.
  exact (proj1 (proj2 (proj2 (X18_action_buttons 1000 Examples.running_session
                                Examples.detail_loading))) eq_refl).
Defined.

(** X19.  However the polling of the analysis page ends, the buttons
    are given back.  The reaction to a tick after the timeout and the
    reaction to a status 'failed' both end with [restoreAnalysisButtons].
    The reaction to a status 'completed' ends with the request of the
    session, and the reaction to its answer, whatever the answer, ends
    with [restoreAnalysisButtons]; so does the reaction to a refused
    creation of a session. *)
Theorem X19_buttons_given_back :
  forall (st : RustGreenApp.state) (sid : jsstring),
    RustGreenApp.polling st = true ->
    RustGreenApp.currentSessionId st = Some sid ->
    truthy sid = true ->
    (forall now : Z,
        RustGreenApp.timed_out now st = true ->
        last (snd (RustGreenApp.handle (RustGreenApp.PollTick now) st))
             RustGreenApp.ConsoleError
        = RustGreenApp.RestoreAnalysisButtons)
    /\ (forall r : status_response,
           sr_status r = s_failed ->
           last (snd (RustGreenApp.handle (RustGreenApp.StatusArrived (Ok r)) st))
                RustGreenApp.ConsoleError
           = RustGreenApp.RestoreAnalysisButtons)
    /\ (forall r : status_response,
           sr_status r = s_completed ->
           last (snd (RustGreenApp.handle (RustGreenApp.StatusArrived (Ok r)) st))
                RustGreenApp.ConsoleError
           = RustGreenApp.Fetch (RustGreenApp.getSession sid) RustGreenApp.ThenResults)
    /\ (forall r : response nat,
           last (RustGreenApp.fetchAndDisplayResults_resume r) RustGreenApp.ConsoleError
           = RustGreenApp.RestoreAnalysisButtons)
    /\ (forall (now : Z) (m : jsstring),
           last (snd (RustGreenApp.startAnalysis_resume now (Err m) st))
                RustGreenApp.ConsoleError
           = RustGreenApp.RestoreAnalysisButtons).
Proof.
  intros st sid Hp Hid Ht.
  split; [|split; [|split; [|split; [intros [count|m]; reflexivity|reflexivity]]]].
  - intros now Hs. cbn [RustGreenApp.handle].
    unfold RustGreenApp.polling in Hp.
    destruct (RustGreenApp.pollingInterval st); [|discriminate Hp].
    rewrite (pollSessionStatus_timeout now st sid Hid Ht Hs). cbn [snd].
    change (?x :: ?l ++ ?m) with ((x :: l) ++ m). apply last_app_cons.
  - intros r Hs. cbn [RustGreenApp.handle].
    rewrite (resume_failed r st Hs). cbn [snd].
    match goal with
    | |- last (?x :: ?l ++ [?y; ?z]) _ = _ =>
        replace (x :: l ++ [y; z]) with ((x :: l ++ [y]) ++ [z])
          by (cbn [app]; now rewrite <- app_assoc)
    end.
    apply last_app_cons.
  - intros r Hs. cbn [RustGreenApp.handle].
    rewrite (resume_completed r st Hs), Hid. cbn [snd].
    unfold RustGreenApp.fetchAndDisplayResults. cbn [truthy_opt]. rewrite Ht.
    change (?x :: ?l ++ ?m) with ((x :: l) ++ m). apply last_app_cons.
Qed.

(** X19 on the sample run: the tick after ten minutes and a status
    'failed' give the buttons back. *)
Lemma X19_buttons_given_back_witness :
  last (snd (RustGreenApp.handle (RustGreenApp.PollTick 700000)
               Examples.analysis_polling)) RustGreenApp.ConsoleError
  = RustGreenApp.RestoreAnalysisButtons
  /\ last (snd (RustGreenApp.handle
                  (RustGreenApp.StatusArrived (Ok (Examples.failed 40)))
                  Examples.analysis_polling)) RustGreenApp.ConsoleError
     = RustGreenApp.RestoreAnalysisButtons.
Proof.
  pose proof (X19_buttons_given_back Examples.analysis_polling Examples.sid
                eq_refl eq_refl eq_refl) as [H1 [H2 _]].
  split; [exact (H1 700000%Z eq_refl)|exact (H2 (Examples.failed 40) eq_refl)].
Defined.
